(** * threesixty-parser: a shallow embedding of [threesixty/threesixty.py]

    The development follows the Python module top to bottom:
    - [Py]: the few Python built-ins the module relies on (insertion-ordered
      dictionaries, [str] of an index, JSON values as [json.load] returns them);
    - [Re]: the fragment of Python's [re] that the generated rename rules use;
    - [Grant]: [Grant.__init__] and [Grant.to_flat];
    - [ThreeSixtyGiving]: [recurse_names], [get_errors], [from_json],
      [from_file], [to_flatfile] and [convert_fieldnames].

    Strings are byte strings: every character of the module's own literals
    is ASCII. *)

From Stdlib Require Import List String Ascii Bool ZArith.
From Stdlib Require Import DecimalString DecimalNat.
Import ListNotations.

Open Scope string_scope.
Open Scope list_scope.

Set Warnings "-register-all".

(* ================================================================== *)
(** ** Python built-ins *)

Module Py.

(** A value as [json.load] builds it.  [JFloat] carries the bit pattern of
    the binary64 value; no operation of the module looks inside a number. *)
Inductive json : Type :=
| JNull
| JBool (b : bool)
| JInt (n : Z)
| JFloat (bits : Z)
| JStr (s : string)
| JList (l : list json)
| JDict (d : list (string * json)).

(** [isinstance(x, list)], [isinstance(x, dict)] *)
Definition is_list (x : json) : bool :=
  match x with JList _ => true | _ => false end.

Definition is_dict (x : json) : bool :=
  match x with JDict _ => true | _ => false end.

(** Insertion-ordered dictionary with string keys ([dict], [OrderedDict]):
    the entries in insertion order. *)
Definition odict (V : Type) : Type := list (string * V).

Section Odict.
Context {V : Type}.

(** [d.get(k)] *)
Fixpoint od_get (k : string) (d : odict V) : option V :=
  match d with
  | [] => None
  | (k', v) :: d' => if String.eqb k k' then Some v else od_get k d'
  end.

(** [k in d] *)
Definition od_mem (k : string) (d : odict V) : bool :=
  match od_get k d with Some _ => true | None => false end.

(** [d[k] = v]: an existing key keeps its position, a new one goes last. *)
Fixpoint od_set (k : string) (v : V) (d : odict V) : odict V :=
  match d with
  | [] => [(k, v)]
  | (k', v') :: d' =>
      if String.eqb k k' then (k', v) :: d' else (k', v') :: od_set k v d'
  end.

(** [d.keys()] *)
Definition od_keys (d : odict V) : list string := map fst d.

(** [OrderedDict(pairs)], [dict(pairs)] *)
Definition od_of_pairs (pairs : list (string * V)) : odict V :=
  fold_left (fun d kv => od_set (fst kv) (snd kv) d) pairs [].
End Odict.

(** [str(i)] for an index [i] of [range(len(...))] *)
Definition str (i : nat) : string := NilEmpty.string_of_uint (Nat.to_uint i).

(** [zip(map(str, range(len(vals))), vals)], counting from [i] *)
Fixpoint enumerate_from {A : Type} (i : nat) (vals : list A) : list (string * A) :=
  match vals with
  | [] => []
  | x :: vals' => (str i, x) :: enumerate_from (S i) vals'
  end.

(** [x in l] for a list of strings *)
Definition mem (x : string) (l : list string) : bool :=
  existsb (String.eqb x) l.

(** Exceptions.  [ExternalError] stands for whatever a collaborator raises
    (opening or decoding a file, the network, [flattentool]).  [ReError]
    stands for [re.error] and for a pattern or template outside the modelled
    fragment of [re]: no theorem concludes from it what Python does. *)
Inductive exn : Type :=
| ValueError (msg : string)
| TypeError
| AttributeError
| KeyError
| IndexError
| ReError
| ExternalError.

(** The outcome of a call: a value or a raised exception *)
Inductive result (A : Type) : Type :=
| Ok (a : A)
| Raise (e : exn).
Arguments Ok {A} a.
Arguments Raise {A} e.

Definition bind {A B : Type} (c : result A) (k : A -> result B) : result B :=
  match c with
  | Ok a => k a
  | Raise e => Raise e
  end.

Notation "x <- c ;; k" := (bind c (fun x => k))
  (at level 61, c at next level, right associativity).

Definition lift {A : Type} (e : exn) (o : option A) : result A :=
  match o with
  | Some a => Ok a
  | None => Raise e
  end.

(** Run [f] over a list, stopping at the first exception. *)
Fixpoint for_each {A B : Type} (f : A -> result B) (l : list A) : result (list B) :=
  match l with
  | [] => Ok []
  | x :: l' => y <- f x ;; ys <- for_each f l' ;; Ok (y :: ys)
  end.

(** A loop with an accumulator, stopping at the first exception. *)
Fixpoint for_fold {A S : Type} (f : S -> A -> result S) (l : list A) (st : S)
  : result S :=
  match l with
  | [] => Ok st
  | x :: l' => st' <- f st x ;; for_fold f l' st'
  end.

(** The characters of a string, as [for c in s] yields them *)
Fixpoint chars (s : string) : list string :=
  match s with
  | "" => []
  | String a s' => String a "" :: chars s'
  end.

(** [for x in v] over a JSON value *)
Definition iterate (v : json) : result (list json) :=
  match v with
  | JList l => Ok l
  | JDict d => Ok (map JStr (od_keys d))
  | JStr s => Ok (map JStr (chars s))
  | _ => Raise TypeError
  end.

End Py.
Import Py.

(* ================================================================== *)
(** ** The fragment of Python's [re] used by the rename rules

    The patterns that [recurse_names] builds are property names joined by
    [.([0-9]+).], so the fragment has literal characters, the wildcard [.],
    character classes without negation, capture groups, and [+] applied to a
    single-character item.  The matcher is a backtracking matcher with
    Python's priorities (a greedy [+] tries the longest repetition first).
    A pattern or a template outside the fragment gives [None]: Python
    either raises [re.error] there or uses a construct that is not modelled,
    so that [None] says nothing about what Python does.  The matcher reads
    bytes: it stands for Python's where a character is one byte, as on
    ASCII patterns and ASCII text. *)

Module Re.

(** One-character items *)
Inductive cset : Type :=
| CLit (c : ascii)
| CDot
| CClass (ranges : list (ascii * ascii)).

Inductive regex : Type :=
| Eps
| Chr (c : cset)
| Plus (c : cset)
| Seq (r1 r2 : regex)
| Group (n : nat) (r : regex).

Definition in_range (lo hi a : ascii) : bool :=
  Nat.leb (nat_of_ascii lo) (nat_of_ascii a) && Nat.leb (nat_of_ascii a) (nat_of_ascii hi).

(** [.] matches everything but a newline (no DOTALL flag is given). *)
Definition cset_match (c : cset) (a : ascii) : bool :=
  match c with
  | CLit b => Ascii.eqb a b
  | CDot => negb (Ascii.eqb a "010")
  | CClass ranges => existsb (fun r => in_range (fst r) (snd r) a) ranges
  end.

(** *** Compiling a pattern *)

(** The items of a sequence are collected in reverse. *)
Definition seq_of (items_rev : list regex) : regex :=
  fold_left (fun acc r => Seq r acc) items_rev Eps.

(** The characters between [[] and []]: [a-b] is a range, anything else
    stands for itself. *)
Fixpoint class_ranges (cs : list ascii) : option (list (ascii * ascii)) :=
  match cs with
  | [] => Some []
  | a :: cs' =>
      match cs' with
      | "-"%char :: b :: cs'' =>
          if Nat.leb (nat_of_ascii a) (nat_of_ascii b)
          then option_map (cons (a, b)) (class_ranges cs'')
          else None
      | _ => option_map (cons (a, a)) (class_ranges cs')
      end
  end.

(** Characters with a special meaning that the fragment does not cover. *)
Definition unsupported (a : ascii) : bool :=
  existsb (Ascii.eqb a)
    ["\"; "*"; "?"; "{"; "}"; "|"; "^"; "$"; "]"]%char.

(** One pass over the pattern.  [cur] holds the items of the sequence
    being read, [stack] the enclosing sequences with the number of the
    group that was opened, [ngroups] the number of groups opened so far and
    [cls] the characters of the class being read, if any. *)
Fixpoint parse (p : string) (cur : list regex) (stack : list (nat * list regex))
    (ngroups : nat) (cls : option (list ascii)) : option (regex * nat) :=
  match p with
  | "" =>
      match cls, stack with
      | None, [] => Some (seq_of cur, ngroups)
      | _, _ => None
      end
  | String a p' =>
      match cls with
      | Some cs =>
          if Ascii.eqb a "]" then
            match cs with
            | [] => None
            | _ =>
                match class_ranges (rev cs) with
                | Some ranges =>
                    parse p' (Chr (CClass ranges) :: cur) stack ngroups None
                | None => None
                end
            end
          else if Ascii.eqb a "\" || Ascii.eqb a "^" || Ascii.eqb a "["
          then None
          else parse p' cur stack ngroups (Some (a :: cs))
      | None =>
          if Ascii.eqb a "(" then
            parse p' [] ((S ngroups, cur) :: stack) (S ngroups) None
          else if Ascii.eqb a ")" then
            match stack with
            | (n, outer) :: stack' =>
                parse p' (Group n (seq_of cur) :: outer) stack' ngroups None
            | [] => None
            end
          else if Ascii.eqb a "+" then
            match cur with
            | Chr c :: cur' => parse p' (Plus c :: cur') stack ngroups None
            | _ => None
            end
          else if Ascii.eqb a "." then
            parse p' (Chr CDot :: cur) stack ngroups None
          else if Ascii.eqb a "[" then
            parse p' cur stack ngroups (Some [])
          else if unsupported a then None
          else parse p' (Chr (CLit a) :: cur) stack ngroups None
      end
  end.

(** [re.compile(pattern)]: the compiled pattern and its number of groups *)
Definition compile (pattern : string) : option (regex * nat) :=
  parse pattern [] [] 0 None.

(** *** Matching *)

(** The text of each group that took part in the match, latest first *)
Definition captures : Type := list (nat * string).

Fixpoint group (n : nat) (caps : captures) : option string :=
  match caps with
  | [] => None
  | (m, s) :: caps' => if Nat.eqb n m then Some s else group n caps'
  end.

(** The part of [s] that was consumed when [rest] is what is left *)
Definition consumed (s rest : string) : string :=
  substring 0 (String.length s - String.length rest) s.

Section Matcher.
Context {A : Type}.

(** [c+], greedy: repeat as long as possible, then give back one
    character at a time. *)
Fixpoint plus_k (c : cset) (k : string -> option A) (s : string) : option A :=
  match s with
  | "" => None
  | String a s' =>
      if cset_match c a then
        match plus_k c k s' with
        | Some r => Some r
        | None => k s'
        end
      else None
  end.

(** [m r s caps k]: match [r] at the start of [s], then continue with
    [k] on the rest; [None] when every alternative is exhausted. *)
Fixpoint m (r : regex) (s : string) (caps : captures)
    (k : string -> captures -> option A) {struct r} : option A :=
  match r with
  | Eps => k s caps
  | Chr c =>
      match s with
      | "" => None
      | String a s' => if cset_match c a then k s' caps else None
      end
  | Plus c => plus_k c (fun s' => k s' caps) s
  | Seq r1 r2 => m r1 s caps (fun s' caps' => m r2 s' caps' k)
  | Group n r' =>
      m r' s caps (fun s' caps' => k s' ((n, consumed s s') :: caps'))
  end.
End Matcher.

(** A match of the compiled pattern that has to reach the end of [s] *)
Definition fullmatch_re (r : regex) (s : string) : option captures :=
  m r s [] (fun rest caps => if String.eqb rest "" then Some caps else None).

(** The first match, in priority order, at the start of [s]: its length
    and its groups *)
Definition match_re (r : regex) (s : string) : option (nat * captures) :=
  m r s [] (fun rest caps => Some (String.length s - String.length rest, caps)).

(** [re.fullmatch(pattern, s)], read as a truth value *)
Definition fullmatch (pattern s : string) : option bool :=
  match compile pattern with
  | Some (r, _) =>
      Some (match fullmatch_re r s with Some _ => true | None => false end)
  | None => None
  end.

(** *** Replacement templates *)

Inductive piece : Type :=
| Lit (a : ascii)
| Ref (n : nat).

Definition digit_value (a : ascii) : option nat :=
  if in_range "0" "9" a then Some (nat_of_ascii a - 48) else None.

(** A template is literal text with group references [\1] .. [\9] and the
    escape [\\]; a reference to a group that the pattern does not have is
    an error, as in Python. *)
Fixpoint parse_template (repl : string) (ngroups : nat) : option (list piece) :=
  match repl with
  | "" => Some []
  | String a repl' =>
      if Ascii.eqb a "\" then
        match repl' with
        | String b repl'' =>
            if Ascii.eqb b "\" then
              option_map (cons (Lit "\")) (parse_template repl'' ngroups)
            else
              match digit_value b with
              | Some (S n) =>
                  match repl'' with
                  | String c _ =>
                      match digit_value c with
                      | Some _ => None
                      | None =>
                          if Nat.leb (S n) ngroups
                          then option_map (cons (Ref (S n)))
                                 (parse_template repl'' ngroups)
                          else None
                      end
                  | "" => if Nat.leb (S n) ngroups then Some [Ref (S n)] else None
                  end
              | _ => None
              end
        | "" => None
        end
      else option_map (cons (Lit a)) (parse_template repl' ngroups)
  end.

(** A group that did not take part in the match expands to nothing. *)
Fixpoint expand (tpl : list piece) (caps : captures) : string :=
  match tpl with
  | [] => ""
  | Lit a :: tpl' => String a (expand tpl' caps)
  | Ref n :: tpl' =>
      (match group n caps with Some s => s | None => "" end) ++ expand tpl' caps
  end.

(** *** Substitution *)

(** The scan of [re.sub]: replace the non-overlapping matches from left to
    right and copy what lies between them.  [skip] counts the characters
    still covered by the match that was just replaced.  A pattern of the
    fragment matches either only the empty string or never the empty
    string, so after an empty match the scan moves on by one character. *)
Fixpoint sub_scan (r : regex) (tpl : list piece) (skip : nat) (s : string)
  : string :=
  match skip with
  | S skip' =>
      match s with
      | "" => ""
      | String _ s' => sub_scan r tpl skip' s'
      end
  | 0 =>
      match match_re r s with
      | Some (S len, caps) =>
          expand tpl caps ++
          match s with
          | "" => ""
          | String _ s' => sub_scan r tpl len s'
          end
      | Some (0, caps) =>
          expand tpl caps ++
          match s with
          | "" => ""
          | String a s' => String a (sub_scan r tpl 0 s')
          end
      | None =>
          match s with
          | "" => ""
          | String a s' => String a (sub_scan r tpl 0 s')
          end
      end
  end.

(** [re.sub(pattern, repl, s)] *)
Definition sub (pattern repl s : string) : option string :=
  match compile pattern with
  | Some (r, ngroups) =>
      match parse_template repl ngroups with
      | Some tpl => Some (sub_scan r tpl 0 s)
      | None => None
      end
  | None => None
  end.

End Re.

(* ================================================================== *)
(** ** class Grant *)

Module Grant.

(** A [Grant] object is its [__dict__]. *)
Definition t : Type := odict json.

(** [Grant.__init__] called with the keyword arguments [g], as [__iter__]
    does: [g] has to be a mapping, and a key [self] collides with the
    receiver of [__init__] (TypeError in both cases). *)
Definition init (g : json) : result t :=
  match g with
  | JDict kwargs => if od_mem "self" kwargs then Raise TypeError else Ok kwargs
  | _ => Raise TypeError
  end.

(** ['{}.{}'.format(prefix, v) if prefix != '' else v] *)
Definition new_key (prefix v : string) : string :=
  if String.eqb prefix "" then v else prefix ++ "." ++ v.

(** The local function [flatten] of [to_flat].  [vals] is a list or a
    dict; the two inner loops are the [for v in vals] loop over a dict and
    over the dict [zip(map(str, range(len(vals))), vals)] of a list. *)
Fixpoint flatten (vals : json) (prefix : string) {struct vals}
  : list (string * json) :=
  match vals with
  | JList l =>
      (fix loop (i : nat) (l : list json) {struct l} : list (string * json) :=
         match l with
         | [] => []
         | x :: l' =>
             (match x with
              | JList _ => flatten x (new_key prefix (str i))
              | JDict _ => flatten x (new_key prefix (str i))
              | _ => [(new_key prefix (str i), x)]
              end) ++ loop (S i) l'
         end) 0 l
  | JDict d =>
      (fix loop (d : list (string * json)) {struct d} : list (string * json) :=
         match d with
         | [] => []
         | (v, x) :: d' =>
             (match x with
              | JList _ => flatten x (new_key prefix v)
              | JDict _ => flatten x (new_key prefix v)
              | _ => [(new_key prefix v, x)]
              end) ++ loop d'
         end) d
  | _ => []
  end.

(** [Grant.to_flat] *)
Definition to_flat (self : t) : odict json :=
  od_of_pairs (flatten (JDict self) "").

(** The call [g.to_flat()].  An attribute is looked up on the object
    before its class, so a field named [to_flat] hides the method; what is
    found there is a JSON value, and calling it raises TypeError. *)
Definition call_to_flat (g : t) : result (odict json) :=
  if od_mem "to_flat" g then Raise TypeError else Ok (to_flat g).

End Grant.

(* ================================================================== *)
(** ** class ThreeSixtyGiving *)

Module ThreeSixtyGiving.

(** *** The schema and the validator, as the class sees them *)

(** A property definition of the dereferenced schema, read through the
    three look-ups that [recurse_names] makes: [prop.get("title")],
    [prop.get("type")] and [prop.get("items", {}).get("properties", {})]
    (empty when either key is missing).  A title is a string, as the
    Draft 4 metaschema has it.  A [type] that is a list of type names is
    never equal to ['array'] and behaves like any other name.  The tree is
    finite: a schema that refers to itself is not represented. *)
Inductive schema_prop : Type :=
| SchemaProp (title : option string) (type_ : option string)
    (items_properties : list (string * schema_prop)).

Definition properties : Type := list (string * schema_prop).

(** The dereferenced package schema, read through
    [schema['properties'][root]['items']['properties']]: the record
    properties of each root list, [None] when one of the keys is missing. *)
Definition schema : Type := odict properties.

(** An error of [jsonschema]: the failing keyword, its value in the schema,
    the path to the offending value and the message. *)
Record ValidationError : Type := mkError {
  validator_kw : string;
  validator_value : json;
  path : list string;
  message : string
}.

(** The collaborators of the class. *)
Record world : Type := mkWorld {
  (** [open(f)], [json.load], [close]; [None] when one of them raises *)
  load_json : string -> option json;
  (** [requests.get(url).json()] followed by [JsonRef.replace_refs] *)
  get_schema : string -> option schema;
  (** [Draft4Validator(schema, format_checker=FormatChecker()).iter_errors] *)
  iter_errors : schema -> json -> list ValidationError;
  (** [flattentool.unflatten] of a file in the given input format: the
      path of the JSON file it wrote *)
  unflatten : string -> string -> option string
}.

Definition root_id : string := "grants".

Definition default_schema_url : string :=
  "https://raw.githubusercontent.com/ThreeSixtyGiving/standard/master/schema/360-giving-package-schema.json".

(** The attributes of an instance *)
Record t : Type := mk {
  schema_ : option schema;
  schema_url : string;
  validator : option (json -> list ValidationError);
  errors : list ValidationError;
  valid : bool;
  replace_names : odict string;
  data : json
}.

(** [__init__] *)
Definition init (url : option string) : t :=
  {| schema_ := None;
     schema_url := match url with
                   | Some u => if String.eqb u "" then default_schema_url else u
                   | None => default_schema_url
                   end;
     validator := None;
     errors := [];
     valid := false;
     replace_names := [];
     data := JDict [] |}.

(** [self.data = d] *)
Definition set_data (self : t) (d : json) : t :=
  {| schema_ := schema_ self; schema_url := schema_url self;
     validator := validator self; errors := errors self; valid := valid self;
     replace_names := replace_names self; data := d |}.

(** [self.replace_names = names] *)
Definition set_replace_names (self : t) (names : odict string) : t :=
  {| schema_ := schema_ self; schema_url := schema_url self;
     validator := validator self; errors := errors self; valid := valid self;
     replace_names := names; data := data self |}.

(** *** fetch_schema *)

(** [prop.get("title", i)] *)
Definition title_or (prop : schema_prop) (i : string) : string :=
  match prop with
  | SchemaProp (Some title) _ _ => title
  | SchemaProp None _ _ => i
  end.

(** ['{}.([0-9]+).{}'.format(prefix_k, i) if prefix_k != '' else i] *)
Definition name_k (prefix_k i : string) : string :=
  if String.eqb prefix_k "" then i else prefix_k ++ ".([0-9]+)." ++ i.

(** ['{}:\\1:{}'.format(prefix_v, title) if prefix_v != '' else title] *)
Definition name_v (prefix_v title : string) : string :=
  if String.eqb prefix_v "" then title else prefix_v ++ ":\1:" ++ title.

(** The body of the loop of [recurse_names] for the property [i], with the
    recursive call on [items.properties] unfolded into the inner loop. *)
Fixpoint recurse_prop (i : string) (prop : schema_prop)
    (replace_names : odict string) (prefix_k prefix_v : string) {struct prop}
  : odict string :=
  match prop with
  | SchemaProp title type_ items_properties =>
      let k := name_k prefix_k i in
      let v := name_v prefix_v (title_or prop i) in
      match type_ with
      | Some ty =>
          if String.eqb ty "array" then
            (fix loop (props : properties) (acc : odict string) {struct props}
               : odict string :=
               match props with
               | [] => acc
               | (j, p) :: props' => loop props' (recurse_prop j p acc k v)
               end) items_properties replace_names
          else od_set k v replace_names
      | None => od_set k v replace_names
      end
  end.

(** [recurse_names(props, replace_names, prefix_k, prefix_v)] *)
Definition recurse_names (props : properties) (replace_names : odict string)
    (prefix_k prefix_v : string) : odict string :=
  fold_left (fun acc ip => recurse_prop (fst ip) (snd ip) acc prefix_k prefix_v)
    props replace_names.

Definition fetch_schema (w : world) (self : t) : result t :=
  sch <- lift ExternalError (get_schema w (schema_url self)) ;;
  props <- lift KeyError (od_get root_id sch) ;;
  Ok {| schema_ := Some sch;
        schema_url := schema_url self;
        validator := Some (iter_errors w sch);
        errors := errors self;
        valid := valid self;
        replace_names := recurse_names props (replace_names self) "" "";
        data := data self |}.

(** *** get_errors *)

(** [x[0]] on a JSON value *)
Definition subscript0 (x : json) : result json :=
  match x with
  | JList (y :: _) => Ok y
  | JList [] => Raise IndexError
  | JStr (String a _) => Ok (JStr (String a ""))
  | JStr "" => Raise IndexError
  | JDict _ => Raise KeyError
  | _ => Raise TypeError
  end.

(** [x == {'format': 'date-time'}] *)
Definition is_date_time_format (x : json) : bool :=
  match x with
  | JDict [(k, JStr f)] => String.eqb k "format" && String.eqb f "date-time"
  | _ => false
  end.

(** The test of the [if] in [get_errors]; [and] evaluates its right
    operand only when the left one holds. *)
Definition ignored (e : ValidationError) : result bool :=
  if String.eqb (validator_kw e) "oneOf" then
    first <- subscript0 (validator_value e) ;;
    Ok (is_date_time_format first)
  else Ok false.

(** The generator [get_errors], run to its end over the errors that the
    validator reports. *)
Fixpoint surfaced (reported : list ValidationError) : result (list ValidationError) :=
  match reported with
  | [] => Ok []
  | e :: reported' =>
      skip <- ignored e ;;
      rest <- surfaced reported' ;;
      Ok (if skip then rest else e :: rest)
  end.

Definition get_errors (self : t) (d : json) : result (list ValidationError) :=
  iter <- lift AttributeError (validator self) ;;
  surfaced (iter d).

(** *** The loaders *)

(** [from_json]; [f] is a path (a file object is read in the same way from
    [json.load] on). *)
Definition from_json (w : world) (f : string) (url : option string) : result t :=
  let c := init url in
  d <- lift ExternalError (load_json w f) ;;
  c <- fetch_schema w (set_data c d) ;;
  errs <- get_errors c (data c) ;;
  match errs with
  | _ :: _ => Raise (ValueError "Invalid file")
  | [] =>
      Ok {| schema_ := schema_ c; schema_url := schema_url c;
            validator := validator c; errors := errs;
            valid := Nat.eqb (List.length errs) 0;
            replace_names := replace_names c; data := data c |}
  end.

Definition from_csv (w : world) (f : string) (url : option string) : result t :=
  json_output <- lift ExternalError (unflatten w "csv" f) ;;
  from_json w json_output url.

Definition from_excel (w : world) (f : string) (url : option string) : result t :=
  json_output <- lift ExternalError (unflatten w "xlsx" f) ;;
  from_json w json_output url.

(** [from_file]: a function that runs off its end returns [None]. *)
Definition from_file (w : world) (f filetype : string) (url : option string)
  : result (option t) :=
  if String.eqb filetype "json" then
    c <- from_json w f url ;; Ok (Some c)
  else if String.eqb filetype "csv" then
    c <- from_csv w f url ;; Ok (Some c)
  else if mem filetype ["xlsx"; "xls"; "excel"] then
    c <- from_excel w f url ;; Ok (Some c)
  else Ok None.

(** *** Export *)

(** [__iter__]: the grants, in the order of the document *)
Definition iter (self : t) : result (list Grant.t) :=
  match data self with
  | JDict d =>
      match od_get root_id d with
      | Some grants => gs <- iterate grants ;; for_each Grant.init gs
      | None => Ok []
      end
  | _ => Raise AttributeError
  end.

(** The inner loop of [to_flatfile] *)
Definition add_fieldnames (keys fieldnames : list string) : list string :=
  fold_left (fun fns f => if mem f fns then fns else fns ++ [f]) keys fieldnames.

(** [to_flatfile].  The grants are built one by one as the loop asks for
    them; building them first changes nothing, every exception of the loop
    being a TypeError and nothing of the loop being visible when it
    raises. *)
Definition to_flatfile (self : t) : result (list (odict json) * list string) :=
  gs <- iter self ;;
  for_fold
    (fun acc g =>
       g_flat <- Grant.call_to_flat g ;;
       Ok (fst acc ++ [g_flat], add_fieldnames (od_keys g_flat) (snd acc)))
    gs ([], []).

(** The body of the two loops of [convert_fieldnames] *)
Definition apply_rule (old new : string) (fieldnames : odict string)
    (field : string) : result (odict string) :=
  matched <- lift ReError (Re.fullmatch old field) ;;
  if matched : bool then
    s <- lift ReError (Re.sub old new field) ;;
    Ok (od_set field s fieldnames)
  else Ok fieldnames.

Definition convert_fieldnames (self : t) (fieldnames : list string)
  : result (odict string) :=
  let fieldnames := od_of_pairs (combine fieldnames fieldnames) in
  for_fold
    (fun fieldnames rule =>
       for_fold (apply_rule (fst rule) (snd rule)) (od_keys fieldnames) fieldnames)
    (replace_names self) fieldnames.

End ThreeSixtyGiving.

(* ================================================================== *)
(** ** Vocabulary of the properties *)

Module Spec.
Import Grant.

(** *** Flattening *)

Definition is_container (x : json) : bool := is_list x || is_dict x.

(** What one [key: value] pair of the loop of [flatten] appends *)
Definition flatten_value (x : json) (key : string) : list (string * json) :=
  if is_container x then flatten x key else [(key, x)].

(** The loop of [flatten] over the items of a mapping *)
Definition flatten_items (items : list (string * json)) (prefix : string)
  : list (string * json) :=
  flat_map (fun kv => flatten_value (snd kv) (new_key prefix (fst kv))) items.

Definition under (k : string) (leaf : list string * json) : list string * json :=
  (k :: fst leaf, snd leaf).

(** The scalar values of a JSON value with the path that leads to each,
    depth first and left to right; an element of a sequence is reached
    through its index written in decimal. *)
Fixpoint leaves (x : json) : list (list string * json) :=
  match x with
  | JList l =>
      (fix go (i : nat) (l : list json) {struct l} :=
         match l with
         | [] => []
         | y :: l' => map (under (str i)) (leaves y) ++ go (S i) l'
         end) 0 l
  | JDict d =>
      (fix go (d : list (string * json)) {struct d} :=
         match d with
         | [] => []
         | (k, y) :: d' => map (under k) (leaves y) ++ go d'
         end) d
  | _ => [([], x)]
  end.

Definition leaves_of_items (items : list (string * json)) : list (list string * json) :=
  flat_map (fun kv => map (under (fst kv)) (leaves (snd kv))) items.

(** The flat key that the code gives to a path below [prefix] *)
Definition flat_key (prefix : string) (path : list string) : string :=
  fold_left new_key path prefix.

(** The flat key by nesting level: the components of the path joined by
    dots, the first one standing alone. *)
Definition dotted (path : list string) : string := String.concat "." path.

(** Flattening with the keys formed by nesting level *)
Definition flatten_by_level (record : odict json) : list (string * json) :=
  map (fun leaf => (dotted (fst leaf), snd leaf)) (leaves (JDict record)).

(** *** Shape of the keys of a record *)

(** [key] is [prefix], or [prefix] followed by a dot and more. *)
Definition extends (prefix key : string) : Prop :=
  exists rest,
    key = (prefix ++ rest)%string /\ (rest = "" \/ exists rest', rest = String "." rest').

Fixpoint dotfree (s : string) : bool :=
  match s with
  | "" => true
  | String a s' => negb (Ascii.eqb a ".") && dotfree s'
  end.

Fixpoint unique (keys : list string) : bool :=
  match keys with
  | [] => true
  | k :: keys' => negb (mem k keys') && unique keys'
  end.

(** [P] holds of the keys of every mapping inside [x]. *)
Fixpoint every_dict (P : list string -> bool) (x : json) : bool :=
  match x with
  | JList l =>
      (fix go (l : list json) {struct l} : bool :=
         match l with
         | [] => true
         | y :: l' => every_dict P y && go l'
         end) l
  | JDict d =>
      P (map fst d) &&
      (fix go (d : list (string * json)) {struct d} : bool :=
         match d with
         | [] => true
         | (_, y) :: d' => every_dict P y && go d'
         end) d
  | _ => true
  end.

(** The keys of every mapping are pairwise different (what a Python dict
    guarantees) and contain no dot. *)
Definition plain_keys (x : json) : bool :=
  every_dict (fun keys => unique keys && forallb dotfree keys) x.

(** No field of the record itself that holds a sequence or a mapping has
    the empty name. *)
Definition named_containers (record : odict json) : bool :=
  forallb (fun kv => negb (is_container (snd kv)) || negb (String.eqb (fst kv) ""))
    record.

(** *** Field names *)

(** The elements of a list in the order of their first occurrence *)
Fixpoint first_seen (l : list string) : list string :=
  match l with
  | [] => []
  | x :: l' => x :: filter (fun y => negb (String.eqb y x)) (first_seen l')
  end.

(** *** Rename rules *)

(** [prefix] and [v] joined by [sep], an empty prefix standing for no
    prefix: the form shared by [new_key], [name_k] and [name_v]. *)
Definition joined (sep prefix v : string) : string :=
  if String.eqb prefix "" then v else prefix ++ sep ++ v.

Definition is_array (prop : ThreeSixtyGiving.schema_prop) : bool :=
  match prop with
  | ThreeSixtyGiving.SchemaProp _ (Some ty) _ => String.eqb ty "array"
  | ThreeSixtyGiving.SchemaProp _ None _ => false
  end.

Definition items_of (prop : ThreeSixtyGiving.schema_prop)
  : ThreeSixtyGiving.properties :=
  match prop with
  | ThreeSixtyGiving.SchemaProp _ _ items_properties => items_properties
  end.

(** The properties that are not arrays, depth first in declared order,
    each with the chain of properties that leads to it from the first
    level: the name and the title (or the name if there is no title) of
    every property of the chain. *)
Fixpoint terminals_prop (i : string) (prop : ThreeSixtyGiving.schema_prop)
  : list (list (string * string)) :=
  match prop with
  | ThreeSixtyGiving.SchemaProp title type_ items_properties =>
      if is_array prop then
        map (cons (i, ThreeSixtyGiving.title_or prop i))
          ((fix go (props : ThreeSixtyGiving.properties) {struct props} :=
              match props with
              | [] => []
              | (j, p) :: props' => terminals_prop j p ++ go props'
              end) items_properties)
      else [[(i, ThreeSixtyGiving.title_or prop i)]]
  end.

Definition terminals (props : ThreeSixtyGiving.properties)
  : list (list (string * string)) :=
  flat_map (fun ip => terminals_prop (fst ip) (snd ip)) props.

(** The rule of a chain as the code builds it below the prefixes
    [prefix_k] and [prefix_v] *)
Definition rule_by_prefix (prefix_k prefix_v : string)
    (chain : list (string * string)) : string * string :=
  (fold_left ThreeSixtyGiving.name_k (map fst chain) prefix_k,
   fold_left ThreeSixtyGiving.name_v (map snd chain) prefix_v).

(** The rule of a chain by nesting level: the names joined by
    [.([0-9]+).] and the titles joined by [:\1:], the first one of each
    standing alone. *)
Definition rule_by_level (chain : list (string * string)) : string * string :=
  (String.concat ".([0-9]+)." (map fst chain),
   String.concat ":\1:" (map snd chain)).

Definition rules_by_level (props : ThreeSixtyGiving.properties) : odict string :=
  od_of_pairs (map rule_by_level (terminals props)).

(** [replace_names[k] = v] for each pair in turn *)
Definition set_all (pairs : list (string * string)) (acc : odict string)
  : odict string :=
  fold_left (fun d kv => od_set (fst kv) (snd kv) d) pairs acc.

(** Every array among the first-level properties has a non-empty name and a
    non-empty title (or name, if it has no title). *)
Definition titled_arrays (props : ThreeSixtyGiving.properties) : bool :=
  forallb (fun ip => negb (is_array (snd ip)) ||
                     (negb (String.eqb (fst ip) "") &&
                      negb (String.eqb (ThreeSixtyGiving.title_or (snd ip) (fst ip)) "")))
    props.

(** *** Regular expressions and field names *)

(** [in_cset c a]: the character [a] belongs to the one-character item
    [c], as the documentation of [re] has it: a literal stands for itself,
    the dot for any character except a newline, and a class for the
    characters of its ranges, bounds included. *)
Inductive in_cset : Re.cset -> ascii -> Prop :=
| in_literal a : in_cset (Re.CLit a) a
| in_dot a : a <> "010"%char -> in_cset Re.CDot a
| in_class ranges lo hi a :
    In (lo, hi) ranges ->
    nat_of_ascii lo <= nat_of_ascii a -> nat_of_ascii a <= nat_of_ascii hi ->
    in_cset (Re.CClass ranges) a.

(** [matches r s]: the whole of [s] belongs to the language of [r]. *)
Inductive matches : Re.regex -> string -> Prop :=
| matches_eps : matches Re.Eps ""
| matches_chr c a :
    in_cset c a -> matches (Re.Chr c) (String a "")
| matches_plus_one c a :
    in_cset c a -> matches (Re.Plus c) (String a "")
| matches_plus_more c a s :
    in_cset c a -> matches (Re.Plus c) s ->
    matches (Re.Plus c) (String a s)
| matches_seq r1 r2 s1 s2 :
    matches r1 s1 -> matches r2 s2 -> matches (Re.Seq r1 r2) (s1 ++ s2)
| matches_group n r s :
    matches r s -> matches (Re.Group n r) s.

Definition is_some {A : Type} (o : option A) : bool :=
  match o with Some _ => true | None => false end.

(** A continuation whose success does not depend on the groups *)
Definition blind {A : Type} (k : string -> Re.captures -> option A) : Prop :=
  forall s caps caps', is_some (k s caps) = is_some (k s caps').

(** The rule is inside the modelled fragment of [re]. *)
Definition rule_supported (rule : string * string) : Prop :=
  exists r ngroups tpl,
    Re.compile (fst rule) = Some (r, ngroups) /\
    Re.parse_template (snd rule) ngroups = Some tpl.

(** Every character is ASCII: a character of the Python string is then
    one byte, which is what the matcher reads. *)
Definition ascii_only (s : string) : bool :=
  forallb (fun a => Nat.ltb (nat_of_ascii a) 128) (list_ascii_of_string s).

(** A rule on which the model of [re] stands for Python's: the pattern is
    ASCII, and pattern and template are inside the modelled fragment. *)
Definition rule_modelled (rule : string * string) : Prop :=
  ascii_only (fst rule) = true /\ rule_supported rule.

(** A non-empty run of decimal digits *)
Definition index_digits (s : string) : Prop :=
  s <> "" /\
  Forall (fun a => 48 <= nat_of_ascii a /\ nat_of_ascii a <= 57)
    (list_ascii_of_string s).

(** The field names that belong to the pattern
    [recipientOrganization.([0-9]+).name] as a whole: the first name, any
    character but a newline, an index, any character but a newline, and the
    last name, with nothing before and nothing after. *)
Definition org_name_key (f : string) : Prop :=
  exists c1 index c2,
    f = ("recipientOrganization" ++ String c1 index ++ String c2 "name")%string /\
    c1 <> "010"%char /\ c2 <> "010"%char /\ index_digits index.

(** The compiled form of [recipientOrganization.([0-9]+).name] *)
Definition org_name_re : Re.regex :=
  fold_right Re.Seq Re.Eps
    (map (fun a => Re.Chr (Re.CLit a))
       (list_ascii_of_string "recipientOrganization")
     ++ [Re.Chr Re.CDot;
         Re.Group 1 (Re.Seq (Re.Plus (Re.CClass [("0"%char, "9"%char)])) Re.Eps);
         Re.Chr Re.CDot]
     ++ map (fun a => Re.Chr (Re.CLit a)) (list_ascii_of_string "name")).

(** The last rule, in derivation order, whose pattern fully matches the
    field name *)
Fixpoint last_match (rules : odict string) (field : string)
  : option (string * string) :=
  match rules with
  | [] => None
  | rule :: rules' =>
      match last_match rules' field with
      | Some found => Some found
      | None =>
          match Re.fullmatch (fst rule) field with
          | Some true => Some rule
          | _ => None
          end
      end
  end.

(** The value of a field after the rule [(old, new)] was tried on it *)
Definition value_after (old new field : string) (before : option string)
  : option string :=
  match Re.fullmatch old field with
  | Some true => Re.sub old new field
  | _ => before
  end.

(** The mapping with layered substitutions: a rule is tested against the
    current mapped value of the field and rewrites that value. *)
Definition layered_rule (old new : string) (fieldnames : odict string)
    (field : string) : result (odict string) :=
  current <- lift KeyError (od_get field fieldnames) ;;
  matched <- lift ReError (Re.fullmatch old current) ;;
  if matched : bool then
    s <- lift ReError (Re.sub old new current) ;;
    Ok (od_set field s fieldnames)
  else Ok fieldnames.

Definition convert_fieldnames_layered (rules : odict string)
    (fieldnames : list string) : result (odict string) :=
  for_fold
    (fun fieldnames rule =>
       for_fold (layered_rule (fst rule) (snd rule)) (od_keys fieldnames) fieldnames)
    rules (od_of_pairs (combine fieldnames fieldnames)).

(** *** Validation *)

(** The schema [{"format": "date-time"}] *)
Definition date_time_schema : json := JDict [("format", JStr "date-time")].

(** An error to suppress: the failing keyword is [oneOf] and the first
    alternative schema is exactly [{"format": "date-time"}]. *)
Definition suppressed (e : ThreeSixtyGiving.ValidationError) : Prop :=
  ThreeSixtyGiving.validator_kw e = "oneOf" /\
  exists others,
    ThreeSixtyGiving.validator_value e = JList (date_time_schema :: others).

(** [surfaces reported kept]: [kept] is [reported] without the errors to
    suppress, in the same order. *)
Inductive surfaces
  : list ThreeSixtyGiving.ValidationError ->
    list ThreeSixtyGiving.ValidationError -> Prop :=
| surfaces_nil : surfaces [] []
| surfaces_skip e reported kept :
    suppressed e -> surfaces reported kept -> surfaces (e :: reported) kept
| surfaces_keep e reported kept :
    ~ suppressed e -> surfaces reported kept ->
    surfaces (e :: reported) (e :: kept).

(** The value of [oneOf] is a non-empty array of schemas, as the Draft 4
    metaschema requires. *)
Definition alternatives_listed (e : ThreeSixtyGiving.ValidationError) : Prop :=
  ThreeSixtyGiving.validator_kw e = "oneOf" ->
  exists first others, ThreeSixtyGiving.validator_value e = JList (first :: others).

End Spec.

(* ================================================================== *)
(** ** Induction principles for the nested types *)

Import Spec.
Import ThreeSixtyGiving.

Section JsonInduction.
Variable P : json -> Prop.
Hypothesis Hnull : P JNull.
Hypothesis Hbool : forall b, P (JBool b).
Hypothesis Hint : forall n, P (JInt n).
Hypothesis Hfloat : forall bits, P (JFloat bits).
Hypothesis Hstr : forall s, P (JStr s).
Hypothesis Hlist : forall l, Forall P l -> P (JList l).
Hypothesis Hdict : forall d, Forall (fun kv => P (snd kv)) d -> P (JDict d).

Fixpoint json_nested_ind (x : json) : P x :=
  match x with
  | JNull => Hnull
  | JBool b => Hbool b
  | JInt n => Hint n
  | JFloat bits => Hfloat bits
  | JStr s => Hstr s
  | JList l =>
      Hlist l
        ((fix go (l : list json) : Forall P l :=
            match l with
            | [] => Forall_nil _
            | y :: l' => Forall_cons y (json_nested_ind y) (go l')
            end) l)
  | JDict d =>
      Hdict d
        ((fix go (d : list (string * json)) : Forall (fun kv => P (snd kv)) d :=
            match d with
            | [] => Forall_nil _
            | kv :: d' => Forall_cons kv (json_nested_ind (snd kv)) (go d')
            end) d)
  end.
End JsonInduction.

Section SchemaInduction.
Variable P : schema_prop -> Prop.
Hypothesis Hprop :
  forall title type_ items,
    Forall (fun ip => P (snd ip)) items -> P (SchemaProp title type_ items).

Fixpoint schema_prop_nested_ind (prop : schema_prop) : P prop :=
  match prop with
  | SchemaProp title type_ items =>
      Hprop title type_ items
        ((fix go (items : properties) : Forall (fun ip => P (snd ip)) items :=
            match items with
            | [] => Forall_nil _
            | ip :: items' =>
                Forall_cons ip (schema_prop_nested_ind (snd ip)) (go items')
            end) items)
  end.
End SchemaInduction.

(* ================================================================== *)
(** ** The rest of the class: [from_url], [guess_encoding], [is_valid],
    [to_json], [to_csv] and [to_excel] *)

(** More methods of [str], on ASCII text *)
Module PyStr.

(** [c.lower()] *)
Definition lower_char (a : ascii) : ascii :=
  if Nat.leb 65 (nat_of_ascii a) && Nat.leb (nat_of_ascii a) 90
  then ascii_of_nat (nat_of_ascii a + 32)
  else a.

Fixpoint lower (s : string) : string :=
  match s with
  | "" => ""
  | String a s' => String (lower_char a) (lower s')
  end.

(** [s.split(sep)[0]]: what comes before the first separator *)
Fixpoint split_first (sep : ascii) (s : string) : string :=
  match s with
  | "" => ""
  | String a s' => if Ascii.eqb a sep then "" else String a (split_first sep s')
  end.

(** [s.split(sep)[-1]]: what comes after the last separator; [cur] is the
    piece being read. *)
Fixpoint split_last_from (sep : ascii) (cur s : string) : string :=
  match s with
  | "" => cur
  | String a s' =>
      if Ascii.eqb a sep then split_last_from sep "" s'
      else split_last_from sep (cur ++ String a "") s'
  end.

Definition split_last (sep : ascii) (s : string) : string :=
  split_last_from sep "" s.

(** [s.lstrip(c)], [s.rstrip(c)] and [s.strip(c)] for one character *)
Fixpoint lstrip (c : ascii) (s : string) : string :=
  match s with
  | "" => ""
  | String a s' => if Ascii.eqb a c then lstrip c s' else s
  end.

Fixpoint rstrip (c : ascii) (s : string) : string :=
  match s with
  | "" => ""
  | String a s' =>
      match rstrip c s' with
      | "" => if Ascii.eqb a c then "" else String a ""
      | r => String a r
      end
  end.

Definition strip (c : ascii) (s : string) : string := rstrip c (lstrip c s).

End PyStr.

(** [re.search], on the fragment of [Re] *)
Module ReSearch.

(** The first position at which the pattern matches: the matched text
    (group 0) and the groups *)
Fixpoint search_re (r : Re.regex) (s : string) : option (string * Re.captures) :=
  match Re.match_re r s with
  | Some (len, caps) => Some (substring 0 len s, caps)
  | None =>
      match s with
      | "" => None
      | String _ s' => search_re r s'
      end
  end.

(** [re.search(pattern, s)]: [None] outside the fragment, [Some None] when
    nothing matches, else the match *)
Definition search (pattern s : string) : option (option (string * Re.captures)) :=
  match Re.compile pattern with
  | Some (r, _) => Some (search_re r s)
  | None => None
  end.

End ReSearch.

(** [csv.DictWriter] up to the formatting of a row: the values handed to
    the underlying writer *)
Module Csv.

(** [DictWriter._dict_to_list] with [extrasaction='raise']: the values of
    the row in the order of the field names, [restval] where the row has
    none; a key that is not a field name is an error. *)
Definition dict_to_list (fieldnames : list string) (restval : json)
    (rowdict : odict json) : result (list json) :=
  if forallb (fun k => mem k fieldnames) (od_keys rowdict) then
    Ok (map (fun key => match od_get key rowdict with
                        | Some v => v
                        | None => restval
                        end) fieldnames)
  else Raise (ValueError "dict contains fields not in fieldnames").

(** [DictWriter(f, fieldnames).writerow(rowdict)]; [restval] is [''] *)
Definition writerow (fieldnames : list string) (rowdict : odict json)
  : result (list json) :=
  dict_to_list fieldnames (JStr "") rowdict.

(** [DictWriter.writeheader] *)
Definition writeheader (fieldnames : list string) : result (list json) :=
  writerow fieldnames (od_of_pairs (combine fieldnames (map JStr fieldnames))).

End Csv.

Module Output.
Import ThreeSixtyGiving.

(** *** from_url *)

(** The response of [requests.get]: the headers, whose names are compared
    without regard to case and are kept here in lower case, and the body *)
Record response : Type := mkResponse {
  headers : odict string;
  content : string
}.

(** The network and the temporary directory *)
Record web : Type := mkWeb {
  (** [requests.get(url, headers=...)] and [raise_for_status]; [None] when
      one of them raises *)
  get : string -> option response;
  (** [tempfile.mkstemp(suffix=...)], [os.write] and [os.close]: the path of
      the file that holds the content; [None] when one of them raises, as
      [mkstemp] does for a suffix that holds a path separator or a NUL *)
  mkstemp : string -> string -> option string
}.

Definition CONTENT_TYPE_MAP : odict string :=
  [("application/json", "json");
   ("application/vnd.openxmlformats-officedocument.spreadsheetml.sheet", "xlsx");
   ("text/csv", "csv")].

(** [CONTENT_TYPE_MAP.values()] *)
Definition known_filetypes : list string := map snd CONTENT_TYPE_MAP.

(** ["Unrecognised file type [{}]".format(filetype)] *)
Definition unrecognised (filetype : option string) : exn :=
  ValueError ("Unrecognised file type ["
              ++ match filetype with Some ft => ft | None => "None" end
              ++ "]").

(** [r.headers.get('content-type', '').split(';')[0].lower()] *)
Definition content_type (r : response) : string :=
  PyStr.lower
    (PyStr.split_first ";"
       (match od_get "content-type" (headers r) with
        | Some v => v
        | None => ""
        end)).

(** The block of [from_url] that works out the filetype when none is
    given.  After a search that finds no file name the filetype is [None],
    which is not a known filetype. *)
Definition guess_filetype (r : response) (url : string) : result string :=
  let content_type := content_type r in
  filetype <-
    (if negb (String.eqb content_type "") && od_mem content_type CONTENT_TYPE_MAP
     then
       match od_get content_type CONTENT_TYPE_MAP with
       | Some ft => Ok (Some ft)
       | None => Raise KeyError
       end
     else
       match od_get "content-disposition" (headers r) with
       | Some d =>
           found <- lift ReError (ReSearch.search "filename=(.+)" d) ;;
           match found with
           | Some (whole, _) =>
               Ok (Some (PyStr.strip "034" (PyStr.split_last "." whole)))
           | None => Ok None
           end
       | None => Ok (Some (PyStr.split_last "." url))
       end) ;;
  match filetype with
  | Some ft => if mem ft known_filetypes then Ok ft else Raise (unrecognised filetype)
  | None => Raise (unrecognised None)
  end.

(** [from_url(url, filetype, **kwargs)]; a filetype that is [None] or
    empty is worked out from the response. *)
Definition from_url (w : world) (net : web) (url : string)
    (filetype : option string) (schema_url : option string) : result (option t) :=
  r <- lift ExternalError (get net url) ;;
  ft <- match filetype with
        | Some ft => if String.eqb ft "" then guess_filetype r url else Ok ft
        | None => guess_filetype r url
        end ;;
  path <- lift ExternalError (mkstemp net ("." ++ ft) (content r)) ;;
  from_file w path ft schema_url.

(** *** guess_encoding *)

Definition ENCODINGS_TO_CHECK : list string := ["utf-8-sig"; "cp1252"; "latin_1"].

(** What [open(f, encoding=e)] followed by [read()] does *)
Inductive read_outcome : Type :=
| Decoded
| UnicodeDecodeError
| OtherError.

(** [guess_encoding(f, encodings)]; [read e] stands for reading [f] with
    the encoding [e]. *)
Fixpoint guess_encoding (read : string -> read_outcome) (encodings : list string)
  : result (option string) :=
  match encodings with
  | [] => Ok None
  | e :: encodings' =>
      match read e with
      | Decoded => Ok (Some e)
      | UnicodeDecodeError => guess_encoding read encodings'
      | OtherError => Raise ExternalError
      end
  end.

(** *** is_valid and to_json *)

(** [is_valid]: the lines printed and the value returned *)
Definition is_valid (self : t) : list string * bool :=
  (if valid self then [] else map message (errors self), valid self).

(** [to_json]: the value handed to [json.dump] *)
Definition to_json (self : t) : json := data self.

(** What the loaders establish: the object is marked valid, has no
    errors, and its data passes its own validator *)
Definition validated (c : t) : Prop :=
  valid c = true /\ errors c = [] /\ get_errors c (data c) = Ok [] /\
  is_valid c = ([], true).

(** *** to_csv *)

(** The header row of [to_csv] and [to_excel]: the display names, or the
    field names themselves *)
Definition display_names (names : odict string) : odict json :=
  map (fun kv => (fst kv, JStr (snd kv))) names.

(** [to_csv(f, convert_fieldnames)]: the rows handed to the csv writer,
    header first.  A row that raises leaves the rows before it written. *)
Definition to_csv (self : t) (convert : bool) : result (list (list json)) :=
  flat <- to_flatfile self ;;
  header <-
    (if convert then
       names <- convert_fieldnames self (snd flat) ;;
       Csv.writerow (snd flat) (display_names names)
     else Csv.writeheader (snd flat)) ;;
  rows <- for_each (Csv.writerow (snd flat)) (fst flat) ;;
  Ok (header :: rows).

(** *** to_excel *)

(** [xlsxwriter], as [to_excel] uses it.  Creating and closing the workbook
    are left out. *)
Record xlsx : Type := mkXlsx {
  (** whether [import xlsxwriter] succeeds *)
  installed : bool;
  (** what [worksheet.write_row(row, 0, cells)] raises, if anything: a
      TypeError for a NaN or an infinity, for instance *)
  write_row : nat -> list json -> option exn
}.

(** What [to_excel] does: it returns after the calls [rows] of
    [write_row], or it raises. *)
Inductive excel_result : Type :=
| Written (rows : list (nat * list json))
| Raised (e : exn)
| NotImplementedError (msg : string).

(** The loop over [enumerate(data)], with
    [worksheet.write_row(row + 1, 0, [r.get(f) for f in fieldnames])];
    [r.get(f)] is [None] where the row has no value. *)
Fixpoint write_rows (x : xlsx) (row : nat) (fieldnames : list string)
    (data : list (odict json)) : result (list (nat * list json)) :=
  match data with
  | [] => Ok []
  | r :: data' =>
      let cells :=
        map (fun f => match od_get f r with Some v => v | None => JNull end)
          fieldnames in
      match write_row x (row + 1) cells with
      | Some e => Raise e
      | None =>
          rest <- write_rows x (S row) fieldnames data' ;;
          Ok ((row + 1, cells) :: rest)
      end
  end.

(** [to_excel(f, multiple_sheets, convert_fieldnames)] *)
Definition to_excel (x : xlsx) (self : t) (multiple_sheets convert : bool)
  : excel_result :=
  if negb (installed x) then Raised ExternalError
  else if multiple_sheets
  then NotImplementedError "Not yet able to do multiple sheets"
  else
    match to_flatfile self with
    | Raise e => Raised e
    | Ok flat =>
        let header :=
          if convert then
            names <- convert_fieldnames self (snd flat) ;;
            Ok (map (fun kv => JStr (snd kv)) names)
          else Ok (map JStr (snd flat)) in
        match header with
        | Raise e => Raised e
        | Ok cells =>
            match write_row x 0 cells with
            | Some e => Raised e
            | None =>
                match write_rows x 0 (snd flat) (fst flat) with
                | Ok rows => Written ((0, cells) :: rows)
                | Raise e => Raised e
                end
            end
        end
    end.

End Output.

(** *** Vocabulary for the records of a document *)

Module Records.

(** What [Grant] cannot be built from: a value that is not a mapping, or a
    mapping with a field named [self] *)
Definition not_a_record (g : json) : bool :=
  match g with
  | JDict fields => od_mem "self" fields
  | _ => true
  end.

(** No grant that [__iter__] yields has a field named [to_flat].  Such a
    field is found on the object before the method of that name, and the
    call [g.to_flat()] of [to_flatfile] then raises TypeError, a JSON value
    not being callable. *)
Definition methods_visible (self : ThreeSixtyGiving.t) : bool :=
  match ThreeSixtyGiving.iter self with
  | Ok gs => forallb (fun g => negb (od_mem "to_flat" g)) gs
  | Raise _ => true
  end.

(** The values of a flat row in the order of the field names, [restval]
    where the row has none *)
Definition cells (fieldnames : list string) (restval : json) (row : odict json)
  : list json :=
  map (fun f => match od_get f row with Some v => v | None => restval end)
    fieldnames.

End Records.

(** *** Vocabulary for header values *)

Module Headers.

(** No occurrence of the character [c] *)
Fixpoint free_of (c : ascii) (s : string) : bool :=
  match s with
  | "" => true
  | String a s' => negb (Ascii.eqb a c) && free_of c s'
  end.

(** The compiled form of the pattern [filename=(.+)] *)
Definition filename_re : Re.regex :=
  fold_right Re.Seq Re.Eps
    (map (fun a => Re.Chr (Re.CLit a)) (list_ascii_of_string "filename=")
     ++ [Re.Group 1 (Re.Seq (Re.Plus Re.CDot) Re.Eps)]).

End Headers.

(** *** Vocabulary for the rename rules of nested arrays *)

Module Chains.

(** A character that stands for itself in a pattern, or is the wildcard *)
Definition plain_char (a : ascii) : bool :=
  negb (Ascii.eqb a "(" || Ascii.eqb a ")" || Ascii.eqb a "+" || Ascii.eqb a "["
        || Re.unsupported a).

Definition plain (s : string) : bool :=
  forallb plain_char (list_ascii_of_string s).

(** No backslash *)
Definition bsfree (s : string) : bool :=
  forallb (fun a => negb (Ascii.eqb a "\")) (list_ascii_of_string s).

(** The names of a chain are plain and its titles have no backslash. *)
Definition plain_chain (chain : list (string * string)) : bool :=
  forallb (fun nt => plain (fst nt) && bsfree (snd nt)) chain.

Definition plain_schema (props : ThreeSixtyGiving.properties) : bool :=
  forallb plain_chain (terminals props).

(** One deeper level of a chain: the index of the element, the name and the
    title (or name) of the property *)
Definition level : Type := nat * (string * string).

(** The path of a value below nested arrays: the first name, then an
    index and a name for each level *)
Definition indexed_path (first : string) (levels : list level) : list string :=
  first :: flat_map (fun l => [str (fst l); fst (snd l)]) levels.

(** The display name that the code gives: the titles joined by the index
    between colons *)
Definition display (index : nat) (titles : list string) : string :=
  String.concat (":" ++ str index ++ ":") titles.

(** The compiled form of a name: one item per character *)
Definition item_of (a : ascii) : Re.regex :=
  if Ascii.eqb a "." then Re.Chr Re.CDot else Re.Chr (Re.CLit a).

Definition lits (s : string) : list Re.regex :=
  map item_of (list_ascii_of_string s).

(** The class [[0-9]] *)
Definition digit : Re.cset := Re.CClass [("0"%char, "9"%char)].

(** The compiled form of [([0-9]+)] as group [g] *)
Definition index_group (g : nat) : Re.regex :=
  Re.Group g (Re.Seq (Re.Plus digit) Re.Eps).

(** The compiled form of [.([0-9]+).name] for each name, the groups
    numbered from [ng + 1] *)
Fixpoint tail_items (ng : nat) (names : list string) : list Re.regex :=
  match names with
  | [] => []
  | n :: names' =>
      [Re.Chr Re.CDot; index_group (S ng); Re.Chr Re.CDot]
        ++ lits n ++ tail_items (S ng) names'
  end.

(** A sequence of items, nested to the right *)
Definition seqr (items : list Re.regex) : Re.regex :=
  fold_right Re.Seq Re.Eps items.

(** The groups after the indices were matched, the groups numbered from
    [ng + 1] *)
Fixpoint caps_of (ng : nat) (indices : list nat) (caps : Re.captures)
  : Re.captures :=
  match indices with
  | [] => caps
  | i :: indices' => caps_of (S ng) indices' ((S ng, str i) :: caps)
  end.

(** [sep ++ x] for each [x], concatenated *)
Definition tail_string (sep : string) (l : list string) : string :=
  fold_right (fun x acc => sep ++ x ++ acc)%string "" l.

(** The compiled form of a template: the first title, then [:\1:] and a
    title for each level *)
Definition template_of (first : string) (titles : list string) : list Re.piece :=
  map Re.Lit (list_ascii_of_string first) ++
  flat_map (fun t => [Re.Lit ":"; Re.Ref 1; Re.Lit ":"]
                       ++ map Re.Lit (list_ascii_of_string t)) titles.

End Chains.

(* ================================================================== *)
(** ** Properties of [Grant.to_flat] *)


(** *** Strings *)

Lemma append_nil_r (s : string) : (s ++ "")%string = s.
Proof. induction s; simpl; congruence. Qed.

Lemma append_assoc (a b c : string) :
  ((a ++ b) ++ c)%string = (a ++ (b ++ c))%string.
Proof. induction a; simpl; congruence. Qed.

Lemma append_inv_head (a b c : string) :
  (a ++ b)%string = (a ++ c)%string -> b = c.
Proof. induction a; simpl; intros H; [exact H | injection H; auto]. Qed.

Lemma append_eq_nil (a b : string) : (a ++ b)%string = "" -> a = "" /\ b = "".
Proof. destruct a; simpl; intros H; [auto | discriminate]. Qed.

Lemma new_key_top (v : string) : Grant.new_key "" v = v.
Proof. reflexivity. Qed.

Lemma new_key_nested (prefix v : string) :
  prefix <> "" -> Grant.new_key prefix v = (prefix ++ "." ++ v)%string.
Proof.
  intros H. unfold Grant.new_key.
  destruct (String.eqb_spec prefix ""); [contradiction | reflexivity].
Qed.

(** *** The loops of [flatten] *)

Lemma flatten_value_eq (x : json) (key : string) :
  flatten_value x key =
  match x with
  | JList _ => Grant.flatten x key
  | JDict _ => Grant.flatten x key
  | _ => [(key, x)]
  end.
Proof. destruct x; reflexivity. Qed.

Lemma flatten_dict (d : list (string * json)) (prefix : string) :
  Grant.flatten (JDict d) prefix = flatten_items d prefix.
Proof.
  unfold flatten_items. simpl.
  induction d as [|[v x] d IH]; [reflexivity|].
  simpl. rewrite IH, flatten_value_eq. reflexivity.
Qed.

Lemma flatten_list (l : list json) (prefix : string) :
  Grant.flatten (JList l) prefix = flatten_items (enumerate_from 0 l) prefix.
Proof.
  unfold flatten_items. simpl. generalize 0.
  induction l as [|x l IH]; intros i; [reflexivity|].
  simpl. rewrite IH, flatten_value_eq. reflexivity.
Qed.

Lemma leaves_dict (d : list (string * json)) :
  leaves (JDict d) = leaves_of_items d.
Proof.
  unfold leaves_of_items. simpl.
  induction d as [|[k y] d IH]; [reflexivity|].
  simpl. rewrite IH. reflexivity.
Qed.

Lemma leaves_list (l : list json) :
  leaves (JList l) = leaves_of_items (enumerate_from 0 l).
Proof.
  unfold leaves_of_items. simpl. generalize 0.
  induction l as [|y l IH]; intros i; [reflexivity|].
  simpl. rewrite IH. reflexivity.
Qed.

Lemma Forall_enumerate (P : json -> Prop) (l : list json) (i : nat) :
  Forall P l -> Forall (fun kv => P (snd kv)) (enumerate_from i l).
Proof.
  intros H. revert i. induction H; intros i; simpl; constructor; auto.
Qed.

(** [flatten] pairs every leaf with the key that folding [new_key] along
    its path gives. *)
Lemma flatten_value_leaves (x : json) :
  forall key,
    flatten_value x key =
    map (fun leaf => (flat_key key (fst leaf), snd leaf)) (leaves x).
Proof.
  assert (Hitems : forall items,
             Forall (fun kv => forall key,
                         flatten_value (snd kv) key =
                         map (fun leaf => (flat_key key (fst leaf), snd leaf))
                           (leaves (snd kv))) items ->
             forall prefix,
               flatten_items items prefix =
               map (fun leaf => (flat_key prefix (fst leaf), snd leaf))
                 (leaves_of_items items)).
  { intros items H prefix. unfold flatten_items, leaves_of_items.
    induction H as [|[k y] items Hy _ IH]; [reflexivity|].
    simpl. rewrite map_app, IH, Hy, map_map. reflexivity. }
  induction x using json_nested_ind; intros key; try reflexivity.
  - unfold flatten_value. simpl is_container. cbv iota.
    rewrite flatten_list, leaves_list. apply Hitems.
    exact (Forall_enumerate _ l 0 H).
  - unfold flatten_value. simpl is_container. cbv iota.
    rewrite flatten_dict, leaves_dict. apply Hitems, H.
Qed.

(** *** Indices written in decimal *)

Lemma str_inj (i j : nat) : str i = str j -> i = j.
Proof.
  unfold str. intros H. apply DecimalNat.Unsigned.to_uint_inj.
  assert (Hs : Some (Nat.to_uint i) = Some (Nat.to_uint j)).
  { rewrite <- (NilEmpty.usu (Nat.to_uint i)), <- (NilEmpty.usu (Nat.to_uint j)).
    now rewrite H. }
  now injection Hs.
Qed.

Lemma string_of_uint_dotfree (d : Decimal.uint) :
  dotfree (NilEmpty.string_of_uint d) = true.
Proof. induction d; simpl; auto. Qed.

Lemma str_dotfree (i : nat) : dotfree (str i) = true.
Proof. apply string_of_uint_dotfree. Qed.

Example str_decimal : str 0 = "0" /\ str 7 = "7" /\ str 10 = "10" /\ str 123 = "123".
Proof. repeat split; reflexivity. Qed.

Lemma enumerate_keys {A : Type} (l : list A) (i : nat) :
  map fst (enumerate_from i l) = map str (seq i (List.length l)).
Proof.
  revert i. induction l as [|x l IH]; intros i; simpl; [reflexivity|].
  now rewrite IH.
Qed.

Lemma enumerate_keys_NoDup {A : Type} (l : list A) (i : nat) :
  NoDup (map fst (enumerate_from i l)).
Proof.
  rewrite enumerate_keys. generalize (seq_NoDup (List.length l) i).
  generalize (seq i (List.length l)). intros js Hjs.
  induction Hjs as [|j js Hj _ IH]; simpl; constructor; [|assumption].
  intros Hin. apply in_map_iff in Hin. destruct Hin as [j' [Heq Hj']].
  apply str_inj in Heq. now subst.
Qed.

Lemma enumerate_keys_dotfree {A : Type} (l : list A) (i : nat) :
  Forall (fun k => dotfree k = true) (map fst (enumerate_from i l)).
Proof.
  rewrite enumerate_keys. apply Forall_forall. intros k Hk.
  apply in_map_iff in Hk. destruct Hk as [j [<- _]]. apply str_dotfree.
Qed.

(** *** Boolean predicates as propositions *)

Lemma mem_In (x : string) (l : list string) : mem x l = true <-> In x l.
Proof.
  unfold mem. rewrite existsb_exists. split.
  - intros [y [Hy Heq]]. apply String.eqb_eq in Heq. now subst.
  - intros H. exists x. split; [assumption | apply String.eqb_refl].
Qed.

Lemma mem_false (x : string) (l : list string) : mem x l = false <-> ~ In x l.
Proof.
  rewrite <- mem_In. destruct (mem x l); split; intros H; congruence.
Qed.

Lemma unique_NoDup (keys : list string) : unique keys = true <-> NoDup keys.
Proof.
  induction keys as [|k keys IH]; simpl.
  - split; [constructor | reflexivity].
  - rewrite andb_true_iff, negb_true_iff, mem_false, IH. split.
    + intros [H1 H2]. now constructor.
    + intros H. inversion H. now split.
Qed.

Lemma every_dict_list (P : list string -> bool) (l : list json) :
  every_dict P (JList l) = forallb (every_dict P) l.
Proof. simpl. induction l as [|y l IH]; simpl; [reflexivity | now rewrite IH]. Qed.

Lemma every_dict_dict (P : list string -> bool) (d : list (string * json)) :
  every_dict P (JDict d) =
  P (map fst d) && forallb (fun kv => every_dict P (snd kv)) d.
Proof.
  simpl. f_equal.
  induction d as [|[k y] d IH]; simpl; [reflexivity | now rewrite IH].
Qed.

(** *** Keys that extend different names are different *)

Lemma dotfree_cancel (a b r1 r2 : string) :
  dotfree a = true -> dotfree b = true ->
  (r1 = "" \/ exists r, r1 = String "." r) ->
  (r2 = "" \/ exists r, r2 = String "." r) ->
  (a ++ r1)%string = (b ++ r2)%string -> a = b.
Proof.
  revert b. induction a as [|c a IH]; intros [|c' b] Ha Hb H1 H2 Heq; simpl in *.
  - reflexivity.
  - apply andb_true_iff in Hb. destruct Hb as [Hc _].
    destruct H1 as [-> | [r ->]]; [discriminate|].
    injection Heq as Hcc _. subst c'. simpl in Hc. discriminate.
  - apply andb_true_iff in Ha. destruct Ha as [Hc _].
    destruct H2 as [-> | [r ->]]; [discriminate|].
    injection Heq as Hcc _. subst c. simpl in Hc. discriminate.
  - apply andb_true_iff in Ha, Hb. destruct Ha as [_ Ha], Hb as [_ Hb].
    injection Heq as Hcc Heq. subst c'. f_equal. eapply IH; eauto.
Qed.

Lemma extends_refl (key : string) : extends key key.
Proof. exists "". split; [now rewrite append_nil_r | now left]. Qed.

Lemma extends_new_key (prefix v key : string) :
  prefix <> "" -> extends (Grant.new_key prefix v) key -> extends prefix key.
Proof.
  intros Hp [rest [-> _]]. rewrite (new_key_nested _ _ Hp).
  exists ("." ++ v ++ rest)%string. split.
  - now rewrite !append_assoc.
  - right. eexists. reflexivity.
Qed.

(** Two keys that extend the names of two fields of one mapping are equal
    only if the names are. *)
Lemma extends_same_field (prefix v1 v2 key : string) :
  dotfree v1 = true -> dotfree v2 = true ->
  extends (Grant.new_key prefix v1) key ->
  extends (Grant.new_key prefix v2) key -> v1 = v2.
Proof.
  intros H1 H2 [r1 [-> T1]] [r2 [Heq T2]]. unfold Grant.new_key in Heq.
  destruct (String.eqb prefix "").
  - exact (dotfree_cancel v1 v2 r1 r2 H1 H2 T1 T2 Heq).
  - rewrite !append_assoc in Heq. apply append_inv_head in Heq.
    simpl in Heq. injection Heq as Heq.
    exact (dotfree_cancel v1 v2 r1 r2 H1 H2 T1 T2 Heq).
Qed.

(** *** Ordered dictionaries *)

Lemma od_set_fresh {V : Type} (k : string) (v : V) (d : odict V) :
  ~ In k (map fst d) -> od_set k v d = d ++ [(k, v)].
Proof.
  induction d as [|[k' v'] d IH]; simpl; intros H; [reflexivity|].
  destruct (String.eqb_spec k k') as [->|_].
  - exfalso. apply H. now left.
  - rewrite IH; [reflexivity | tauto].
Qed.

Lemma od_fold_fresh {V : Type} (pairs acc : list (string * V)) :
  NoDup (map fst (acc ++ pairs)) ->
  fold_left (fun d kv => od_set (fst kv) (snd kv) d) pairs acc = acc ++ pairs.
Proof.
  revert acc. induction pairs as [|[k v] pairs IH]; intros acc H; simpl.
  - now rewrite List.app_nil_r.
  - assert (Hacc : acc ++ (k, v) :: pairs = (acc ++ [(k, v)]) ++ pairs)
      by now rewrite <- List.app_assoc.
    rewrite od_set_fresh.
    + rewrite IH; [now rewrite <- List.app_assoc | now rewrite <- Hacc].
    + rewrite map_app in H. simpl in H. apply NoDup_remove_2 in H.
      intros Hin. apply H. apply in_or_app. now left.
Qed.

(** A list of pairs with pairwise different keys is its own dictionary. *)
Lemma od_of_pairs_NoDup {V : Type} (pairs : list (string * V)) :
  NoDup (map fst pairs) -> od_of_pairs pairs = pairs.
Proof. intros H. unfold od_of_pairs. now rewrite od_fold_fresh. Qed.

(** *** The keys that [flatten] produces *)

Lemma in_flatten_items (items : list (string * json)) (prefix k : string) :
  In k (map fst (flatten_items items prefix)) <->
  exists kv, In kv items /\
             In k (map fst (flatten_value (snd kv) (Grant.new_key prefix (fst kv)))).
Proof.
  unfold flatten_items. rewrite in_map_iff. split.
  - intros [[k' x] [<- Hin]]. apply in_flat_map in Hin.
    destruct Hin as [kv [Hkv Hin]]. exists kv. split; [assumption|].
    apply in_map_iff. now exists (k', x).
  - intros [kv [Hkv Hin]]. apply in_map_iff in Hin.
    destruct Hin as [[k' x] [<- Hin]]. exists (k', x). split; [reflexivity|].
    apply in_flat_map. now exists kv.
Qed.

Lemma new_key_nonempty (prefix v : string) :
  prefix <> "" -> Grant.new_key prefix v <> "".
Proof.
  intros Hp. rewrite (new_key_nested _ _ Hp). intros H.
  apply append_eq_nil in H. tauto.
Qed.

(** Every key produced below [key] extends [key]. *)
Lemma flatten_value_extends (x : json) :
  forall key k,
    (is_container x = true -> key <> "") ->
    In k (map fst (flatten_value x key)) -> extends key k.
Proof.
  assert (Hitems : forall items,
             Forall (fun kv => forall key k,
                         (is_container (snd kv) = true -> key <> "") ->
                         In k (map fst (flatten_value (snd kv) key)) ->
                         extends key k) items ->
             forall prefix k, prefix <> "" ->
               In k (map fst (flatten_items items prefix)) -> extends prefix k).
  { intros items H prefix k Hp Hin. apply in_flatten_items in Hin.
    destruct Hin as [kv [Hkv Hin]]. rewrite Forall_forall in H.
    apply (extends_new_key prefix (fst kv)); [assumption|].
    apply (H kv Hkv); [|assumption]. intros _. now apply new_key_nonempty. }
  induction x using json_nested_ind; intros key k Hkey Hin;
    try (simpl in Hin; destruct Hin as [<- | []]; apply extends_refl).
  - unfold flatten_value in Hin. simpl is_container in Hin. cbv iota in Hin.
    rewrite flatten_list in Hin.
    apply (Hitems (enumerate_from 0 l)); auto.
    exact (Forall_enumerate _ l 0 H).
  - unfold flatten_value in Hin. simpl is_container in Hin. cbv iota in Hin.
    rewrite flatten_dict in Hin. apply (Hitems d); auto.
Qed.

(** The fields of one mapping produce pairwise different keys when each
    field does and the names are different and free of dots. *)
Lemma flatten_items_NoDup (items : list (string * json)) (prefix : string) :
  NoDup (map fst items) ->
  Forall (fun k => dotfree k = true) (map fst items) ->
  Forall (fun kv => is_container (snd kv) = true ->
                    Grant.new_key prefix (fst kv) <> "") items ->
  Forall (fun kv => NoDup (map fst (flatten_value (snd kv)
                                      (Grant.new_key prefix (fst kv))))) items ->
  NoDup (map fst (flatten_items items prefix)).
Proof.
  induction items as [|[v x] items IH]; intros Hnd Hdot Hne Hsub; simpl.
  - constructor.
  - inversion Hnd as [|? ? Hv Hnd']; subst.
    inversion Hdot as [|? ? Hdv Hdot']; subst.
    inversion Hne as [|? ? Hnv Hne']; subst.
    inversion Hsub as [|? ? Hsv Hsub']; subst.
    rewrite map_app. apply NoDup_app; [assumption | now apply IH |].
    intros k Hk1 Hk2. simpl in *.
    apply flatten_value_extends in Hk1; [|assumption].
    apply in_flatten_items in Hk2. destruct Hk2 as [[v' x'] [Hkv Hk2]].
    simpl in Hk2. apply flatten_value_extends in Hk2.
    + assert (v = v').
      { apply (extends_same_field prefix v v' k); try assumption.
        rewrite Forall_forall in Hdot'. apply Hdot'.
        apply in_map_iff. now exists (v', x'). }
      subst v'. apply Hv. apply in_map_iff. now exists (v, x').
    + rewrite Forall_forall in Hne'. apply (Hne' (v', x') Hkv).
Qed.

Lemma flatten_value_NoDup (x : json) :
  plain_keys x = true ->
  forall key, (is_container x = true -> key <> "") ->
              NoDup (map fst (flatten_value x key)).
Proof.
  assert (Hitems : forall items,
             Forall (fun kv => plain_keys (snd kv) = true ->
                         forall key, (is_container (snd kv) = true -> key <> "") ->
                                     NoDup (map fst (flatten_value (snd kv) key)))
               items ->
             forallb (fun kv => plain_keys (snd kv)) items = true ->
             NoDup (map fst items) ->
             Forall (fun k => dotfree k = true) (map fst items) ->
             forall prefix, prefix <> "" ->
                            NoDup (map fst (flatten_items items prefix))).
  { intros items H Hplain Hnd Hdot prefix Hp.
    apply flatten_items_NoDup; try assumption.
    - apply Forall_forall. intros kv _ _. now apply new_key_nonempty.
    - rewrite Forall_forall in *. rewrite forallb_forall in Hplain.
      intros kv Hkv. apply (H kv Hkv (Hplain kv Hkv)).
      intros _. now apply new_key_nonempty. }
  induction x using json_nested_ind; intros Hplain key Hkey;
    try (simpl; constructor; [intros [] | constructor]).
  - unfold flatten_value. simpl is_container. cbv iota. rewrite flatten_list.
    unfold plain_keys in Hplain. rewrite every_dict_list in Hplain.
    apply Hitems; auto.
    + exact (Forall_enumerate _ l 0 H).
    + clear - Hplain. generalize 0. induction l as [|y l IH]; intros i; simpl in *.
      * reflexivity.
      * apply andb_true_iff in Hplain. destruct Hplain as [Hy Hl].
        unfold plain_keys at 1. rewrite Hy. simpl. now apply IH.
    + apply enumerate_keys_NoDup.
    + apply enumerate_keys_dotfree.
  - unfold flatten_value. simpl is_container. cbv iota. rewrite flatten_dict.
    unfold plain_keys in Hplain. rewrite every_dict_dict in Hplain.
    apply andb_true_iff in Hplain. destruct Hplain as [Hkeys Hsub].
    apply andb_true_iff in Hkeys. destruct Hkeys as [Hu Hd].
    apply Hitems; auto.
    + now apply unique_NoDup.
    + apply Forall_forall. rewrite forallb_forall in Hd. exact Hd.
Qed.

(** *** Leaves *)

Lemma leaves_scalar (x : json) :
  is_container x = false -> leaves x = [([], x)].
Proof. destruct x; simpl; intros H; try reflexivity; discriminate. Qed.

Lemma in_leaves_of_items (items : list (string * json)) (leaf : list string * json) :
  In leaf (leaves_of_items items) <->
  exists kv leaf', In kv items /\ In leaf' (leaves (snd kv)) /\
                   leaf = under (fst kv) leaf'.
Proof.
  unfold leaves_of_items. rewrite in_flat_map. split.
  - intros [kv [Hkv Hin]]. apply in_map_iff in Hin.
    destruct Hin as [leaf' [<- Hin]]. now exists kv, leaf'.
  - intros [kv [leaf' [Hkv [Hin ->]]]]. exists kv. split; [assumption|].
    now apply in_map.
Qed.

(** Every leaf is a scalar. *)
Lemma leaves_scalars (x : json) :
  Forall (fun leaf => is_container (snd leaf) = false) (leaves x).
Proof.
  assert (Hitems : forall items,
             Forall (fun kv => Forall (fun leaf => is_container (snd leaf) = false)
                                 (leaves (snd kv))) items ->
             Forall (fun leaf => is_container (snd leaf) = false)
               (leaves_of_items items)).
  { intros items H. apply Forall_forall. intros leaf Hin.
    apply in_leaves_of_items in Hin. destruct Hin as [kv [leaf' [Hkv [Hin ->]]]].
    rewrite Forall_forall in H. specialize (H kv Hkv).
    rewrite Forall_forall in H. exact (H leaf' Hin). }
  induction x using json_nested_ind; try (repeat constructor).
  - rewrite leaves_list. apply Hitems. exact (Forall_enumerate _ l 0 H).
  - rewrite leaves_dict. now apply Hitems.
Qed.

(** Folding a join with a non-empty start is joining by the separator. *)
Lemma fold_joined (sep : string) (rest : list string) (prefix : string) :
  prefix <> "" ->
  fold_left (joined sep) rest prefix = String.concat sep (prefix :: rest).
Proof.
  revert prefix. induction rest as [|k rest IH]; intros prefix Hp.
  - reflexivity.
  - assert (Hj : joined sep prefix k = (prefix ++ sep ++ k)%string).
    { unfold joined. destruct (String.eqb_spec prefix ""); [contradiction|].
      reflexivity. }
    simpl fold_left. rewrite IH.
    + rewrite Hj. simpl. destruct rest as [|k' rest]; [reflexivity|].
      now rewrite !append_assoc.
    + rewrite Hj. intros H. apply append_eq_nil in H. tauto.
Qed.

(** Below a non-empty prefix the code's key is the dotted path. *)
Lemma flat_key_dotted (path : list string) (prefix : string) :
  prefix <> "" -> flat_key prefix path = dotted (prefix :: path).
Proof. exact (fold_joined "." path prefix). Qed.

(** *** C6 *)

(** C6 (as stated): the flat key of a pair below the top level is
    prefix + "." + key.  It is not when the prefix is the empty string
    below the top level: under a top-level field named by the empty string
    the code produces the bare key [a], the rule by nesting level [.a]. *)
Lemma flatten_empty_name_not_by_level :
  Grant.flatten (JDict [("", JDict [("a", JInt 1)])]) "" = [("a", JInt 1)] /\
  flatten_by_level [("", JDict [("a", JInt 1)])] = [(".a", JInt 1)] /\
  Grant.flatten (JDict [("", JDict [("a", JInt 1)])]) ""
    <> flatten_by_level [("", JDict [("a", JInt 1)])].
Proof. repeat split; try reflexivity. discriminate. Qed.

(** C6 (amended): flattening a record visits its scalar leaves depth first
    and left to right, an element of a sequence being reached through its
    decimal index; the value of each pair is the leaf unchanged and its
    flat key is obtained by folding [new_key] along the path, where
    [new_key prefix key] is [key] when the prefix is empty and
    prefix + "." + key otherwise.  A sequence flattens as the mapping from
    its decimal indices to its elements.  When no top-level field that holds a
    sequence or a mapping is named by the empty string this is the path
    joined by dots.  The record {"a": 1, "b": [10, 20], "c": 2} flattens to
    the keys a, b.0, b.1, c in this order. *)
Theorem flatten_keys_follow_prefix (record : odict json) :
  Grant.flatten (JDict record) "" =
    map (fun leaf => (flat_key "" (fst leaf), snd leaf)) (leaves (JDict record)) /\
  (forall v, Grant.new_key "" v = v) /\
  (forall prefix v, prefix <> "" ->
                    Grant.new_key prefix v = (prefix ++ "." ++ v)%string) /\
  Forall (fun leaf => is_container (snd leaf) = false) (leaves (JDict record)) /\
  (forall l prefix,
      Grant.flatten (JList l) prefix =
      Grant.flatten (JDict (enumerate_from 0 l)) prefix) /\
  (named_containers record = true ->
   Grant.flatten (JDict record) "" = flatten_by_level record) /\
  map fst (Grant.flatten
             (JDict [("a", JInt 1); ("b", JList [JInt 10; JInt 20]); ("c", JInt 2)])
             "") = ["a"; "b.0"; "b.1"; "c"].
Proof.
  assert (Hleaves : Grant.flatten (JDict record) "" =
                    map (fun leaf => (flat_key "" (fst leaf), snd leaf))
                      (leaves (JDict record))).
  { exact (flatten_value_leaves (JDict record) ""). }
  split; [exact Hleaves|].
  split; [exact new_key_top|].
  split; [exact new_key_nested|].
  split; [apply leaves_scalars|].
  split; [intros l prefix; now rewrite flatten_list, flatten_dict|].
  split; [|reflexivity].
  intros Hnamed. rewrite Hleaves. unfold flatten_by_level.
  apply map_ext_in. intros leaf Hin. f_equal.
  rewrite leaves_dict in Hin. apply in_leaves_of_items in Hin.
  destruct Hin as [[k y] [leaf' [Hkv [Hin ->]]]]. simpl in *.
  unfold named_containers in Hnamed. rewrite forallb_forall in Hnamed.
  specialize (Hnamed (k, y) Hkv). simpl in Hnamed.
  destruct (is_container y) eqn:Hy.
  - simpl in Hnamed. apply negb_true_iff, String.eqb_neq in Hnamed.
    unfold flat_key. simpl fold_left. now apply flat_key_dotted.
  - rewrite (leaves_scalar y Hy) in Hin. destruct Hin as [<- | []]. reflexivity.
Qed.

(** *** C7 *)

(** C7 (as stated): the flat keys of a record contain no duplicates.  They
    do when a field name contains a dot: the field [a.b] and the field [b]
    inside [a] get the same key, and the ordered mapping keeps one pair of
    the two. *)
Lemma flatten_dotted_name_duplicate :
  map fst (Grant.flatten
             (JDict [("a.b", JInt 1); ("a", JDict [("b", JInt 2)])]) "")
    = ["a.b"; "a.b"] /\
  ~ NoDup (map fst (Grant.flatten
                      (JDict [("a.b", JInt 1); ("a", JDict [("b", JInt 2)])]) "")) /\
  Grant.to_flat [("a.b", JInt 1); ("a", JDict [("b", JInt 2)])]
    = [("a.b", JInt 2)].
Proof.
  repeat split; try reflexivity.
  simpl. intros H. inversion H as [|? ? Hin _]. apply Hin. now left.
Qed.

(** Pairwise different keys, and the ordered mapping of the pairs. *)
Lemma flat_keys_distinct (record : odict json) :
  plain_keys (JDict record) = true ->
  named_containers record = true ->
  NoDup (map fst (Grant.flatten (JDict record) "")) /\
  Grant.to_flat record = Grant.flatten (JDict record) "".
Proof.
  intros Hplain Hnamed.
  assert (Hnd : NoDup (map fst (Grant.flatten (JDict record) ""))).
  { rewrite flatten_dict.
    unfold plain_keys in Hplain. rewrite every_dict_dict in Hplain.
    apply andb_true_iff in Hplain. destruct Hplain as [Hkeys Hsub].
    apply andb_true_iff in Hkeys. destruct Hkeys as [Hu Hd].
    unfold named_containers in Hnamed.
    rewrite forallb_forall in Hnamed, Hsub, Hd.
    apply flatten_items_NoDup.
    - now apply unique_NoDup.
    - now apply Forall_forall.
    - apply Forall_forall. intros kv Hkv Hc. specialize (Hnamed kv Hkv).
      rewrite Hc in Hnamed. simpl in Hnamed.
      apply negb_true_iff, String.eqb_neq in Hnamed. now rewrite new_key_top.
    - apply Forall_forall. intros kv Hkv.
      apply flatten_value_NoDup; [exact (Hsub kv Hkv)|].
      intros Hc. specialize (Hnamed kv Hkv). rewrite Hc in Hnamed.
      simpl in Hnamed. apply negb_true_iff, String.eqb_neq in Hnamed.
      now rewrite new_key_top. }
  split; [exact Hnd|]. unfold Grant.to_flat. now apply od_of_pairs_NoDup.
Qed.

(** C7 (amended): for every record whose field names, at every level, are
    free of dots (and pairwise different within one mapping, as in any
    Python dict) and whose top-level fields holding a sequence or a mapping
    are not named by the empty string, the flat keys produced by flattening
    contain no duplicates, and wrapping the pairs as an ordered mapping
    returns exactly the pairs: none is lost. *)
Theorem flatten_keys_NoDup (record : odict json) :
  plain_keys (JDict record) = true ->
  named_containers record = true ->
  NoDup (map fst (Grant.flatten (JDict record) "")) /\
  Grant.to_flat record = Grant.flatten (JDict record) "".
Proof. exact (flat_keys_distinct record). Qed.

Lemma flatten_keys_NoDup_witness :
  NoDup (map fst (Grant.flatten
                    (JDict [("a", JInt 1); ("b", JList [JInt 10; JInt 20]);
                            ("c", JDict [("d", JNull)])]) "")) /\
  Grant.to_flat [("a", JInt 1); ("b", JList [JInt 10; JInt 20]);
                 ("c", JDict [("d", JNull)])]
    = [("a", JInt 1); ("b.0", JInt 10); ("b.1", JInt 20); ("c.d", JNull)].
Proof.
  destruct (flatten_keys_NoDup
              [("a", JInt 1); ("b", JList [JInt 10; JInt 20]);
               ("c", JDict [("d", JNull)])]) as [Hnd Heq];
    [reflexivity | reflexivity |].
  split; [exact Hnd | rewrite Heq; reflexivity].
Defined.

(** *** More on ordered dictionaries *)

Lemma od_get_None {V : Type} (k : string) (d : odict V) :
  od_get k d = None <-> ~ In k (map fst d).
Proof.
  induction d as [|[k' v] d IH]; simpl; [tauto|].
  destruct (String.eqb_spec k k') as [->|Hne].
  - split; [discriminate | intros H; exfalso; apply H; now left].
  - rewrite IH. split; [intros H [Heq|Hin]; [congruence | tauto] | tauto].
Qed.

Lemma od_get_In {V : Type} (k : string) (v : V) (d : odict V) :
  od_get k d = Some v -> In (k, v) d.
Proof.
  induction d as [|[k' v'] d IH]; simpl; [discriminate|].
  destruct (String.eqb_spec k k') as [->|Hne].
  - intros [= ->]. now left.
  - intros H. right. now apply IH.
Qed.

Lemma od_get_NoDup {V : Type} (k : string) (v : V) (d : odict V) :
  NoDup (map fst d) -> In (k, v) d -> od_get k d = Some v.
Proof.
  induction d as [|[k' v'] d IH]; simpl; intros Hnd Hin; [contradiction|].
  inversion Hnd as [|? ? Hk' Hnd']; subst.
  destruct Hin as [[= -> ->] | Hin].
  - now rewrite String.eqb_refl.
  - destruct (String.eqb_spec k k') as [->|Hne]; [|now apply IH].
    exfalso. apply Hk'. apply in_map_iff. now exists (k', v).
Qed.

Lemma in_od_set {V : Type} (k : string) (v : V) (d : odict V) (kv : string * V) :
  In kv (od_set k v d) -> kv = (k, v) \/ In kv d.
Proof.
  induction d as [|[k' v'] d IH]; simpl.
  - intros [<- | []]. now left.
  - destruct (String.eqb_spec k k') as [->|Hne]; simpl.
    + intros [<- | Hin]; [now left | right; now right].
    + intros [<- | Hin]; [right; now left|].
      destruct (IH Hin) as [-> | Hd]; [now left | right; now right].
Qed.

Lemma in_od_fold {V : Type} (pairs acc : list (string * V)) (kv : string * V) :
  In kv (fold_left (fun d p => od_set (fst p) (snd p) d) pairs acc) ->
  In kv acc \/ In kv pairs.
Proof.
  revert acc. induction pairs as [|[k v] pairs IH]; intros acc; simpl; [tauto|].
  intros H. destruct (IH _ H) as [Hset | Hin]; [|tauto].
  destruct (in_od_set _ _ _ _ Hset) as [-> | Hacc]; tauto.
Qed.

(** The dictionary built from a list of pairs holds pairs of the list. *)
Lemma in_od_of_pairs {V : Type} (pairs : list (string * V)) (kv : string * V) :
  In kv (od_of_pairs pairs) -> In kv pairs.
Proof.
  intros H. destruct (in_od_fold pairs [] kv H) as [[] | Hin]. exact Hin.
Qed.

(** *** C10 *)

Lemma flatten_items_app (items1 items2 : list (string * json)) (prefix : string) :
  flatten_items (items1 ++ items2) prefix =
  flatten_items items1 prefix ++ flatten_items items2 prefix.
Proof. unfold flatten_items. apply flat_map_app. Qed.

(** C10: a field whose value is an empty sequence or an empty mapping
    contributes no pair: flattening the empty container gives nothing
    under every prefix, a mapping flattens to the same pairs with and
    without such a field, so the flat row of a record is the flat row of
    the record without the field.  No value of a flat row is a sequence or a
    mapping, so no key is mapped to an empty container; and in a record
    whose field names are free of dots, with no sequence or mapping under
    the empty name, the name of the empty field is not a key of the flat
    row at all. *)
Theorem empty_container_contributes_nothing (e : json) :
  e = JList [] \/ e = JDict [] ->
  (forall prefix, Grant.flatten e prefix = []) /\
  (forall pre post k prefix,
      Grant.flatten (JDict (pre ++ (k, e) :: post)) prefix =
      Grant.flatten (JDict (pre ++ post)) prefix) /\
  (forall pre post k,
      Grant.to_flat (pre ++ (k, e) :: post) = Grant.to_flat (pre ++ post)) /\
  (forall record k v,
      od_get k (Grant.to_flat record) = Some v -> is_container v = false) /\
  (forall record k,
      od_get k record = Some e ->
      plain_keys (JDict record) = true ->
      named_containers record = true ->
      od_get k (Grant.to_flat record) = None).
Proof.
  intros He.
  assert (Hempty : forall prefix, Grant.flatten e prefix = [])
    by (destruct He as [-> | ->]; reflexivity).
  assert (Hc : is_container e = true) by (destruct He as [-> | ->]; reflexivity).
  assert (Hdrop : forall pre post k prefix,
             Grant.flatten (JDict (pre ++ (k, e) :: post)) prefix =
             Grant.flatten (JDict (pre ++ post)) prefix).
  { intros pre post k prefix. rewrite !flatten_dict, !flatten_items_app.
    f_equal. unfold flatten_items at 1. simpl.
    unfold flatten_value at 1. rewrite Hc, Hempty. reflexivity. }
  split; [exact Hempty|].
  split; [exact Hdrop|].
  split; [intros pre post k; unfold Grant.to_flat; now rewrite Hdrop|].
  split.
  - intros record k v Hget. apply od_get_In, in_od_of_pairs in Hget.
    pose proof (flatten_value_leaves (JDict record) "") as Hl.
    unfold flatten_value in Hl. simpl in Hl. unfold Grant.to_flat in Hget.
    simpl in Hget. rewrite Hl in Hget. apply in_map_iff in Hget.
    destruct Hget as [leaf [[= _ <-] Hin]].
    pose proof (leaves_scalars (JDict record)) as Hs.
    rewrite Forall_forall in Hs. exact (Hs leaf Hin).
  - intros record k Hget Hplain Hnamed.
    destruct (flat_keys_distinct record Hplain Hnamed) as [_ ->].
    apply od_get_None. intros Hin.
    rewrite flatten_dict in Hin. apply in_flatten_items in Hin.
    destruct Hin as [[k' x] [Hkv Hin]]. simpl in Hin.
    unfold plain_keys in Hplain. rewrite every_dict_dict in Hplain.
    apply andb_true_iff in Hplain. destruct Hplain as [Hkeys _].
    apply andb_true_iff in Hkeys. destruct Hkeys as [Hu Hd].
    apply unique_NoDup in Hu. rewrite forallb_forall in Hd.
    assert (Hk : In k (map fst record)).
    { apply od_get_In in Hget. apply in_map_iff. now exists (k, e). }
    assert (Hk' : In k' (map fst record)).
    { apply in_map_iff. now exists (k', x). }
    assert (Hext : extends (Grant.new_key "" k') k).
    { apply (flatten_value_extends x); [|exact Hin].
      intros Hx. unfold named_containers in Hnamed.
      rewrite forallb_forall in Hnamed. specialize (Hnamed (k', x) Hkv).
      simpl in Hnamed. rewrite Hx in Hnamed. simpl in Hnamed.
      apply negb_true_iff, String.eqb_neq in Hnamed. now rewrite new_key_top. }
    assert (k = k').
    { apply (extends_same_field "" k k' k); auto. apply extends_refl. }
    subst k'. rewrite (od_get_NoDup k x record Hu Hkv) in Hget.
    injection Hget as ->. unfold flatten_value in Hin.
    rewrite Hc, Hempty in Hin. exact Hin.
Qed.

Lemma empty_container_contributes_nothing_witness :
  Grant.to_flat [("a", JInt 1); ("b", JList []); ("c", JInt 2)] =
  Grant.to_flat [("a", JInt 1); ("c", JInt 2)] /\
  od_get "b" (Grant.to_flat [("a", JInt 1); ("b", JList []); ("c", JInt 2)]) = None.
Proof.
  destruct (empty_container_contributes_nothing (JList []) (or_introl eq_refl))
    as [_ [_ [Hrow [_ Habsent]]]].
  split.
  - exact (Hrow [("a", JInt 1)] [("c", JInt 2)] "b").
  - apply Habsent; reflexivity.
Defined.

(* ================================================================== *)
(** ** Properties of [to_flatfile] *)


Lemma filter_filter {A : Type} (f g : A -> bool) (l : list A) :
  filter f (filter g l) = filter (fun x => g x && f x) l.
Proof.
  induction l as [|x l IH]; simpl; [reflexivity|].
  destruct (g x); simpl; [destruct (f x)|]; now rewrite IH.
Qed.

Lemma mem_app (x : string) (l1 l2 : list string) :
  mem x (l1 ++ l2) = mem x l1 || mem x l2.
Proof. unfold mem. apply existsb_app. Qed.

Lemma in_first_seen (l : list string) (x : string) :
  In x (first_seen l) <-> In x l.
Proof.
  induction l as [|y l IH]; simpl; [tauto|].
  rewrite filter_In, IH, negb_true_iff, String.eqb_neq.
  destruct (string_dec y x); [tauto|]. split; [tauto|].
  intros [H | H]; [tauto|]. right. split; [assumption | congruence].
Qed.

Lemma first_seen_NoDup (l : list string) : NoDup (first_seen l).
Proof.
  induction l as [|y l IH]; simpl; constructor.
  - rewrite filter_In, String.eqb_refl. intros [_ H]. discriminate.
  - now apply NoDup_filter.
Qed.

(** A list without repetition is in first-seen order already. *)
Lemma first_seen_id (l : list string) : NoDup l -> first_seen l = l.
Proof.
  induction 1 as [|x l Hx _ IH]; simpl; [reflexivity|].
  rewrite IH. f_equal. apply forallb_filter_id, forallb_forall.
  intros y Hy. apply negb_true_iff, String.eqb_neq. congruence.
Qed.


(** The inner loop of [to_flatfile] appends the new names in first-seen
    order. *)
Lemma add_fieldnames_first_seen (keys acc : list string) :
  add_fieldnames keys acc =
  acc ++ filter (fun y => negb (mem y acc)) (first_seen keys).
Proof.
  unfold add_fieldnames. revert acc.
  induction keys as [|x keys IH]; intros acc; simpl.
  - now rewrite List.app_nil_r.
  - destruct (mem x acc) eqn:Hx; simpl; rewrite IH.
    + f_equal. rewrite filter_filter. apply filter_ext_in. intros y _.
      destruct (String.eqb_spec y x) as [->|_]; simpl;
        [now rewrite Hx | reflexivity].
    + rewrite <- List.app_assoc. simpl. do 2 f_equal.
      rewrite filter_filter. apply filter_ext. intros y.
      rewrite mem_app. unfold mem at 2. simpl.
      rewrite orb_false_r, negb_orb, andb_comm. reflexivity.
Qed.

Lemma add_fieldnames_app (keys1 keys2 acc : list string) :
  add_fieldnames (keys1 ++ keys2) acc =
  add_fieldnames keys2 (add_fieldnames keys1 acc).
Proof. unfold add_fieldnames. apply fold_left_app. Qed.

(** The loop of [to_flatfile] runs to its end exactly when no grant has a
    field named [to_flat], and it raises nothing but TypeError. *)
Lemma to_flatfile_run (gs : list Grant.t) :
  forall acc : list (odict json) * list string,
    for_fold
      (fun acc g =>
         g_flat <- Grant.call_to_flat g ;;
         Ok (fst acc ++ [g_flat], add_fieldnames (od_keys g_flat) (snd acc)))
      gs acc =
    if forallb (fun g => negb (od_mem "to_flat" g)) gs
    then Ok (fst acc ++ map Grant.to_flat gs,
             add_fieldnames (flat_map (fun g => od_keys (Grant.to_flat g)) gs)
               (snd acc))
    else Raise TypeError.
Proof.
  induction gs as [|g gs IH]; intros [rows fieldnames]; simpl.
  - now rewrite List.app_nil_r.
  - unfold Grant.call_to_flat at 1.
    destruct (od_mem "to_flat" g); simpl; [reflexivity|].
    rewrite IH. simpl.
    destruct (forallb (fun g => negb (od_mem "to_flat" g)) gs); [|reflexivity].
    now rewrite <- List.app_assoc, add_fieldnames_app.
Qed.


Lemma od_keys_set {V : Type} (k : string) (v : V) (d : odict V) :
  od_keys (od_set k v d) =
  if mem k (od_keys d) then od_keys d else od_keys d ++ [k].
Proof.
  unfold od_keys, mem. induction d as [|[k' v'] d IH]; simpl; [reflexivity|].
  destruct (String.eqb k k'); simpl; [reflexivity|].
  rewrite IH. now destruct (existsb (String.eqb k) (map fst d)).
Qed.


(** *** C8 *)



(* ================================================================== *)
(** ** Properties of validation and loading *)

(** The test of the code holds of one schema only. *)
Lemma is_date_time_format_exact (x : json) :
  is_date_time_format x = true <-> x = date_time_schema.
Proof.
  unfold date_time_schema. split.
  - destruct x as [| | | | | |d]; try discriminate.
    destruct d as [|[k v] [|kv d]]; try discriminate.
    + destruct v; try discriminate. simpl. intros H.
      apply andb_true_iff in H. destruct H as [Hk Hf].
      apply String.eqb_eq in Hk, Hf. now subst.
    + simpl. destruct v; discriminate.
  - intros ->. reflexivity.
Qed.

(** The test of [get_errors] decides whether the error is one to
    suppress. *)
Lemma ignored_suppressed (e : ValidationError) :
  alternatives_listed e ->
  (ignored e = Ok true /\ suppressed e) \/
  (ignored e = Ok false /\ ~ suppressed e).
Proof.
  unfold alternatives_listed, ignored, suppressed. intros H.
  destruct (String.eqb_spec (validator_kw e) "oneOf") as [Hkw|Hkw].
  - destruct (H Hkw) as [first [others Hv]]. rewrite Hv. simpl.
    destruct (is_date_time_format first) eqn:Hfirst.
    + left. apply is_date_time_format_exact in Hfirst. subst first. eauto.
    + right. split; [reflexivity|]. intros [_ [others' Hv']].
      injection Hv' as Hf _.
      apply is_date_time_format_exact in Hf. congruence.
  - right. split; [reflexivity|]. intros [Hkw' _]. contradiction.
Qed.

(** The generator keeps the reported errors that are not suppressed. *)
Lemma surfaced_surfaces (reported : list ValidationError) :
  Forall alternatives_listed reported ->
  exists kept, surfaced reported = Ok kept /\ surfaces reported kept.
Proof.
  induction 1 as [|e reported He _ [kept [IH Hs]]]; simpl.
  - exists []. split; [reflexivity | constructor].
  - rewrite IH.
    destruct (ignored_suppressed e He) as [[-> Hsup] | [-> Hsup]]; simpl.
    + exists kept. split; [reflexivity | now constructor].
    + exists (e :: kept). split; [reflexivity | now constructor].
Qed.

Lemma surfaces_In (reported kept : list ValidationError) :
  surfaces reported kept ->
  forall e, In e kept <-> In e reported /\ ~ suppressed e.
Proof.
  induction 1 as [|e0 reported kept Hsup _ IH|e0 reported kept Hsup _ IH];
    intros e; simpl.
  - tauto.
  - rewrite IH. split; [tauto|]. intros [[<- | Hin] Hn]; [contradiction | tauto].
  - rewrite IH. split; [|tauto].
    intros [<- | [Hin Hn]]; [tauto | tauto].
Qed.

(** *** C3 *)

(** C3: the validator yields exactly the violations that the engine
    reports, in their order, except those whose failing keyword is [oneOf]
    and whose first alternative schema is exactly {"format": "date-time"}
    (the alternatives of a [oneOf] being a non-empty array): an error is
    yielded if and only if it is reported and is not of that kind.  So a
    document whose reported violations are all of that kind yields no error,
    and a document with a reported violation of any other kind yields at
    least one. *)
Theorem get_errors_suppresses_date_time (self : t) (d : json)
    (engine : json -> list ValidationError) :
  validator self = Some engine ->
  Forall alternatives_listed (engine d) ->
  exists kept,
    get_errors self d = Ok kept /\
    surfaces (engine d) kept /\
    (forall e, In e kept <-> In e (engine d) /\ ~ suppressed e) /\
    (Forall suppressed (engine d) -> kept = []) /\
    (Exists (fun e => ~ suppressed e) (engine d) -> kept <> []).
Proof.
  intros Hv Hlisted.
  destruct (surfaced_surfaces (engine d) Hlisted) as [kept [Hrun Hs]].
  exists kept. split; [unfold get_errors; now rewrite Hv|].
  split; [exact Hs|]. split; [exact (surfaces_In _ _ Hs)|]. split.
  - intros Hall. destruct kept as [|e kept]; [reflexivity|]. exfalso.
    destruct (proj1 (surfaces_In _ _ Hs e) (or_introl eq_refl)) as [Hin Hn].
    rewrite Forall_forall in Hall. exact (Hn (Hall e Hin)).
  - intros Hex Hnil. apply Exists_exists in Hex. destruct Hex as [e [Hin Hn]].
    assert (He : In e kept) by (apply (surfaces_In _ _ Hs); auto).
    rewrite Hnil in He. contradiction.
Qed.

Lemma get_errors_suppresses_date_time_witness :
  get_errors
    (mk None "" (Some (fun _ =>
       [mkError "oneOf" (JList [JDict [("format", JStr "date-time")];
                                JDict [("format", JStr "date")]])
          ["grants"; "0"; "awardDate"] "not valid under any of the given schemas";
        mkError "oneOf" (JList [JDict [("format", JStr "date")];
                                JDict [("format", JStr "date-time")]])
          ["grants"; "0"; "plannedDates"] "not valid under any of the given schemas";
        mkError "oneOf" (JList [JDict [("format", JStr "date-time");
                                       ("type", JStr "string")]])
          ["grants"; "0"; "dateModified"] "not valid under any of the given schemas";
        mkError "required" (JList [JStr "id"]) ["grants"; "0"]
          "'id' is a required property"]))
       [] false [] JNull)
    (JDict [])
  = Ok [mkError "oneOf" (JList [JDict [("format", JStr "date")];
                                JDict [("format", JStr "date-time")]])
          ["grants"; "0"; "plannedDates"] "not valid under any of the given schemas";
        mkError "oneOf" (JList [JDict [("format", JStr "date-time");
                                       ("type", JStr "string")]])
          ["grants"; "0"; "dateModified"] "not valid under any of the given schemas";
        mkError "required" (JList [JStr "id"]) ["grants"; "0"]
          "'id' is a required property"] /\
  suppressed
    (mkError "oneOf" (JList [JDict [("format", JStr "date-time")];
                             JDict [("format", JStr "date")]])
       ["grants"; "0"; "awardDate"] "not valid under any of the given schemas").
Proof.
  destruct (get_errors_suppresses_date_time
              (mk None "" (Some (fun _ =>
                 [mkError "oneOf" (JList [JDict [("format", JStr "date-time")];
                                          JDict [("format", JStr "date")]])
                    ["grants"; "0"; "awardDate"]
                    "not valid under any of the given schemas";
                  mkError "oneOf" (JList [JDict [("format", JStr "date")];
                                          JDict [("format", JStr "date-time")]])
                    ["grants"; "0"; "plannedDates"]
                    "not valid under any of the given schemas";
                  mkError "oneOf" (JList [JDict [("format", JStr "date-time");
                                                 ("type", JStr "string")]])
                    ["grants"; "0"; "dateModified"]
                    "not valid under any of the given schemas";
                  mkError "required" (JList [JStr "id"]) ["grants"; "0"]
                    "'id' is a required property"]))
                 [] false [] JNull)
              (JDict [])
              (fun _ =>
                 [mkError "oneOf" (JList [JDict [("format", JStr "date-time")];
                                          JDict [("format", JStr "date")]])
                    ["grants"; "0"; "awardDate"]
                    "not valid under any of the given schemas";
                  mkError "oneOf" (JList [JDict [("format", JStr "date")];
                                          JDict [("format", JStr "date-time")]])
                    ["grants"; "0"; "plannedDates"]
                    "not valid under any of the given schemas";
                  mkError "oneOf" (JList [JDict [("format", JStr "date-time");
                                                 ("type", JStr "string")]])
                    ["grants"; "0"; "dateModified"]
                    "not valid under any of the given schemas";
                  mkError "required" (JList [JStr "id"]) ["grants"; "0"]
                    "'id' is a required property"])
              eq_refl) as [kept [Hget _]].
  - repeat constructor; unfold alternatives_listed; simpl; intros H;
      first [discriminate | eauto].
  - split.
    + rewrite Hget. f_equal. vm_compute in Hget. now injection Hget as <-.
    + split; [reflexivity|]. eexists. reflexivity.
Defined.

(** *** C2 *)

Lemma from_json_steps (w : world) (f : string) (url : option string) (d : json)
    (sch : schema) (props : properties) :
  load_json w f = Some d ->
  get_schema w (schema_url (init url)) = Some sch ->
  od_get root_id sch = Some props ->
  from_json w f url =
  (errs <- surfaced (iter_errors w sch d) ;;
   match errs with
   | _ :: _ => Raise (ValueError "Invalid file")
   | [] =>
       Ok {| schema_ := Some sch; schema_url := schema_url (init url);
             validator := Some (iter_errors w sch); errors := errs;
             valid := Nat.eqb (List.length errs) 0;
             replace_names := recurse_names props [] "" "";
             data := d |}
   end).
Proof.
  intros Hload Hget Hroot. unfold from_json, fetch_schema.
  rewrite Hload. cbn [lift bind].
  change (schema_url (set_data (init url) d)) with (schema_url (init url)).
  rewrite Hget. cbn [lift bind]. rewrite Hroot. reflexivity.
Qed.

(** C2: once the file is read and decoded and the schema is fetched,
    loading fails if and only if at least one validation error remains
    after the suppression filter; it then raises ValueError("Invalid file")
    and returns no object.  Otherwise it returns an object that holds the
    whole document, is marked valid and has an empty error list. *)
Theorem from_json_fails_iff_errors (w : world) (f : string) (url : option string)
    (d : json) (sch : schema) (props : properties) (errs : list ValidationError) :
  load_json w f = Some d ->
  get_schema w (schema_url (init url)) = Some sch ->
  od_get root_id sch = Some props ->
  surfaced (iter_errors w sch d) = Ok errs ->
  ((exists e, from_json w f url = Raise e) <-> errs <> []) /\
  (errs <> [] ->
   from_json w f url = Raise (ValueError "Invalid file") /\
   forall c, from_json w f url <> Ok c) /\
  (errs = [] ->
   exists c, from_json w f url = Ok c /\
             data c = d /\ valid c = true /\ errors c = []).
Proof.
  intros Hload Hget Hroot Herrs.
  rewrite (from_json_steps w f url d sch props Hload Hget Hroot), Herrs. simpl.
  destruct errs as [|e errs]; simpl.
  - split; [|split].
    + split; [intros [e H]; discriminate | intros H; now contradiction H].
    + intros H. now contradiction H.
    + intros _. eexists. split; [reflexivity|]. simpl. auto.
  - split; [|split].
    + split; [intros _; discriminate | intros _; eexists; reflexivity].
    + intros _. split; [reflexivity | intros c; discriminate].
    + discriminate.
Qed.

Lemma from_json_fails_iff_errors_witness :
  (exists c,
      from_json
        (mkWorld (fun _ => Some (JDict [("grants", JList [])]))
           (fun _ => Some [("grants", [])]) (fun _ _ => []) (fun _ _ => None))
        "grants.json" None = Ok c /\
      data c = JDict [("grants", JList [])] /\ valid c = true /\ errors c = []) /\
  from_json
    (mkWorld (fun _ => Some (JDict []))
       (fun _ => Some [("grants", [])])
       (fun _ _ => [mkError "required" (JList [JStr "grants"]) []
                      "'grants' is a required property"])
       (fun _ _ => None))
    "grants.json" None = Raise (ValueError "Invalid file").
Proof.
  split.
  - destruct (from_json_fails_iff_errors
                (mkWorld (fun _ => Some (JDict [("grants", JList [])]))
                   (fun _ => Some [("grants", [])]) (fun _ _ => [])
                   (fun _ _ => None))
                "grants.json" None (JDict [("grants", JList [])])
                [("grants", [])] [] []
                eq_refl eq_refl eq_refl eq_refl) as [_ [_ Hok]].
    exact (Hok eq_refl).
  - destruct (from_json_fails_iff_errors
                (mkWorld (fun _ => Some (JDict []))
                   (fun _ => Some [("grants", [])])
                   (fun _ _ => [mkError "required" (JList [JStr "grants"]) []
                                  "'grants' is a required property"])
                   (fun _ _ => None))
                "grants.json" None (JDict [])
                [("grants", [])] []
                [mkError "required" (JList [JStr "grants"]) []
                   "'grants' is a required property"]
                eq_refl eq_refl eq_refl eq_refl) as [_ [Hfail _]].
    apply Hfail. discriminate.
Defined.

(** *** C9 *)

(** C9: for a filetype other than json, csv, xlsx, xls and excel,
    [from_file] raises nothing and returns None. *)
Theorem from_file_unrecognised (w : world) (f filetype : string)
    (url : option string) :
  ~ In filetype ["json"; "csv"; "xlsx"; "xls"; "excel"] ->
  from_file w f filetype url = Ok None.
Proof.
  intros H. unfold from_file.
  destruct (String.eqb_spec filetype "json") as [->|_];
    [exfalso; apply H; simpl; tauto|].
  destruct (String.eqb_spec filetype "csv") as [->|_];
    [exfalso; apply H; simpl; tauto|].
  destruct (mem filetype ["xlsx"; "xls"; "excel"]) eqn:Hm; [|reflexivity].
  apply mem_In in Hm. exfalso. apply H. simpl in *. tauto.
Qed.

Lemma from_file_unrecognised_witness :
  from_file
    (mkWorld (fun _ => None) (fun _ => None) (fun _ _ => []) (fun _ _ => None))
    "grants.xml" "xml" None = Ok None.
Proof.
  apply from_file_unrecognised. simpl.
  intros [H | [H | [H | [H | [H | []]]]]]; discriminate.
Defined.

(* ================================================================== *)
(** ** Properties of [recurse_names] *)

(** The loop body, with the recursive call folded back *)
Lemma recurse_prop_eq (i : string) (prop : schema_prop) (acc : odict string)
    (prefix_k prefix_v : string) :
  recurse_prop i prop acc prefix_k prefix_v =
  if is_array prop then
    recurse_names (items_of prop) acc (name_k prefix_k i)
      (name_v prefix_v (title_or prop i))
  else od_set (name_k prefix_k i) (name_v prefix_v (title_or prop i)) acc.
Proof.
  destruct prop as [title [ty|] items]; simpl; [|reflexivity].
  destruct (String.eqb ty "array"); [|reflexivity].
  unfold recurse_names. revert acc.
  induction items as [|[j p] items IH]; intros acc; simpl; [reflexivity|].
  apply IH.
Qed.

Lemma terminals_prop_eq (i : string) (prop : schema_prop) :
  terminals_prop i prop =
  if is_array prop then map (cons (i, title_or prop i)) (terminals (items_of prop))
  else [[(i, title_or prop i)]].
Proof.
  destruct prop as [title [ty|] items]; simpl; [|reflexivity].
  destruct (String.eqb ty "array"); [|reflexivity].
  f_equal. unfold terminals.
  induction items as [|[j p] items IH]; simpl; [reflexivity|].
  now rewrite IH.
Qed.

Lemma set_all_app (pairs1 pairs2 : list (string * string)) (acc : odict string) :
  set_all (pairs1 ++ pairs2) acc = set_all pairs2 (set_all pairs1 acc).
Proof. unfold set_all. apply fold_left_app. Qed.

(** [recurse_names] sets the rule of every terminal property, in the order
    of the traversal. *)
Lemma recurse_prop_rules (prop : schema_prop) :
  forall i acc prefix_k prefix_v,
    recurse_prop i prop acc prefix_k prefix_v =
    set_all (map (rule_by_prefix prefix_k prefix_v) (terminals_prop i prop)) acc.
Proof.
  induction prop as [title ty items IH] using schema_prop_nested_ind.
  intros i acc prefix_k prefix_v.
  rewrite recurse_prop_eq, terminals_prop_eq.
  destruct (is_array (SchemaProp title ty items)); [|reflexivity].
  rewrite map_map. simpl items_of.
  set (t := title_or (SchemaProp title ty items) i).
  rewrite (map_ext _ (rule_by_prefix (name_k prefix_k i) (name_v prefix_v t)))
    by reflexivity.
  generalize (name_k prefix_k i) (name_v prefix_v t). clear t.
  intros k v. unfold recurse_names, terminals. revert acc.
  induction IH as [|[j p] items Hp _ IHitems]; intros acc; simpl; [reflexivity|].
  rewrite map_app, set_all_app, <- IHitems. f_equal.
  apply Hp.
Qed.

Lemma recurse_names_rules (props : properties) (acc : odict string)
    (prefix_k prefix_v : string) :
  recurse_names props acc prefix_k prefix_v =
  set_all (map (rule_by_prefix prefix_k prefix_v) (terminals props)) acc.
Proof.
  unfold recurse_names, terminals. revert acc.
  induction props as [|[i prop] props IH]; intros acc; simpl; [reflexivity|].
  rewrite map_app, set_all_app, <- IH. f_equal. apply recurse_prop_rules.
Qed.

(** A chain that starts with a non-empty name and a non-empty title, or
    that has one property only, gets the rule by nesting level. *)
Lemma rule_by_prefix_level (i title : string) (chain : list (string * string)) :
  (chain = [] \/ (i <> "" /\ title <> "")) ->
  rule_by_prefix "" "" ((i, title) :: chain) = rule_by_level ((i, title) :: chain).
Proof.
  unfold rule_by_prefix, rule_by_level. intros [-> | [Hi Ht]]; [reflexivity|].
  simpl map. simpl fold_left. f_equal.
  - exact (fold_joined ".([0-9]+)." (map fst chain) i Hi).
  - exact (fold_joined ":\1:" (map snd chain) title Ht).
Qed.

(** *** C4 *)

(** C4 (as stated): below the first level the template is the parent's
    template + ":\1:" + (title or name).  It is not when the parent's
    template is the empty string: below an array whose title is empty the
    code gives the bare title [B], the rule by nesting level [:\1:B]. *)
Lemma recurse_names_empty_title_not_by_level :
  recurse_names
    [("a", SchemaProp (Some "") (Some "array") [("b", SchemaProp (Some "B") None [])])]
    [] "" ""
  = [("a.([0-9]+).b", "B")] /\
  rules_by_level
    [("a", SchemaProp (Some "") (Some "array") [("b", SchemaProp (Some "B") None [])])]
  = [("a.([0-9]+).b", ":\1:B")] /\
  recurse_names
    [("a", SchemaProp (Some "") (Some "array") [("b", SchemaProp (Some "B") None [])])]
    [] "" ""
  <> rules_by_level
       [("a", SchemaProp (Some "") (Some "array") [("b", SchemaProp (Some "B") None [])])].
Proof. repeat split; try reflexivity. discriminate. Qed.

(** C4 (amended): rename-rule derivation traverses the record properties
    depth first in declared order and sets, for each property that is not
    an array, the rule (pattern, template) of its chain; an array recurses
    into its items' properties instead.  The pattern is the property name
    when the parent's pattern is empty and parent pattern + ".([0-9]+)." +
    name otherwise; the template is the title (or the name if there is no
    title) when the parent's template is empty and parent template + ":\1:"
    + title otherwise.  The parent's pattern and template are empty at the
    first level; when every first-level array has a non-empty name and a
    non-empty title, nowhere else, and the rules are the rules by nesting
    level.  The minimal schema with [id] and [recipientOrganization] derives
    ("id", "Identifier") and ("recipientOrganization.([0-9]+).name",
    "recipientOrganization:\1:Org Name"). *)
Theorem recurse_names_derives_rules (props : properties) :
  (forall acc prefix_k prefix_v,
      recurse_names props acc prefix_k prefix_v =
      set_all (map (rule_by_prefix prefix_k prefix_v) (terminals props)) acc) /\
  (forall i, name_k "" i = i) /\
  (forall prefix_k i, prefix_k <> "" ->
                      name_k prefix_k i = (prefix_k ++ ".([0-9]+)." ++ i)%string) /\
  (forall title, name_v "" title = title) /\
  (forall prefix_v title, prefix_v <> "" ->
                          name_v prefix_v title = (prefix_v ++ ":\1:" ++ title)%string) /\
  (titled_arrays props = true ->
   recurse_names props [] "" "" = rules_by_level props) /\
  recurse_names
    [("id", SchemaProp (Some "Identifier") None []);
     ("recipientOrganization",
      SchemaProp None (Some "array") [("name", SchemaProp (Some "Org Name") None [])])]
    [] "" ""
  = [("id", "Identifier");
     ("recipientOrganization.([0-9]+).name", "recipientOrganization:\1:Org Name")].
Proof.
  split; [intros; apply recurse_names_rules|].
  split; [reflexivity|].
  split.
  { intros prefix_k i H. unfold name_k.
    destruct (String.eqb_spec prefix_k ""); [contradiction | reflexivity]. }
  split; [reflexivity|].
  split.
  { intros prefix_v title H. unfold name_v.
    destruct (String.eqb_spec prefix_v ""); [contradiction | reflexivity]. }
  split; [|reflexivity].
  intros Htitled. rewrite recurse_names_rules. unfold rules_by_level, od_of_pairs.
  unfold set_all. f_equal. apply map_ext_in. intros chain Hin.
  unfold terminals in Hin. apply in_flat_map in Hin.
  destruct Hin as [[i prop] [Hip Hin]]. simpl in Hin.
  unfold titled_arrays in Htitled. rewrite forallb_forall in Htitled.
  specialize (Htitled (i, prop) Hip). simpl in Htitled.
  rewrite terminals_prop_eq in Hin. destruct (is_array prop).
  - simpl in Htitled. apply andb_true_iff in Htitled.
    destruct Htitled as [Hi Ht].
    apply negb_true_iff, String.eqb_neq in Hi.
    apply negb_true_iff, String.eqb_neq in Ht.
    apply in_map_iff in Hin. destruct Hin as [rest [<- _]].
    apply rule_by_prefix_level. now right.
  - destruct Hin as [<- | []]. apply rule_by_prefix_level. now left.
Qed.

(* ================================================================== *)
(** ** Properties of the matcher *)

Lemma is_some_true {A : Type} (o : option A) :
  is_some o = true <-> exists x, o = Some x.
Proof.
  destruct o; simpl; split; eauto; try discriminate. intros [x H]. discriminate.
Qed.

(** The test of the matcher on one character is membership. *)
Lemma cset_match_in_cset (c : Re.cset) (a : ascii) :
  Re.cset_match c a = true <-> in_cset c a.
Proof.
  destruct c as [b| |ranges]; simpl.
  - rewrite Ascii.eqb_eq. split.
    + intros ->. constructor.
    + intros H. inversion H. reflexivity.
  - rewrite negb_true_iff. split.
    + intros H. constructor. intros ->. now rewrite Ascii.eqb_refl in H.
    + intros H. inversion H; subst. now apply Ascii.eqb_neq.
  - rewrite existsb_exists. split.
    + intros [[lo hi] [Hin Hr]]. unfold Re.in_range in Hr. simpl in Hr.
      apply andb_true_iff in Hr. destruct Hr as [H1 H2].
      apply Nat.leb_le in H1, H2. now apply (in_class ranges lo hi).
    + intros H. inversion H; subst. exists (lo, hi). split; [assumption|].
      unfold Re.in_range. simpl. apply andb_true_iff.
      split; now apply Nat.leb_le.
Qed.

Lemma cset_match_out (c : Re.cset) (a : ascii) :
  Re.cset_match c a = false -> ~ in_cset c a.
Proof. intros H Hin. apply cset_match_in_cset in Hin. congruence. Qed.

Lemma plus_k_matches {A : Type} (c : Re.cset) (k : string -> option A) (s : string) :
  is_some (Re.plus_k c k s) = true <->
  exists s1 s2, s = (s1 ++ s2)%string /\ matches (Re.Plus c) s1 /\
                is_some (k s2) = true.
Proof.
  induction s as [|a s IH]; simpl.
  - split; [discriminate|]. intros [s1 [s2 [Heq [Hm _]]]].
    symmetry in Heq. apply append_eq_nil in Heq. destruct Heq as [-> _].
    inversion Hm.
  - destruct (Re.cset_match c a) eqn:Hc.
    + apply cset_match_in_cset in Hc. split.
      * intros H. destruct (Re.plus_k c k s) eqn:Hp.
        -- destruct IH as [IH _]. destruct (IH eq_refl) as [s1 [s2 [-> [Hm Hk]]]].
           exists (String a s1), s2. repeat split; auto.
           now apply matches_plus_more.
        -- exists (String a ""), s. repeat split; auto.
           now apply matches_plus_one.
      * intros [s1 [s2 [Heq [Hm Hk]]]].
        destruct (Re.plus_k c k s) eqn:Hp; [reflexivity|].
        inversion Hm; subst; simpl in Heq; injection Heq as _ Heq; subst.
        -- exact Hk.
        -- destruct IH as [_ IH].
           assert (Habs : @is_some A None = true) by (apply IH; eauto).
           discriminate.
    + apply cset_match_out in Hc.
      split; [discriminate|]. intros [s1 [s2 [Heq [Hm _]]]].
      inversion Hm; subst; simpl in Heq; injection Heq as Ha _; subst;
        contradiction.
Qed.

(** The backtracking matcher succeeds exactly when a prefix of the input
    is in the language and the continuation accepts the rest. *)
Lemma m_matches {A : Type} (r : Re.regex) :
  forall (s : string) (caps : Re.captures) (k : string -> Re.captures -> option A),
    blind k ->
    (is_some (Re.m r s caps k) = true <->
     exists s1 s2, s = (s1 ++ s2)%string /\ matches r s1 /\
                   is_some (k s2 []) = true).
Proof.
  induction r as [|c|c|r1 IH1 r2 IH2|n r IH]; intros s caps k Hk; simpl.
  - rewrite (Hk s caps []). split.
    + intros H. exists "", s. repeat split; auto. constructor.
    + intros [s1 [s2 [-> [Hm H]]]]. inversion Hm; subst. exact H.
  - destruct s as [|a s].
    + split; [discriminate|]. intros [s1 [s2 [Heq [Hm _]]]].
      inversion Hm; subst. discriminate.
    + destruct (Re.cset_match c a) eqn:Hc.
      * apply cset_match_in_cset in Hc. rewrite (Hk s caps []). split.
        -- intros H. exists (String a ""), s. repeat split; auto.
           now constructor.
        -- intros [s1 [s2 [Heq [Hm H]]]]. inversion Hm; subst.
           simpl in Heq. injection Heq as _ ->. exact H.
      * apply cset_match_out in Hc.
        split; [discriminate|]. intros [s1 [s2 [Heq [Hm _]]]].
        inversion Hm; subst. simpl in Heq. injection Heq as -> _. contradiction.
  - rewrite plus_k_matches. split.
    + intros [s1 [s2 [-> [Hm H]]]]. exists s1, s2.
      repeat split; auto. now rewrite <- (Hk s2 caps []).
    + intros [s1 [s2 [-> [Hm H]]]]. exists s1, s2.
      repeat split; auto. now rewrite (Hk s2 caps []).
  - assert (Hblind : blind (fun s' caps' => Re.m r2 s' caps' k)).
    { intros s' c1 c2.
      destruct (is_some (Re.m r2 s' c1 k)) eqn:H1;
        destruct (is_some (Re.m r2 s' c2 k)) eqn:H2; try reflexivity.
      - apply (IH2 s' c1 k Hk) in H1. apply (IH2 s' c2 k Hk) in H1. congruence.
      - apply (IH2 s' c2 k Hk) in H2. apply (IH2 s' c1 k Hk) in H2. congruence. }
    rewrite (IH1 s caps _ Hblind). split.
    + intros [s1 [s2 [-> [Hm1 H]]]]. apply (IH2 s2 [] k Hk) in H.
      destruct H as [s3 [s4 [-> [Hm2 H]]]].
      exists (s1 ++ s3)%string, s4. repeat split; auto.
      * now rewrite append_assoc.
      * now constructor.
    + intros [s12 [s4 [-> [Hm H]]]]. inversion Hm; subst.
      exists s1, (s2 ++ s4)%string. repeat split; auto.
      * now rewrite append_assoc.
      * apply (IH2 (s2 ++ s4)%string [] k Hk). now exists s2, s4.
  - assert (Hblind : blind (fun s' caps' =>
                              k s' ((n, Re.consumed s s') :: caps'))).
    { intros s' c1 c2. apply Hk. }
    rewrite (IH s caps _ Hblind). split.
    + intros [s1 [s2 [-> [Hm H]]]]. exists s1, s2. repeat split; auto.
      * now constructor.
      * now rewrite (Hk s2 [] [(n, Re.consumed (s1 ++ s2) s2)]).
    + intros [s1 [s2 [-> [Hm H]]]]. inversion Hm; subst.
      exists s1, s2. repeat split; auto.
      now rewrite (Hk s2 _ []).
Qed.

(** [fullmatch_re] succeeds exactly on the strings of the language. *)
Lemma fullmatch_re_matches (r : Re.regex) (s : string) :
  is_some (Re.fullmatch_re r s) = true <-> matches r s.
Proof.
  unfold Re.fullmatch_re. rewrite m_matches.
  - split.
    + intros [s1 [s2 [-> [Hm H]]]]. destruct (String.eqb_spec s2 "") as [->|_];
        [now rewrite append_nil_r | discriminate].
    + intros Hm. exists s, "". rewrite append_nil_r. auto.
  - intros s' c1 c2. now destruct (String.eqb s' "").
Qed.

(** [re.fullmatch] is true exactly when the pattern compiles and the whole
    string is in its language. *)
Lemma fullmatch_whole_string (pattern s : string) :
  Re.fullmatch pattern s = Some true <->
  exists r ngroups, Re.compile pattern = Some (r, ngroups) /\ matches r s.
Proof.
  unfold Re.fullmatch. destruct (Re.compile pattern) as [[r n]|].
  - split.
    + intros H. exists r, n. split; [reflexivity|].
      apply fullmatch_re_matches.
      destruct (Re.fullmatch_re r s); [reflexivity | discriminate].
    + intros [r' [n' [[= <- <-] Hm]]]. apply fullmatch_re_matches in Hm.
      destruct (Re.fullmatch_re r s); [reflexivity | discriminate].
  - split; [discriminate | intros [r [n [H _]]]; discriminate].
Qed.

(* ================================================================== *)
(** ** Properties of [convert_fieldnames] *)

Lemma od_get_set_same {V : Type} (k : string) (v : V) (d : odict V) :
  od_get k (od_set k v d) = Some v.
Proof.
  induction d as [|[k' v'] d IH]; simpl.
  - now rewrite String.eqb_refl.
  - destruct (String.eqb k k') eqn:Hk; simpl; now rewrite Hk.
Qed.

Lemma od_get_set_other {V : Type} (k k' : string) (v : V) (d : odict V) :
  k' <> k -> od_get k' (od_set k v d) = od_get k' d.
Proof.
  intros Hne. induction d as [|[k0 v0] d IH]; simpl.
  - apply String.eqb_neq in Hne. now rewrite Hne.
  - destruct (String.eqb_spec k k0) as [->|Hk]; simpl.
    + apply String.eqb_neq in Hne. now rewrite Hne.
    + now rewrite IH.
Qed.

Lemma od_keys_set_mem {V : Type} (k : string) (v : V) (d : odict V) :
  In k (od_keys d) -> od_keys (od_set k v d) = od_keys d.
Proof. intros H. rewrite od_keys_set. apply mem_In in H. now rewrite H. Qed.

(** The dictionary [OrderedDict(zip(fieldnames, fieldnames))] *)
Lemma od_of_pairs_diagonal (fieldnames : list string) :
  od_of_pairs (combine fieldnames fieldnames) =
  map (fun f => (f, f)) (first_seen fieldnames).
Proof.
  unfold od_of_pairs.
  assert (H : forall acc,
             fold_left (fun d kv => od_set (fst kv) (snd kv) d)
               (combine fieldnames fieldnames) (map (fun f => (f, f)) acc) =
             map (fun f => (f, f)) (add_fieldnames fieldnames acc)).
  { unfold add_fieldnames.
    induction fieldnames as [|f fieldnames IH]; intros acc; simpl; [reflexivity|].
    assert (Hset : od_set f f (map (fun f => (f, f)) acc) =
                   map (fun f => (f, f)) (if mem f acc then acc else acc ++ [f])).
    { clear IH. unfold mem. induction acc as [|g acc IHacc]; simpl; [reflexivity|].
      destruct (String.eqb_spec f g) as [->|_]; simpl; [reflexivity|].
      rewrite IHacc. now destruct (existsb (String.eqb f) acc). }
    rewrite Hset. apply IH. }
  specialize (H []). simpl in H. rewrite H, add_fieldnames_first_seen. simpl.
  f_equal. apply forallb_filter_id, forallb_forall. reflexivity.
Qed.

Lemma od_get_diagonal (l : list string) (f : string) :
  In f l -> od_get f (map (fun f => (f, f)) l) = Some f.
Proof.
  induction l as [|g l IH]; simpl; [contradiction|].
  destruct (String.eqb_spec f g) as [->|Hne]; [reflexivity|].
  intros [H | H]; [congruence | now apply IH].
Qed.

Lemma apply_rule_Ok (old new field : string) (st st1 : odict string) :
  apply_rule old new st field = Ok st1 ->
  (Re.fullmatch old field = Some true /\
   exists s, Re.sub old new field = Some s /\ st1 = od_set field s st) \/
  (Re.fullmatch old field = Some false /\ st1 = st).
Proof.
  unfold apply_rule. destruct (Re.fullmatch old field) as [[|]|]; simpl.
  - destruct (Re.sub old new field) as [s|]; simpl; [|discriminate].
    intros [= <-]. left. eauto.
  - intros [= <-]. now right.
  - discriminate.
Qed.

(** The inner loop: one rule over the fields *)
Lemma inner_loop_Ok (old new : string) (fields : list string) :
  forall st st',
    for_fold (apply_rule old new) fields st = Ok st' ->
    (forall f, In f fields -> In f (od_keys st)) ->
    od_keys st' = od_keys st /\
    forall f, od_get f st' =
              if mem f fields then value_after old new f (od_get f st)
              else od_get f st.
Proof.
  induction fields as [|f0 fields IH]; intros st st' Hrun Hin; simpl in Hrun.
  - injection Hrun as <-. split; reflexivity.
  - destruct (apply_rule old new st f0) as [st1|] eqn:Hstep; [|discriminate].
    simpl in Hrun. apply apply_rule_Ok in Hstep.
    assert (Hkeys1 : od_keys st1 = od_keys st).
    { destruct Hstep as [[_ [s [_ ->]]] | [_ ->]]; [|reflexivity].
      apply od_keys_set_mem, Hin. now left. }
    destruct (IH st1 st' Hrun) as [Hkeys Hget].
    { intros f Hf. rewrite Hkeys1. apply Hin. now right. }
    split; [congruence|]. intros f. rewrite Hget.
    unfold mem. simpl. fold (mem f fields).
    destruct (String.eqb_spec f f0) as [->|Hne]; simpl.
    + unfold value_after.
      destruct Hstep as [[Hm [s [Hs ->]]] | [Hm ->]]; rewrite Hm.
      * destruct (mem f0 fields); [reflexivity|].
        now rewrite od_get_set_same.
      * now destruct (mem f0 fields).
    + destruct Hstep as [[Hm [s [Hs ->]]] | [Hm ->]]; [|reflexivity].
      now rewrite (od_get_set_other f0 f s st Hne).
Qed.

(** The outer loop: the rules in order *)
Lemma outer_loop_Ok (rules : odict string) :
  forall st m,
    for_fold
      (fun fieldnames rule =>
         for_fold (apply_rule (fst rule) (snd rule)) (od_keys fieldnames) fieldnames)
      rules st = Ok m ->
    od_keys m = od_keys st /\
    forall f, In f (od_keys st) ->
              od_get f m =
              match last_match rules f with
              | Some rule => Re.sub (fst rule) (snd rule) f
              | None => od_get f st
              end.
Proof.
  induction rules as [|[old new] rules IH]; intros st m Hrun; simpl in Hrun.
  - injection Hrun as <-. split; reflexivity.
  - destruct (for_fold (apply_rule old new) (od_keys st) st) as [st1|] eqn:Hinner;
      [|discriminate].
    simpl in Hrun. apply inner_loop_Ok in Hinner; [|auto].
    destruct Hinner as [Hkeys1 Hget1].
    destruct (IH st1 m Hrun) as [Hkeys Hget].
    split; [congruence|]. intros f Hf. rewrite Hget by now rewrite Hkeys1.
    simpl. destruct (last_match rules f) as [rule|]; [reflexivity|].
    rewrite Hget1. apply mem_In in Hf. rewrite Hf. unfold value_after. simpl.
    now destruct (Re.fullmatch old f) as [[|]|].
Qed.

(** What the last matching rule is *)
Lemma last_match_Some (rules : odict string) (field : string) (rule : string * string) :
  last_match rules field = Some rule ->
  exists before after,
    rules = before ++ rule :: after /\
    Re.fullmatch (fst rule) field = Some true /\
    forall later, In later after -> Re.fullmatch (fst later) field <> Some true.
Proof.
  induction rules as [|r rules IH]; simpl; [discriminate|].
  destruct (last_match rules field) as [found|] eqn:Hlast.
  - intros [= ->]. destruct (IH eq_refl) as [before [after [-> [Hm Hafter]]]].
    exists (r :: before), after. auto.
  - destruct (Re.fullmatch (fst r) field) as [[|]|] eqn:Hm; try discriminate.
    intros [= <-]. exists [], rules. repeat split; auto.
    clear IH Hm. induction rules as [|r' rules IH']; [intros later []|].
    simpl in Hlast. destruct (last_match rules field); [discriminate|].
    intros later [<- | Hin]; [|now apply IH'].
    now destruct (Re.fullmatch (fst r') field) as [[|]|].
Qed.

Lemma last_match_None (rules : odict string) (field : string) :
  last_match rules field = None <->
  forall rule, In rule rules -> Re.fullmatch (fst rule) field <> Some true.
Proof.
  induction rules as [|r rules IH]; simpl.
  - split; [intros _ rule [] | reflexivity].
  - destruct (last_match rules field) as [found|].
    + split; [discriminate|]. intros H. destruct IH as [_ IH].
      discriminate IH. intros rule Hin. apply H. now right.
    + destruct IH as [IH _]. specialize (IH eq_refl).
      destruct (Re.fullmatch (fst r) field) as [[|]|] eqn:Hm.
      * split; [discriminate|]. intros H. exfalso. apply (H r); auto.
      * split; [|reflexivity]. intros _ rule [<- | Hin]; [congruence | auto].
      * split; [|reflexivity]. intros _ rule [<- | Hin]; [congruence | auto].
Qed.

(** The result of [convert_fieldnames], field by field *)
Lemma convert_fieldnames_Ok (self : t) (fieldnames : list string) (m : odict string) :
  convert_fieldnames self fieldnames = Ok m ->
  od_keys m = first_seen fieldnames /\
  forall f, In f fieldnames ->
            od_get f m =
            match last_match (replace_names self) f with
            | Some rule => Re.sub (fst rule) (snd rule) f
            | None => Some f
            end.
Proof.
  unfold convert_fieldnames. rewrite od_of_pairs_diagonal. intros Hrun.
  apply outer_loop_Ok in Hrun. destruct Hrun as [Hkeys Hget].
  assert (Hk : od_keys (map (fun f => (f, f)) (first_seen fieldnames)) =
               first_seen fieldnames).
  { unfold od_keys. rewrite map_map. simpl. apply map_id. }
  rewrite Hk in *. split; [exact Hkeys|].
  intros f Hf. apply in_first_seen in Hf. rewrite (Hget f Hf).
  now rewrite (od_get_diagonal _ f Hf).
Qed.

(** With rules inside the fragment the two loops run to their end. *)
Lemma convert_fieldnames_returns (self : t) (fieldnames : list string) :
  Forall rule_supported (replace_names self) ->
  exists m, convert_fieldnames self fieldnames = Ok m.
Proof.
  unfold convert_fieldnames.
  generalize (od_of_pairs (combine fieldnames fieldnames)) as st.
  generalize (replace_names self) as rules. intros rules st H. revert st.
  induction H as [|[old new] rules Hrule _ IH]; intros st; simpl; [eauto|].
  assert (Hinner : forall fields st0,
             exists st1, for_fold (apply_rule old new) fields st0 = Ok st1).
  { destruct Hrule as [r [n [tpl [Hc Ht]]]]. simpl in Hc, Ht.
    induction fields as [|f fields IHf]; intros st0; simpl; [eauto|].
    unfold apply_rule at 1. unfold Re.fullmatch, Re.sub. rewrite Hc, Ht. simpl.
    destruct (Re.fullmatch_re r f); simpl; apply IHf. }
  destruct (Hinner (od_keys st) st) as [st1 ->]. simpl. apply IH.
Qed.

(** *** C1 *)

(** C1 (as stated): a field already rewritten by an earlier rule is
    rewritten again by a later rule whenever its current string satisfies
    the later pattern.  It is not: with the rules a -> b and b -> c the field
    [a] is mapped to [b], which the pattern [b] fully matches, and the code
    leaves it at [b]; layered substitution would give [c]. *)
Lemma convert_fieldnames_not_layered :
  convert_fieldnames (set_replace_names (init None) [("a", "b"); ("b", "c")]) ["a"]
    = Ok [("a", "b")] /\
  Re.fullmatch "b" "b" = Some true /\
  convert_fieldnames_layered [("a", "b"); ("b", "c")] ["a"] = Ok [("a", "c")].
Proof. repeat split; reflexivity. Qed.

(** C1 (amended): the field-name mapping iterates rules in the outer loop
    and fields in the inner loop, but every rule is tested against the
    original field name (the key of the mapping), never against the current
    mapped value, and a matching rule overwrites the mapped value with its
    substitution applied to the original name.  So the result maps the
    field names, in the order of their first occurrence, each to the
    substitution of the last rule that fully matches it, or to itself when
    no rule does: substitutions are never layered.  With rules inside the
    modelled fragment of [re] the mapping always returns. *)
Theorem convert_fieldnames_last_rule_wins (self : t) (fieldnames : list string) :
  (forall m,
      convert_fieldnames self fieldnames = Ok m ->
      od_keys m = first_seen fieldnames /\
      forall f, In f fieldnames ->
                od_get f m =
                match last_match (replace_names self) f with
                | Some rule => Re.sub (fst rule) (snd rule) f
                | None => Some f
                end) /\
  (forall f rule,
      last_match (replace_names self) f = Some rule ->
      exists before after,
        replace_names self = before ++ rule :: after /\
        Re.fullmatch (fst rule) f = Some true /\
        forall later, In later after -> Re.fullmatch (fst later) f <> Some true) /\
  (forall f,
      last_match (replace_names self) f = None <->
      forall rule, In rule (replace_names self) ->
                   Re.fullmatch (fst rule) f <> Some true) /\
  (Forall rule_supported (replace_names self) ->
   exists m, convert_fieldnames self fieldnames = Ok m).
Proof.
  split; [intros m; apply convert_fieldnames_Ok|].
  split; [intros f rule; apply last_match_Some|].
  split; [intros f; apply last_match_None|].
  apply convert_fieldnames_returns.
Qed.

(** *** C5 *)

(** The language of a sequence that starts with literal characters *)
Lemma matches_literals (l : list ascii) (items : list Re.regex) :
  forall s,
    matches (fold_right Re.Seq Re.Eps
               (map (fun a => Re.Chr (Re.CLit a)) l ++ items)) s <->
    exists rest,
      s = (string_of_list_ascii l ++ rest)%string /\
      matches (fold_right Re.Seq Re.Eps items) rest.
Proof.
  induction l as [|a l IH]; intros s; simpl.
  - split; [intros H; now exists s | intros [rest [-> H]]; exact H].
  - split.
    + intros H. inversion H as [| | | |r1 r2 s1 s2 H1 H2|]; subst.
      inversion H1 as [|c b Hb| | | |]; subst. inversion Hb; subst.
      apply IH in H2. destruct H2 as [rest [-> H2]]. now exists rest.
    + intros [rest [-> H]].
      change (String a (string_of_list_ascii l ++ rest))
        with (String a "" ++ (string_of_list_ascii l ++ rest))%string.
      constructor; [repeat constructor|]. apply IH. now exists rest.
Qed.

(** The language of [c+] *)
Lemma matches_plus_chars (c : Re.cset) (s : string) :
  matches (Re.Plus c) s <->
  s <> "" /\ Forall (in_cset c) (list_ascii_of_string s).
Proof.
  split.
  - revert s.
    assert (H : forall r s, matches r s -> r = Re.Plus c ->
                            s <> "" /\ Forall (in_cset c) (list_ascii_of_string s)).
    { induction 1 as [|c0 a Ha|c0 a Ha|c0 a s Ha Hs IH| |]; intros Hr;
        try discriminate; injection Hr as ->.
      - split; [discriminate | repeat constructor; assumption].
      - split; [discriminate|]. simpl. constructor; [assumption|].
        now apply IH. }
    intros s Hs. now apply (H _ s Hs).
  - intros [Hne Hall]. induction s as [|a s IH]; [contradiction|].
    simpl in Hall. inversion Hall as [|? ? Ha Hrest]; subst.
    destruct s as [|b s].
    + now apply matches_plus_one.
    + apply matches_plus_more; [assumption|]. apply IH; [discriminate | exact Hrest].
Qed.

Lemma matches_seq_chr (c : Re.cset) (r : Re.regex) (s : string) :
  matches (Re.Seq (Re.Chr c) r) s <->
  exists a rest, s = String a rest /\ in_cset c a /\ matches r rest.
Proof.
  split.
  - intros H. inversion H as [| | | |r1 r2 s1 s2 H1 H2|]; subst.
    inversion H1; subst. simpl. eauto.
  - intros [a [rest [-> [Ha Hr]]]].
    change (String a rest) with (String a "" ++ rest)%string.
    constructor; [now constructor | exact Hr].
Qed.

Lemma in_cset_digit (a : ascii) :
  in_cset (Re.CClass [("0"%char, "9"%char)]) a <->
  48 <= nat_of_ascii a /\ nat_of_ascii a <= 57.
Proof.
  split.
  - intros H. inversion H as [| |ranges lo hi b Hin Hlo Hhi]; subst.
    destruct Hin as [[= <- <-] | []]. simpl in Hlo, Hhi. now split.
  - intros [Hlo Hhi]. apply (in_class _ "0"%char "9"%char); simpl; auto.
Qed.

(** The language of the pattern of the claim *)
Lemma matches_org_name (f : string) : matches org_name_re f <-> org_name_key f.
Proof.
  unfold org_name_re, org_name_key, index_digits. split.
  - intros Hm.
    apply matches_literals in Hm. destruct Hm as [rest [-> Hm]].
    change (fold_right Re.Seq Re.Eps
              ([Re.Chr Re.CDot;
                Re.Group 1
                  (Re.Seq (Re.Plus (Re.CClass [("0"%char, "9"%char)])) Re.Eps);
                Re.Chr Re.CDot]
               ++ map (fun a => Re.Chr (Re.CLit a)) (list_ascii_of_string "name")))
      with (Re.Seq (Re.Chr Re.CDot)
              (Re.Seq
                 (Re.Group 1
                    (Re.Seq (Re.Plus (Re.CClass [("0"%char, "9"%char)])) Re.Eps))
                 (Re.Seq (Re.Chr Re.CDot)
                    (fold_right Re.Seq Re.Eps
                       (map (fun a => Re.Chr (Re.CLit a))
                          (list_ascii_of_string "name") ++ []))))) in Hm.
    apply matches_seq_chr in Hm. destruct Hm as [c1 [rest1 [-> [Hc1 Hm]]]].
    inversion Hc1; subst.
    inversion Hm as [| | | |r1 r2 index rest2 Hg Hrest|]; subst.
    inversion Hg as [| | | | |n0 r0 s0 Hseq]; subst.
    inversion Hseq as [| | | |r1 r2 ds e Hplus Heps|]; subst.
    inversion Heps; subst. rewrite append_nil_r in *.
    apply matches_plus_chars in Hplus. destruct Hplus as [Hne Hall].
    apply matches_seq_chr in Hrest. destruct Hrest as [c2 [rest3 [-> [Hc2 Hrest]]]].
    inversion Hc2; subst.
    apply (matches_literals (list_ascii_of_string "name") [] rest3) in Hrest.
    destruct Hrest as [rest4 [-> Heps']].
    inversion Heps'; subst.
    exists c1, ds, c2. split; [reflexivity|].
    split; [assumption|]. split; [assumption|]. split; [assumption|].
    eapply Forall_impl; [|exact Hall]. intros a. apply in_cset_digit.
  - intros [c1 [index [c2 [-> [Hc1 [Hc2 [Hne Hall]]]]]]].
    apply matches_literals. eexists. split; [reflexivity|].
    change (fold_right Re.Seq Re.Eps
              ([Re.Chr Re.CDot;
                Re.Group 1
                  (Re.Seq (Re.Plus (Re.CClass [("0"%char, "9"%char)])) Re.Eps);
                Re.Chr Re.CDot]
               ++ map (fun a => Re.Chr (Re.CLit a)) (list_ascii_of_string "name")))
      with (Re.Seq (Re.Chr Re.CDot)
              (Re.Seq
                 (Re.Group 1
                    (Re.Seq (Re.Plus (Re.CClass [("0"%char, "9"%char)])) Re.Eps))
                 (Re.Seq (Re.Chr Re.CDot)
                    (fold_right Re.Seq Re.Eps
                       (map (fun a => Re.Chr (Re.CLit a))
                          (list_ascii_of_string "name") ++ []))))).
    apply matches_seq_chr. exists c1. eexists. split; [reflexivity|].
    split; [now constructor|]. constructor.
    + constructor. rewrite <- (append_nil_r index).
      constructor; [|constructor]. apply matches_plus_chars. split; [exact Hne|].
      eapply Forall_impl; [|exact Hall]. intros a. apply in_cset_digit.
    + apply matches_seq_chr. exists c2, "name". split; [reflexivity|].
      split; [now constructor|].
      apply (matches_literals (list_ascii_of_string "name") [] "name").
      exists "". split; [reflexivity | constructor].
Qed.

Lemma compile_org_name :
  Re.compile "recipientOrganization.([0-9]+).name" = Some (org_name_re, 1).
Proof. reflexivity. Qed.

(** The pattern of the rule of the claim fully matches the strings of
    [org_name_key], and no other. *)
Lemma fullmatch_org_name (f : string) :
  Re.fullmatch "recipientOrganization.([0-9]+).name" f = Some true <->
  org_name_key f.
Proof.
  rewrite fullmatch_whole_string, compile_org_name, <- matches_org_name. split.
  - intros [r [n [Heq Hm]]]. assert (Hr : r = org_name_re) by congruence.
    now rewrite <- Hr.
  - intros Hm. now exists org_name_re, 1.
Qed.

Lemma rules_modelled_supported (rules : odict string) :
  Forall rule_modelled rules -> Forall rule_supported rules.
Proof. apply Forall_impl. intros rule [_ H]. exact H. Qed.

(** A field outside the language of the claim's pattern keeps its name. *)
Lemma org_name_rule_keeps (f : string) :
  ~ org_name_key f ->
  convert_fieldnames
    (set_replace_names (init None)
       [("recipientOrganization.([0-9]+).name", "recipientOrganization:\1:Org Name")])
    [f]
  = Ok [(f, f)].
Proof.
  intros Hout.
  assert (Hm : Re.fullmatch "recipientOrganization.([0-9]+).name" f = Some false).
  { destruct (Re.fullmatch "recipientOrganization.([0-9]+).name" f)
      as [[|]|] eqn:E; [| reflexivity |].
    - apply fullmatch_org_name in E. contradiction.
    - unfold Re.fullmatch in E. rewrite compile_org_name in E. discriminate. }
  unfold convert_fieldnames.
  change (replace_names (set_replace_names (init None)
            [("recipientOrganization.([0-9]+).name",
              "recipientOrganization:\1:Org Name")]))
    with [("recipientOrganization.([0-9]+).name",
           "recipientOrganization:\1:Org Name")].
  change (od_of_pairs (combine [f] [f])) with [(f, f)].
  cbn [for_fold fst snd od_keys map]. unfold apply_rule. rewrite Hm. reflexivity.
Qed.

(** C5: with ASCII field names and rules on which the model of [re] stands
    for Python's (ASCII patterns, pattern and template inside the modelled
    fragment), the mapping returns, and it replaces the mapped value of a
    field only when the whole field name is in the language of a rule's
    pattern; the new value is then [re.sub] of that rule's template on the
    field name.  A field that no pattern matches as a whole keeps its name,
    even where a pattern matches a part of it.  The pattern
    [recipientOrganization.([0-9]+).name] fully matches exactly the names
    made of [recipientOrganization], one character, an index, one character
    and [name]; every other name is left alone by its rule, and mapping
    ["recipientOrganization.0.name"] with the rule
    ("recipientOrganization.([0-9]+).name", "recipientOrganization:\1:Org Name")
    yields {"recipientOrganization.0.name": "recipientOrganization:0:Org Name"}.
    A template refers to the groups by their numbers. *)
Theorem convert_fieldnames_full_match (self : t) (fieldnames : list string) :
  Forall rule_modelled (replace_names self) ->
  forallb ascii_only fieldnames = true ->
  (exists m,
      convert_fieldnames self fieldnames = Ok m /\
      od_keys m = first_seen fieldnames /\
      (forall f v,
          In f fieldnames -> od_get f m = Some v -> v <> f ->
          exists old new r ngroups,
            In (old, new) (replace_names self) /\
            Re.compile old = Some (r, ngroups) /\ matches r f /\
            Re.sub old new f = Some v) /\
      (forall f,
          In f fieldnames ->
          (forall old new r ngroups,
              In (old, new) (replace_names self) ->
              Re.compile old = Some (r, ngroups) -> ~ matches r f) ->
          od_get f m = Some f)) /\
  (forall f,
      In f fieldnames ->
      (Re.fullmatch "recipientOrganization.([0-9]+).name" f = Some true <->
       org_name_key f) /\
      (~ org_name_key f ->
       convert_fieldnames
         (set_replace_names (init None)
            [("recipientOrganization.([0-9]+).name",
              "recipientOrganization:\1:Org Name")])
         [f]
       = Ok [(f, f)])) /\
  convert_fieldnames
    (set_replace_names (init None)
       [("recipientOrganization.([0-9]+).name", "recipientOrganization:\1:Org Name")])
    ["recipientOrganization.0.name"]
  = Ok [("recipientOrganization.0.name", "recipientOrganization:0:Org Name")] /\
  convert_fieldnames
    (set_replace_names (init None)
       [("a.([0-9]+).b.([0-9]+).c", "A:\2:B:\1:C")])
    ["a.3.b.12.c"]
  = Ok [("a.3.b.12.c", "A:12:B:3:C")].
Proof.
  intros Hrules _. split; [|split; [|split; reflexivity]].
  - destruct (convert_fieldnames_returns self fieldnames
                (rules_modelled_supported _ Hrules)) as [m Hrun].
    exists m. split; [exact Hrun|].
    apply convert_fieldnames_Ok in Hrun. destruct Hrun as [Hkeys Hget].
    split; [exact Hkeys|]. split.
    + intros f v Hf Hv Hne. rewrite (Hget f Hf) in Hv.
      destruct (last_match (replace_names self) f) as [[old new]|] eqn:Hlast.
      * apply last_match_Some in Hlast.
        destruct Hlast as [before [after [Hin [Hm _]]]]. simpl in *.
        apply fullmatch_whole_string in Hm. destruct Hm as [r [n [Hc Hm]]].
        exists old, new, r, n. repeat split; auto.
        rewrite Hin. apply in_or_app. right. now left.
      * congruence.
    + intros f Hf Hnone. rewrite (Hget f Hf).
      destruct (last_match (replace_names self) f) as [[old new]|] eqn:Hlast;
        [|reflexivity].
      apply last_match_Some in Hlast.
      destruct Hlast as [before [after [Hin [Hm _]]]]. simpl in *.
      apply fullmatch_whole_string in Hm. destruct Hm as [r [n [Hc Hm]]].
      exfalso. apply (Hnone old new r n); auto.
      rewrite Hin. apply in_or_app. right. now left.
  - intros f _. split; [apply fullmatch_org_name | apply org_name_rule_keeps].
Qed.

Lemma convert_fieldnames_full_match_witness :
  exists m,
    convert_fieldnames
      (set_replace_names (init None)
         [("recipientOrganization", "Recipient Org");
          ("recipientOrganization.([0-9]+).name",
           "recipientOrganization:\1:Org Name")])
      ["recipientOrganization.0.name"; "recipientOrganization.0.id";
       "recipientOrganization.0.name.first"; "xrecipientOrganization"]
    = Ok m /\
    m = [("recipientOrganization.0.name", "recipientOrganization:0:Org Name");
         ("recipientOrganization.0.id", "recipientOrganization.0.id");
         ("recipientOrganization.0.name.first",
          "recipientOrganization.0.name.first");
         ("xrecipientOrganization", "xrecipientOrganization")] /\
    od_get "recipientOrganization.0.id" m = Some "recipientOrganization.0.id" /\
    org_name_key "recipientOrganization.0.name" /\
    ~ org_name_key "recipientOrganization.0.name.first".
Proof.
  destruct (convert_fieldnames_full_match
              (set_replace_names (init None)
                 [("recipientOrganization", "Recipient Org");
                  ("recipientOrganization.([0-9]+).name",
                   "recipientOrganization:\1:Org Name")])
              ["recipientOrganization.0.name"; "recipientOrganization.0.id";
               "recipientOrganization.0.name.first"; "xrecipientOrganization"])
    as [[m [Hrun [_ [_ Hkept]]]] [Hlang _]].
  - repeat constructor; simpl; eexists; eexists; eexists;
      (split; [reflexivity | reflexivity]).
  - reflexivity.
  - exists m. split; [exact Hrun|]. split; [|split; [|split]].
    + vm_compute in Hrun. now injection Hrun as <-.
    + apply Hkept.
      * right. now left.
      * intros old new r ngroups [H | [H | []]] Hc Hm;
          injection H as <- <-; vm_compute in Hc; injection Hc as <- <-;
          apply fullmatch_re_matches in Hm; vm_compute in Hm; discriminate.
    + apply (Hlang "recipientOrganization.0.name"); [now left | reflexivity].
    + intros Hkey.
      apply (Hlang "recipientOrganization.0.name.first") in Hkey;
        [|right; right; now left].
      vm_compute in Hkey. discriminate.
Defined.

(* ================================================================== *)
(** ** Further properties of [Grant.to_flat] *)

Lemma flatten_items_scalars (items : list (string * json)) :
  forallb (fun kv => negb (is_container (snd kv))) items = true ->
  flatten_items items "" = items.
Proof.
  unfold flatten_items. induction items as [|[k x] items IH]; [reflexivity|].
  cbn [flat_map forallb fst snd]. intros H.
  apply andb_true_iff in H. destruct H as [Hx Hitems].
  apply negb_true_iff in Hx. rewrite (IH Hitems).
  unfold flatten_value. rewrite Hx. reflexivity.
Qed.

(** X1: a record that holds scalar values only is its own flat row: one
    pair per field, keys and values unchanged, in the same order. *)
Theorem to_flat_scalar_record (record : odict json) :
  forallb (fun kv => negb (is_container (snd kv))) record = true ->
  NoDup (od_keys record) ->
  Grant.to_flat record = record.
Proof.
  intros Hscalar Hnd. unfold Grant.to_flat.
  rewrite flatten_dict, (flatten_items_scalars record Hscalar).
  now apply od_of_pairs_NoDup.
Qed.

Lemma to_flat_scalar_record_witness :
  Grant.to_flat [("id", JStr "g1"); ("amount", JInt 5); ("note", JNull)]
  = [("id", JStr "g1"); ("amount", JInt 5); ("note", JNull)].
Proof.
  apply to_flat_scalar_record; [reflexivity|].
  apply unique_NoDup. reflexivity.
Defined.

(** With no sequence or mapping under the empty name, the code's key of a
    leaf is its path joined by dots. *)
Lemma flat_key_of_leaf (record : odict json) (leaf : list string * json) :
  named_containers record = true ->
  In leaf (leaves (JDict record)) ->
  flat_key "" (fst leaf) = dotted (fst leaf).
Proof.
  intros Hnamed Hin. rewrite leaves_dict in Hin. apply in_leaves_of_items in Hin.
  destruct Hin as [[k y] [leaf' [Hkv [Hin ->]]]]. simpl in *.
  unfold named_containers in Hnamed. rewrite forallb_forall in Hnamed.
  specialize (Hnamed (k, y) Hkv). simpl in Hnamed.
  destruct (is_container y) eqn:Hy.
  - simpl in Hnamed. apply negb_true_iff, String.eqb_neq in Hnamed.
    unfold flat_key. simpl fold_left. now apply flat_key_dotted.
  - rewrite (leaves_scalar y Hy) in Hin. destruct Hin as [<- | []]. reflexivity.
Qed.

(** X2: in a record whose field names are free of dots (and no sequence or
    mapping sits under the empty name), the flat row maps the dotted path
    of every scalar to that scalar, and has no other entry. *)
Theorem to_flat_lookup (record : odict json) (k : string) (v : json) :
  plain_keys (JDict record) = true ->
  named_containers record = true ->
  (od_get k (Grant.to_flat record) = Some v <->
   exists path, In (path, v) (leaves (JDict record)) /\ k = dotted path).
Proof.
  intros Hplain Hnamed.
  destruct (flat_keys_distinct record Hplain Hnamed) as [Hnd ->].
  assert (Hl : Grant.flatten (JDict record) "" =
               map (fun leaf => (flat_key "" (fst leaf), snd leaf))
                 (leaves (JDict record)))
    by exact (flatten_value_leaves (JDict record) "").
  split.
  - intros Hget. apply od_get_In in Hget. rewrite Hl in Hget.
    apply in_map_iff in Hget. destruct Hget as [[path v'] [[= <- <-] Hin]].
    exists path. split; [assumption|].
    exact (flat_key_of_leaf record (path, v') Hnamed Hin).
  - intros [path [Hin ->]]. apply od_get_NoDup; [assumption|].
    rewrite Hl. apply in_map_iff. exists (path, v). split; [|assumption].
    simpl. f_equal. exact (flat_key_of_leaf record (path, v) Hnamed Hin).
Qed.

Lemma to_flat_lookup_witness :
  od_get "recipientOrganization.1.name"
    (Grant.to_flat
       [("id", JStr "g1");
        ("recipientOrganization",
         JList [JDict [("name", JStr "A")]; JDict [("name", JStr "B")]])])
  = Some (JStr "B").
Proof.
  apply to_flat_lookup; [reflexivity | reflexivity |].
  exists ["recipientOrganization"; "1"; "name"]. split; [|reflexivity].
  simpl. tauto.
Defined.

(* ================================================================== *)
(** ** Further properties of the loaders and of [to_flatfile] *)

Import Output.
Import Records.

(** What [from_json] returns *)
Lemma from_json_Ok (w : world) (f : string) (url : option string) (c : t) :
  from_json w f url = Ok c ->
  exists sch props,
    load_json w f = Some (data c) /\
    get_schema w (schema_url c) = Some sch /\
    od_get root_id sch = Some props /\
    surfaced (iter_errors w sch (data c)) = Ok [] /\
    c = {| schema_ := Some sch; schema_url := schema_url (init url);
           validator := Some (iter_errors w sch); errors := [];
           valid := true; replace_names := recurse_names props [] "" "";
           data := data c |}.
Proof.
  intros H.
  destruct (load_json w f) as [d|] eqn:Hload;
    [|unfold from_json in H; rewrite Hload in H; discriminate].
  destruct (get_schema w (schema_url (init url))) as [sch|] eqn:Hget;
    [|unfold from_json, fetch_schema in H; rewrite Hload in H;
      cbn [lift bind] in H;
      change (schema_url (set_data (init url) d)) with (schema_url (init url)) in H;
      rewrite Hget in H; discriminate].
  destruct (od_get root_id sch) as [props|] eqn:Hroot;
    [|unfold from_json, fetch_schema in H; rewrite Hload in H;
      cbn [lift bind] in H;
      change (schema_url (set_data (init url) d)) with (schema_url (init url)) in H;
      rewrite Hget in H; cbn [lift bind] in H; rewrite Hroot in H; discriminate].
  rewrite (from_json_steps w f url d sch props Hload Hget Hroot) in H.
  destruct (surfaced (iter_errors w sch d)) as [errs|] eqn:Herrs; [|discriminate].
  simpl in H. destruct errs as [|e errs]; [|discriminate].
  injection H as <-. simpl. exists sch, props. repeat split; auto.
Qed.

(** The object that [from_json] returns *)
Lemma from_json_returns_validated_aux (w : world) (f : string)
    (url : option string) (c : t) :
  from_json w f url = Ok c ->
  valid c = true /\ errors c = [] /\
  load_json w f = Some (to_json c) /\
  get_errors c (to_json c) = Ok [] /\
  is_valid c = ([], true) /\
  exists sch props,
    schema_ c = Some sch /\ get_schema w (schema_url c) = Some sch /\
    od_get root_id sch = Some props /\
    replace_names c = recurse_names props [] "" "".
Proof.
  intros H. apply from_json_Ok in H.
  destruct H as [sch [props [Hload [Hget [Hroot [Herrs Hc]]]]]].
  unfold to_json, is_valid, get_errors. rewrite Hc. simpl.
  rewrite Hc in Hload, Hget, Herrs. simpl in Hload, Hget, Herrs.
  repeat split; auto. exists sch, props. auto.
Qed.

(** X4: an object returned by [from_json] is marked valid and has no
    errors; its data is the document read from the file, which is also
    what [to_json] writes back; validating that data again with the
    object's validator surfaces no error; [is_valid] returns True and
    prints nothing; and its rename rules are those derived from the
    fetched schema. *)
Theorem from_json_returns_validated (w : world) (f : string)
    (url : option string) (c : t) :
  from_json w f url = Ok c ->
  valid c = true /\ errors c = [] /\
  load_json w f = Some (to_json c) /\
  get_errors c (to_json c) = Ok [] /\
  is_valid c = ([], true) /\
  exists sch props,
    schema_ c = Some sch /\ get_schema w (schema_url c) = Some sch /\
    od_get root_id sch = Some props /\
    replace_names c = recurse_names props [] "" "".
Proof. exact (from_json_returns_validated_aux w f url c). Qed.

Lemma from_json_returns_validated_witness :
  exists c,
    from_json
      (mkWorld (fun _ => Some (JDict [("grants", JList [])]))
         (fun _ => Some [("grants", [("id", SchemaProp (Some "Identifier") None [])])])
         (fun _ _ => []) (fun _ _ => None))
      "grants.json" None = Ok c /\
    valid c = true /\ to_json c = JDict [("grants", JList [])] /\
    replace_names c = [("id", "Identifier")].
Proof.
  eexists. split; [reflexivity|].
  destruct (from_json_returns_validated
              (mkWorld (fun _ => Some (JDict [("grants", JList [])]))
                 (fun _ => Some [("grants",
                                  [("id", SchemaProp (Some "Identifier") None [])])])
                 (fun _ _ => []) (fun _ _ => None))
              "grants.json" None _ eq_refl) as [Hvalid _].
  split; [exact Hvalid|]. split; reflexivity.
Defined.

Lemma from_file_recognised (w : world) (f filetype : string) (url : option string) :
  In filetype ["json"; "csv"; "xlsx"; "xls"; "excel"] ->
  from_file w f filetype url =
  (c <- (if String.eqb filetype "json" then from_json w f url
         else if String.eqb filetype "csv" then from_csv w f url
              else from_excel w f url) ;;
   Ok (Some c)).
Proof.
  intros H. unfold from_file. simpl in H.
  destruct H as [<- | [<- | [<- | [<- | [<- | []]]]]]; reflexivity.
Qed.

(** When [from_file] returns None *)
Lemma from_file_None_iff_aux (w : world) (f filetype : string) (url : option string) :
  from_file w f filetype url = Ok None <->
  ~ In filetype ["json"; "csv"; "xlsx"; "xls"; "excel"].
Proof.
  split.
  - intros H Hin. rewrite (from_file_recognised w f filetype url Hin) in H.
    destruct (if String.eqb filetype "json" then from_json w f url
              else if String.eqb filetype "csv" then from_csv w f url
                   else from_excel w f url); discriminate.
  - intros H. unfold from_file.
    destruct (String.eqb_spec filetype "json") as [->|_];
      [exfalso; apply H; simpl; tauto|].
    destruct (String.eqb_spec filetype "csv") as [->|_];
      [exfalso; apply H; simpl; tauto|].
    destruct (mem filetype ["xlsx"; "xls"; "excel"]) eqn:Hm; [|reflexivity].
    apply mem_In in Hm. exfalso. apply H. simpl in *. tauto.
Qed.

(** X3: [from_file] returns None exactly when the filetype is not one of
    json, csv, xlsx, xls and excel; for these five it returns an object or
    raises. *)
Theorem from_file_None_iff (w : world) (f filetype : string) (url : option string) :
  from_file w f filetype url = Ok None <->
  ~ In filetype ["json"; "csv"; "xlsx"; "xls"; "excel"].
Proof. exact (from_file_None_iff_aux w f filetype url). Qed.

Lemma from_json_validated (w : world) (f : string) (url : option string) (c : t) :
  from_json w f url = Ok c -> validated c.
Proof.
  intros H.
  destruct (from_json_returns_validated_aux w f url c H)
    as [H1 [H2 [_ [H3 [H4 _]]]]].
  unfold validated. auto.
Qed.

Lemma from_file_validated (w : world) (f filetype : string) (url : option string)
    (c : t) :
  from_file w f filetype url = Ok (Some c) -> validated c.
Proof.
  unfold from_file, from_csv, from_excel. intros H.
  destruct (String.eqb filetype "json").
  - destruct (from_json w f url) as [c'|] eqn:Hj; [|discriminate].
    injection H as <-. exact (from_json_validated _ _ _ _ Hj).
  - destruct (String.eqb filetype "csv").
    + destruct (unflatten w "csv" f) as [out|]; [|discriminate]. simpl in H.
      destruct (from_json w out url) as [c'|] eqn:Hj; [|discriminate].
      injection H as <-. exact (from_json_validated _ _ _ _ Hj).
    + destruct (mem filetype ["xlsx"; "xls"; "excel"]); [|discriminate].
      destruct (unflatten w "xlsx" f) as [out|]; [|discriminate]. simpl in H.
      destruct (from_json w out url) as [c'|] eqn:Hj; [|discriminate].
      injection H as <-. exact (from_json_validated _ _ _ _ Hj).
Qed.

(** X5: whichever loader returns an object ([from_file] for any of its
    filetypes, hence [from_csv] and [from_excel], and [from_url]), the
    object is marked valid, has an empty error list, passes its own
    validator again with no surfaced error, and [is_valid] answers True
    without printing. *)
Theorem loaders_return_validated (w : world) (c : t) :
  (forall f filetype url,
      from_file w f filetype url = Ok (Some c) -> validated c) /\
  (forall f url, from_csv w f url = Ok c -> validated c) /\
  (forall f url, from_excel w f url = Ok c -> validated c) /\
  (forall net address filetype url,
      from_url w net address filetype url = Ok (Some c) -> validated c).
Proof.
  split; [intros f filetype url; apply from_file_validated|].
  split; [|split].
  - intros f url H. unfold from_csv in H.
    destruct (unflatten w "csv" f) as [out|]; [|discriminate].
    exact (from_json_validated _ _ _ _ H).
  - intros f url H. unfold from_excel in H.
    destruct (unflatten w "xlsx" f) as [out|]; [|discriminate].
    exact (from_json_validated _ _ _ _ H).
  - intros net address filetype url H. unfold from_url in H.
    destruct (get net address) as [r|]; [|discriminate]. simpl in H.
    destruct (match filetype with
              | Some ft => if String.eqb ft "" then guess_filetype r address else Ok ft
              | None => guess_filetype r address
              end) as [ft|]; [|discriminate].
    simpl in H.
    match type of H with
    | context [mkstemp ?n ?suffix ?body] =>
        destruct (mkstemp n suffix body) as [path|]
    end; [|discriminate].
    simpl in H. exact (from_file_validated _ _ _ _ _ H).
Qed.

(** *** to_flatfile *)

Lemma for_each_init (gs : list json) :
  (existsb not_a_record gs = true /\ for_each Grant.init gs = Raise TypeError) \/
  (existsb not_a_record gs = false /\ exists records, for_each Grant.init gs = Ok records /\
                                                       gs = map JDict records).
Proof.
  induction gs as [|g gs IH]; simpl.
  - right. split; [reflexivity|]. now exists [].
  - destruct g as [| | | | |l|fields]; simpl; try (left; split; reflexivity).
    destruct (od_mem "self" fields); simpl; [left; split; reflexivity|].
    destruct IH as [[Hbad ->] | [Hgood [records [-> ->]]]].
    + left. split; [assumption | reflexivity].
    + right. split; [assumption|]. now exists (fields :: records).
Qed.

(** Where no grant hides the method, the loop of [to_flatfile] flattens
    every grant. *)
Lemma to_flatfile_visible (self : t) :
  methods_visible self = true ->
  to_flatfile self =
  (gs <- iter self ;;
   Ok (map Grant.to_flat gs,
       add_fieldnames (flat_map (fun g => od_keys (Grant.to_flat g)) gs) [])).
Proof.
  unfold methods_visible, to_flatfile.
  destruct (iter self) as [gs|e]; cbn [bind]; [|reflexivity].
  intros Hv. now rewrite to_flatfile_run, Hv.
Qed.

(** X6: a document without its root list exports to no rows and no field
    names; with a root list none of whose records has a field named
    [to_flat] (which would hide the method), [to_flatfile] raises TypeError
    exactly when some element of the list is not a mapping or has a field
    named [self], and returns one flat row per record otherwise. *)
Theorem to_flatfile_fails_iff (self : t) (d : odict json) :
  methods_visible self = true ->
  data self = JDict d ->
  (od_get root_id d = None -> to_flatfile self = Ok ([], [])) /\
  (forall gs,
      od_get root_id d = Some (JList gs) ->
      (to_flatfile self = Raise TypeError <-> existsb not_a_record gs = true) /\
      ((exists rows fieldnames,
           to_flatfile self = Ok (rows, fieldnames) /\
           List.length rows = List.length gs) <->
       existsb not_a_record gs = false)).
Proof.
  intros Hv Hd. rewrite (to_flatfile_visible self Hv). unfold iter.
  rewrite Hd. split.
  - intros ->. reflexivity.
  - intros gs ->. simpl.
    destruct (for_each_init gs) as [[Hbad ->] | [Hgood [records [-> ->]]]]; simpl.
    + rewrite Hbad. split; [tauto|]. split; [|discriminate].
      intros [rows [fieldnames [H _]]]. discriminate.
    + rewrite Hgood. split; [split; discriminate|]. split; [reflexivity|].
      intros _. eexists. eexists. split; [reflexivity|]. now rewrite !length_map.
Qed.

Lemma to_flatfile_fails_iff_witness :
  to_flatfile (set_data (init None) (JDict [("grants", JList [JDict []; JInt 3])]))
  = Raise TypeError /\
  to_flatfile (init None) = Ok ([], []).
Proof.
  split.
  - destruct (to_flatfile_fails_iff
                (set_data (init None) (JDict [("grants", JList [JDict []; JInt 3])]))
                [("grants", JList [JDict []; JInt 3])] eq_refl eq_refl) as [_ H].
    destruct (H [JDict []; JInt 3] eq_refl) as [[_ Hraise] _].
    apply Hraise. reflexivity.
  - destruct (to_flatfile_fails_iff (init None) [] eq_refl eq_refl) as [H _].
    apply H. reflexivity.
Defined.

(* ================================================================== *)
(** ** Properties of [to_csv] and [to_excel] *)

Lemma flat_map_map {A B C : Type} (f : A -> B) (g : B -> list C) (l : list A) :
  flat_map g (map f l) = flat_map (fun x => g (f x)) l.
Proof. induction l as [|x l IH]; simpl; [reflexivity | now rewrite IH]. Qed.

(** What [to_flatfile] returns: the field names are the keys of the rows
    in first-seen order. *)
Lemma to_flatfile_Ok (self : t) (flat : list (odict json) * list string) :
  to_flatfile self = Ok flat ->
  snd flat = first_seen (flat_map od_keys (fst flat)).
Proof.
  unfold to_flatfile. destruct (iter self) as [gs|]; [|discriminate].
  cbn [bind]. rewrite to_flatfile_run.
  destruct (forallb (fun g => negb (od_mem "to_flat" g)) gs); [|discriminate].
  rewrite add_fieldnames_first_seen. simpl.
  intros [= <-]. simpl. rewrite flat_map_map.
  apply forallb_filter_id, forallb_forall. reflexivity.
Qed.

Lemma to_flatfile_keys (self : t) (flat : list (odict json) * list string)
    (row : odict json) (k : string) :
  to_flatfile self = Ok flat -> In row (fst flat) -> In k (od_keys row) ->
  In k (snd flat).
Proof.
  intros H Hrow Hk. rewrite (to_flatfile_Ok self flat H).
  apply in_first_seen, in_flat_map. now exists row.
Qed.

Lemma writerow_cells (fieldnames : list string) (row : odict json) :
  (forall k, In k (od_keys row) -> In k fieldnames) ->
  Csv.writerow fieldnames row = Ok (cells fieldnames (JStr "") row).
Proof.
  intros H. unfold Csv.writerow, Csv.dict_to_list.
  assert (Hall : forallb (fun k => mem k fieldnames) (od_keys row) = true).
  { apply forallb_forall. intros k Hk. apply mem_In. now apply H. }
  now rewrite Hall.
Qed.

Lemma writerows_cells (fieldnames : list string) (rows : list (odict json)) :
  (forall row k, In row rows -> In k (od_keys row) -> In k fieldnames) ->
  for_each (Csv.writerow fieldnames) rows =
  Ok (map (cells fieldnames (JStr "")) rows).
Proof.
  induction rows as [|row rows IH]; intros H; simpl; [reflexivity|].
  rewrite writerow_cells
    by (intros k Hk; apply (H row k); [now left | exact Hk]).
  simpl. rewrite IH
    by (intros r k Hr Hk; apply (H r k); [now right | exact Hk]).
  reflexivity.
Qed.

(** Looking up the keys of a dictionary in their order gives its values. *)
Lemma cells_own_keys (d : odict json) (restval : json) :
  NoDup (od_keys d) -> cells (od_keys d) restval d = map snd d.
Proof.
  unfold cells, od_keys. induction d as [|[k v] d IH]; intros Hnd; simpl;
    [reflexivity|].
  inversion Hnd as [|? ? Hk Hnd']; subst. rewrite String.eqb_refl. f_equal.
  rewrite <- (IH Hnd'). apply map_ext_in. intros k' Hk'.
  destruct (String.eqb_spec k' k) as [->|_]; [contradiction | reflexivity].
Qed.

Lemma writeheader_cells (fieldnames : list string) :
  NoDup fieldnames -> Csv.writeheader fieldnames = Ok (map JStr fieldnames).
Proof.
  intros Hnd. unfold Csv.writeheader.
  assert (Hc : combine fieldnames (map JStr fieldnames) =
               map (fun f => (f, JStr f)) fieldnames).
  { clear Hnd. induction fieldnames as [|f l IH]; simpl; [reflexivity|].
    now rewrite IH. }
  assert (Hk : od_keys (map (fun f => (f, JStr f)) fieldnames) = fieldnames).
  { unfold od_keys. rewrite map_map. apply map_id. }
  rewrite Hc, od_of_pairs_NoDup by now rewrite <- Hk in Hnd.
  rewrite writerow_cells by (intros k; now rewrite Hk).
  f_equal. rewrite <- Hk at 1. rewrite cells_own_keys by now rewrite Hk.
  now rewrite map_map.
Qed.

Lemma display_header (fieldnames : list string) (names : odict string) :
  od_keys names = fieldnames -> NoDup fieldnames ->
  Csv.writerow fieldnames (display_names names)
  = Ok (map (fun kv => JStr (snd kv)) names).
Proof.
  intros Hk Hnd.
  assert (Hkd : od_keys (display_names names) = fieldnames).
  { unfold od_keys, display_names. rewrite map_map. exact Hk. }
  rewrite writerow_cells by (intros k; now rewrite Hkd).
  f_equal. rewrite <- Hkd at 1. rewrite cells_own_keys by now rewrite Hkd.
  unfold display_names. now rewrite map_map.
Qed.

(** The two loops of [convert_fieldnames] raise nothing but [re.error]. *)
Lemma convert_fieldnames_raises (self : t) (fieldnames : list string) (e : exn) :
  convert_fieldnames self fieldnames = Raise e -> e = ReError.
Proof.
  unfold convert_fieldnames.
  generalize (od_of_pairs (combine fieldnames fieldnames)) as st.
  generalize (replace_names self) as rules.
  induction rules as [|[old new] rules IH]; intros st; simpl; [discriminate|].
  assert (Hinner : forall fields st0,
             for_fold (apply_rule old new) fields st0 = Raise e -> e = ReError).
  { induction fields as [|f fields IHf]; intros st0; simpl; [discriminate|].
    unfold apply_rule at 1.
    destruct (Re.fullmatch old f) as [[|]|]; simpl.
    - destruct (Re.sub old new f); simpl; [apply IHf | now intros [= <-]].
    - apply IHf.
    - now intros [= <-]. }
  destruct (for_fold (apply_rule old new) (od_keys st) st) eqn:Hi; simpl.
  - apply IH.
  - intros [= <-]. exact (Hinner _ _ Hi).
Qed.

Lemma to_flatfile_raises (self : t) (e : exn) :
  to_flatfile self = Raise e -> e = TypeError \/ e = AttributeError.
Proof.
  unfold to_flatfile, iter. destruct (data self); simpl;
    try (intros [= <-]; now right).
  destruct (od_get root_id d) as [grants|]; simpl; [|discriminate].
  destruct (iterate grants) as [gs|e'] eqn:Hit; simpl.
  - destruct (for_each_init gs) as [[_ ->] | [_ [records [-> _]]]]; cbn [bind];
      [intros [= <-]; now left|].
    rewrite to_flatfile_run.
    destruct (forallb (fun g => negb (od_mem "to_flat" g)) records);
      [discriminate | intros [= <-]; now left].
  - intros [= <-]. left. destruct grants; simpl in Hit; congruence.
Qed.

(** The table that [to_csv] writes *)
Lemma to_csv_Ok (self : t) (flat : list (odict json) * list string) :
  to_flatfile self = Ok flat ->
  to_csv self false =
    Ok (map JStr (snd flat) :: map (cells (snd flat) (JStr "")) (fst flat)) /\
  forall names,
    convert_fieldnames self (snd flat) = Ok names ->
    od_keys names = snd flat /\
    to_csv self true =
      Ok (map (fun kv => JStr (snd kv)) names
          :: map (cells (snd flat) (JStr "")) (fst flat)).
Proof.
  intros Hflat.
  assert (Hnd : NoDup (snd flat)).
  { rewrite (to_flatfile_Ok self flat Hflat). apply first_seen_NoDup. }
  assert (Hrows : for_each (Csv.writerow (snd flat)) (fst flat) =
                  Ok (map (cells (snd flat) (JStr "")) (fst flat))).
  { apply writerows_cells. intros row k.
    exact (to_flatfile_keys self flat row k Hflat). }
  split.
  - unfold to_csv. rewrite Hflat. simpl.
    rewrite (writeheader_cells _ Hnd). simpl. now rewrite Hrows.
  - intros names Hnames.
    assert (Hk : od_keys names = snd flat).
    { apply convert_fieldnames_Ok in Hnames. destruct Hnames as [-> _].
      now apply first_seen_id. }
    split; [exact Hk|]. unfold to_csv. rewrite Hflat. simpl.
    rewrite Hnames. simpl. rewrite (display_header _ _ Hk Hnd). simpl.
    now rewrite Hrows.
Qed.

(** X7: for a document none of whose records has a field named [to_flat]
    (which would hide the method): whenever the flat export succeeds,
    [to_csv] writes a table of one header row and one row per record, every
    row with exactly one cell per field name: the value of the field in the
    flat row, or the empty string where the row has none.  The header holds
    the field names themselves or, with conversion, their display names in
    the order of the field names.  The error of [csv.DictWriter] for a key
    that is no field name never occurs: [to_csv] raises no ValueError. *)
Theorem to_csv_table (self : t) (convert : bool) :
  methods_visible self = true ->
  (forall flat,
      to_flatfile self = Ok flat ->
      to_csv self false =
        Ok (map JStr (snd flat) :: map (cells (snd flat) (JStr "")) (fst flat)) /\
      (forall names,
          convert_fieldnames self (snd flat) = Ok names ->
          od_keys names = snd flat /\
          to_csv self true =
            Ok (map (fun kv => JStr (snd kv)) names
                :: map (cells (snd flat) (JStr "")) (fst flat)))) /\
  (forall table,
      to_csv self convert = Ok table ->
      exists flat header,
        to_flatfile self = Ok flat /\
        table = header :: map (cells (snd flat) (JStr "")) (fst flat) /\
        Forall (fun row => List.length row = List.length (snd flat)) table) /\
  (forall msg, to_csv self convert <> Raise (ValueError msg)).
Proof.
  intros _. split; [intros flat; apply to_csv_Ok|]. split.
  - intros table H.
    destruct (to_flatfile self) as [flat|] eqn:Hflat;
      [|unfold to_csv in H; rewrite Hflat in H; discriminate].
    destruct (to_csv_Ok self flat Hflat) as [Hplain Hconv].
    assert (Hwidth : Forall (fun row => List.length row = List.length (snd flat))
                       (map (cells (snd flat) (JStr "")) (fst flat))).
    { apply Forall_forall. intros row Hrow. apply in_map_iff in Hrow.
      destruct Hrow as [r [<- _]]. unfold cells. apply length_map. }
    destruct convert.
    + destruct (convert_fieldnames self (snd flat)) as [names|] eqn:Hnames.
      * destruct (Hconv names eq_refl) as [Hk Hcsv]. rewrite Hcsv in H.
        injection H as <-. eexists. eexists. split; [reflexivity|].
        split; [reflexivity|]. constructor; [|exact Hwidth].
        rewrite length_map, <- Hk. unfold od_keys. now rewrite length_map.
      * unfold to_csv in H. rewrite Hflat in H. simpl in H.
        rewrite Hnames in H. discriminate.
    + rewrite Hplain in H. injection H as <-. eexists. eexists.
      split; [reflexivity|]. split; [reflexivity|].
      constructor; [apply length_map | exact Hwidth].
  - intros msg H.
    destruct (to_flatfile self) as [flat|e] eqn:Hflat.
    + destruct (to_csv_Ok self flat Hflat) as [Hplain Hconv]. destruct convert.
      * destruct (convert_fieldnames self (snd flat)) as [names|e] eqn:Hnames.
        -- destruct (Hconv names eq_refl) as [_ Hcsv]. congruence.
        -- unfold to_csv in H. rewrite Hflat in H. simpl in H.
           rewrite Hnames in H. simpl in H. injection H as ->.
           apply convert_fieldnames_raises in Hnames. discriminate.
      * congruence.
    + unfold to_csv in H. rewrite Hflat in H. simpl in H. injection H as ->.
      apply to_flatfile_raises in Hflat. destruct Hflat; discriminate.
Qed.

(** The loop of [to_excel] returns exactly when the worksheet takes every
    row: record number i at row i + 1, with None where the row has no
    value. *)
Lemma write_rows_Ok (x : xlsx) (fieldnames : list string)
    (data : list (odict json)) :
  forall row rows,
    write_rows x row fieldnames data = Ok rows <->
    rows = combine (seq (row + 1) (List.length data))
             (map (cells fieldnames JNull) data) /\
    Forall (fun rc => write_row x (fst rc) (snd rc) = None) rows.
Proof.
  induction data as [|r data IH]; intros row rows.
  - simpl. split.
    + intros [= <-]. split; [reflexivity | constructor].
    + intros [-> _]. reflexivity.
  - change (write_rows x row fieldnames (r :: data))
      with (match write_row x (row + 1) (cells fieldnames JNull r) with
            | Some e => Raise e
            | None =>
                rest <- write_rows x (S row) fieldnames data ;;
                Ok ((row + 1, cells fieldnames JNull r) :: rest)
            end).
    change (combine (seq (row + 1) (List.length (r :: data)))
              (map (cells fieldnames JNull) (r :: data)))
      with ((row + 1, cells fieldnames JNull r)
            :: combine (seq (S row + 1) (List.length data))
                 (map (cells fieldnames JNull) data)).
    destruct (write_row x (row + 1) (cells fieldnames JNull r)) as [e|] eqn:Hw.
    + split; [discriminate|]. intros [-> Hall].
      inversion Hall as [|? ? Hhead _]; subst. simpl in Hhead. congruence.
    + destruct (write_rows x (S row) fieldnames data) as [rest|e] eqn:Hrest;
        cbn [bind].
      * apply IH in Hrest. destruct Hrest as [-> Hall]. split.
        -- intros [= <-]. split; [reflexivity|]. now constructor.
        -- intros [-> _]. reflexivity.
      * split; [discriminate|]. intros [-> Hall].
        inversion Hall as [|? ? _ Htail]; subst.
        assert (Hok : write_rows x (S row) fieldnames data =
                      Ok (combine (seq (S row + 1) (List.length data))
                            (map (cells fieldnames JNull) data))).
        { apply IH. split; [reflexivity | exact Htail]. }
        congruence.
Qed.

(** The header that [to_csv] and [to_excel] share *)
Lemma to_csv_header (self : t) (convert : bool)
    (flat : list (odict json) * list string) (header : list json)
    (rows : list (list json)) :
  to_flatfile self = Ok flat ->
  (to_csv self convert = Ok (header :: rows) <->
   rows = map (cells (snd flat) (JStr "")) (fst flat) /\
   (if convert
    then names <- convert_fieldnames self (snd flat) ;;
         Ok (map (fun kv => JStr (snd kv)) names)
    else Ok (map JStr (snd flat))) = Ok header).
Proof.
  intros Hflat. destruct (to_csv_Ok self flat Hflat) as [Hplain Hconv].
  destruct convert.
  - destruct (convert_fieldnames self (snd flat)) as [names|e] eqn:Hnames;
      cbn [bind].
    + destruct (Hconv names eq_refl) as [_ ->]. split.
      * intros [= <- <-]. split; reflexivity.
      * intros [-> [= <-]]. reflexivity.
    + unfold to_csv. rewrite Hflat. cbn [bind]. rewrite Hnames. cbn [bind].
      split; [discriminate | intros [_ H]; discriminate].
  - rewrite Hplain. split.
    + intros [= <- <-]. split; reflexivity.
    + intros [-> [= <-]]. reflexivity.
Qed.

(** X8: with [xlsxwriter] installed, asking [to_excel] for several sheets
    raises NotImplementedError whatever the data, and nothing is written.
    With one sheet, if [to_excel] returns then [to_csv] returns as well, and
    the rows handed to the worksheet were all taken: the header of [to_csv]
    at row 0 and record number i at row i + 1, cell by cell as in [to_csv]
    except that a value that the row lacks is None instead of the empty
    string.  Conversely, where [to_csv] returns and the worksheet takes each
    of these rows (it refuses a NaN or an infinity, which [to_csv] writes),
    [to_excel] returns. *)
Theorem to_excel_sheet (x : xlsx) (self : t) (convert : bool) :
  installed x = true ->
  to_excel x self true convert
    = NotImplementedError "Not yet able to do multiple sheets" /\
  (forall sheet,
      to_excel x self false convert = Written sheet ->
      exists flat header,
        to_flatfile self = Ok flat /\
        to_csv self convert =
          Ok (header :: map (cells (snd flat) (JStr "")) (fst flat)) /\
        sheet = (0, header)
                :: combine (seq 1 (List.length (fst flat)))
                     (map (cells (snd flat) JNull) (fst flat)) /\
        Forall (fun rc => write_row x (fst rc) (snd rc) = None) sheet) /\
  (forall flat header rows,
      to_flatfile self = Ok flat ->
      to_csv self convert = Ok (header :: rows) ->
      Forall (fun rc => write_row x (fst rc) (snd rc) = None)
        ((0, header)
         :: combine (seq 1 (List.length (fst flat)))
              (map (cells (snd flat) JNull) (fst flat))) ->
      to_excel x self false convert =
        Written ((0, header)
                 :: combine (seq 1 (List.length (fst flat)))
                      (map (cells (snd flat) JNull) (fst flat)))) /\
  (forall fieldnames row f v,
      od_get f row = Some v ->
      In f fieldnames ->
      In v (cells fieldnames JNull row) /\ In v (cells fieldnames (JStr "") row)).
Proof.
  intros Hinst. unfold to_excel. rewrite Hinst. cbn [negb].
  split; [reflexivity|]. split; [|split].
  - intros sheet H.
    destruct (to_flatfile self) as [flat|] eqn:Hflat; [|discriminate].
    exists flat.
    destruct (if convert
              then names <- convert_fieldnames self (snd flat) ;;
                   Ok (map (fun kv => JStr (snd kv)) names)
              else Ok (map JStr (snd flat))) as [header|] eqn:Hheader;
      [|discriminate].
    exists header.
    destruct (write_row x 0 header) eqn:Hw; [discriminate|].
    destruct (write_rows x 0 (snd flat) (fst flat)) as [rows|] eqn:Hrows;
      [|discriminate].
    injection H as <-. apply write_rows_Ok in Hrows. destruct Hrows as [-> Hall].
    split; [reflexivity|]. split.
    + apply (to_csv_header self convert flat header _ Hflat). now split.
    + split; [reflexivity|]. now constructor.
  - intros flat header rows Hflat Hcsv Hall. rewrite Hflat.
    apply (to_csv_header self convert flat header rows Hflat) in Hcsv.
    destruct Hcsv as [_ Hheader]. rewrite Hheader.
    inversion Hall as [|? ? Hhead Htail]; subst. simpl in Hhead. rewrite Hhead.
    assert (Hrows : write_rows x 0 (snd flat) (fst flat) =
                    Ok (combine (seq 1 (List.length (fst flat)))
                          (map (cells (snd flat) JNull) (fst flat)))).
    { apply write_rows_Ok. split; [reflexivity | exact Htail]. }
    now rewrite Hrows.
  - intros fieldnames row f v Hget Hf. unfold cells.
    split; apply in_map_iff; exists f; rewrite Hget; auto.
Qed.

(* ================================================================== *)
(** ** The rename rules at work: from [recurse_names] to [re.sub] *)

Import Chains.

(** *** Strings *)

Lemma concat_tail (sep x : string) (l : list string) :
  String.concat sep (x :: l) = (x ++ tail_string sep l)%string.
Proof.
  revert x. induction l as [|y l IH]; intros x.
  - simpl. now rewrite append_nil_r.
  - change (String.concat sep (x :: y :: l))
      with (x ++ sep ++ String.concat sep (y :: l))%string.
    now rewrite IH.
Qed.

Lemma length_append (a b : string) :
  String.length (a ++ b) = String.length a + String.length b.
Proof. induction a; simpl; congruence. Qed.

Lemma substring_prefix (a b : string) :
  substring 0 (String.length a) (a ++ b) = a.
Proof.
  induction a as [|c a IH]; simpl; [now destruct b | now rewrite IH].
Qed.

Lemma consumed_app (a b : string) : Re.consumed (a ++ b) b = a.
Proof.
  unfold Re.consumed. rewrite length_append, Nat.add_sub.
  apply substring_prefix.
Qed.

(** *** Decimal indices *)

Lemma string_of_uint_digits (d : Decimal.uint) :
  forallb (Re.cset_match digit) (list_ascii_of_string (NilEmpty.string_of_uint d))
  = true.
Proof. induction d; simpl; auto. Qed.

Lemma str_digits (i : nat) :
  forallb (Re.cset_match digit) (list_ascii_of_string (str i)) = true.
Proof. apply string_of_uint_digits. Qed.

Lemma str_nonempty (i : nat) : str i <> "".
Proof.
  unfold str.
  assert (H : Nat.to_uint i <> Decimal.Nil).
  { rewrite <- (DecimalNat.Unsigned.of_to i) at 1.
    rewrite DecimalNat.Unsigned.to_of. unfold Decimal.unorm.
    destruct (Decimal.nzhead (Nat.to_uint i)); discriminate. }
  destruct (Nat.to_uint i); try discriminate. contradiction.
Qed.

(** *** Compiling the pattern of a chain *)

Lemma plain_char_cases (a : ascii) :
  plain_char a = true ->
  Ascii.eqb a "(" = false /\ Ascii.eqb a ")" = false /\
  Ascii.eqb a "+" = false /\ Ascii.eqb a "[" = false /\
  Re.unsupported a = false.
Proof.
  unfold plain_char. rewrite negb_true_iff, !orb_false_iff. tauto.
Qed.

Lemma parse_lits (n rest : string) :
  plain n = true ->
  forall cur stack ng,
    Re.parse (n ++ rest) cur stack ng None =
    Re.parse rest (rev (lits n) ++ cur) stack ng None.
Proof.
  unfold plain, lits. induction n as [|a n IH]; intros Hplain cur stack ng.
  - reflexivity.
  - simpl in Hplain. apply andb_true_iff in Hplain. destruct Hplain as [Ha Hn].
    destruct (plain_char_cases a Ha) as [H1 [H2 [H3 [H4 H5]]]].
    simpl. rewrite H1, H2, H3, H4, H5. rewrite <- List.app_assoc. simpl.
    unfold item_of. destruct (Ascii.eqb a "."); now apply IH.
Qed.

Lemma parse_index (rest : string) (cur : list Re.regex)
    (stack : list (nat * list Re.regex)) (ng : nat) :
  Re.parse (".([0-9]+)." ++ rest) cur stack ng None =
  Re.parse rest (Re.Chr Re.CDot :: index_group (S ng) :: Re.Chr Re.CDot :: cur)
    stack (S ng) None.
Proof. reflexivity. Qed.

Lemma parse_tail (names : list string) (rest : string) :
  Forall (fun n => plain n = true) names ->
  forall cur stack ng,
    Re.parse (tail_string ".([0-9]+)." names ++ rest) cur stack ng None =
    Re.parse rest (rev (tail_items ng names) ++ cur) stack
      (ng + List.length names) None.
Proof.
  induction 1 as [|n names Hn _ IH]; intros cur stack ng.
  - simpl. now rewrite Nat.add_0_r.
  - change (tail_string ".([0-9]+)." (n :: names))
      with (".([0-9]+)." ++ n ++ tail_string ".([0-9]+)." names)%string.
    rewrite (append_assoc ".([0-9]+)."), (append_assoc n).
    rewrite parse_index, (parse_lits n _ Hn), IH.
    simpl List.length. rewrite <- plus_n_Sm.
    change (tail_items ng (n :: names))
      with ([Re.Chr Re.CDot; index_group (S ng); Re.Chr Re.CDot]
              ++ lits n ++ tail_items (S ng) names).
    rewrite !rev_app_distr, <- !List.app_assoc. reflexivity.
Qed.

Lemma seq_of_rev (items : list Re.regex) : Re.seq_of (rev items) = seqr items.
Proof.
  unfold Re.seq_of, seqr.
  rewrite <- (fold_left_rev_right (fun r acc => Re.Seq r acc) (rev items) Re.Eps).
  now rewrite rev_involutive.
Qed.

(** The pattern of a chain with plain names compiles, with one group for
    each level below the first. *)
Lemma compile_chain (first : string) (names : list string) :
  plain first = true ->
  Forall (fun n => plain n = true) names ->
  Re.compile (String.concat ".([0-9]+)." (first :: names)) =
  Some (seqr (lits first ++ tail_items 0 names), List.length names).
Proof.
  intros Hf Hn. unfold Re.compile.
  rewrite concat_tail, (parse_lits first _ Hf).
  rewrite <- (append_nil_r (tail_string ".([0-9]+)." names)).
  rewrite (parse_tail names "" Hn). simpl.
  rewrite List.app_nil_r, <- rev_app_distr, seq_of_rev. reflexivity.
Qed.

(** *** Parsing the template of a chain *)

Lemma option_map_app {A : Type} (l1 : list A) (o : option (list A)) (a : A) :
  option_map (cons a) (option_map (app l1) o) = option_map (app (a :: l1)) o.
Proof. now destruct o. Qed.

Lemma parse_template_text (t rest : string) (ng : nat) :
  bsfree t = true ->
  Re.parse_template (t ++ rest) ng =
  option_map (app (map Re.Lit (list_ascii_of_string t)))
    (Re.parse_template rest ng).
Proof.
  unfold bsfree. induction t as [|a t IH]; intros H; simpl.
  - now destruct (Re.parse_template rest ng).
  - simpl in H. apply andb_true_iff in H. destruct H as [Ha Ht].
    apply negb_true_iff in Ha. rewrite Ha, (IH Ht). apply option_map_app.
Qed.

Lemma parse_template_ref (rest : string) (ng : nat) :
  Re.parse_template (":\1:" ++ rest) (S ng) =
  option_map (fun tpl => Re.Lit ":" :: Re.Ref 1 :: Re.Lit ":" :: tpl)
    (Re.parse_template rest (S ng)).
Proof. simpl. now destruct (Re.parse_template rest (S ng)). Qed.

Lemma parse_template_tail (titles : list string) (ng : nat) :
  Forall (fun t => bsfree t = true) titles ->
  Re.parse_template (tail_string ":\1:" titles) (S ng) =
  Some (flat_map (fun t => [Re.Lit ":"; Re.Ref 1; Re.Lit ":"]
                             ++ map Re.Lit (list_ascii_of_string t)) titles).
Proof.
  induction 1 as [|t titles Ht _ IH]; [reflexivity|].
  change (tail_string ":\1:" (t :: titles))
    with (":\1:" ++ t ++ tail_string ":\1:" titles)%string.
  rewrite parse_template_ref, (parse_template_text t _ _ Ht), IH.
  reflexivity.
Qed.

(** The template of a chain with titles free of backslashes is valid for a
    pattern with a group whenever it refers to one. *)
Lemma parse_template_chain (first : string) (titles : list string) (ng : nat) :
  bsfree first = true ->
  Forall (fun t => bsfree t = true) titles ->
  titles = [] \/ 1 <= ng ->
  Re.parse_template (String.concat ":\1:" (first :: titles)) ng =
  Some (template_of first titles).
Proof.
  intros Hf Ht Hng. rewrite concat_tail, (parse_template_text first _ _ Hf).
  unfold template_of. destruct Hng as [-> | Hng]; [reflexivity|].
  destruct ng as [|ng]; [inversion Hng|].
  now rewrite (parse_template_tail titles ng Ht).
Qed.

(** *** Matching the key of a chain *)

Lemma plus_k_ext {A : Type} (c : Re.cset) (k1 k2 : string -> option A) (s : string) :
  (forall s', k1 s' = k2 s') -> Re.plus_k c k1 s = Re.plus_k c k2 s.
Proof.
  intros H. induction s as [|a s IH]; simpl; [reflexivity|].
  now rewrite IH, H.
Qed.

(** The matcher depends on its continuation only through its values. *)
Lemma m_ext {A : Type} (r : Re.regex) :
  forall s caps (k1 k2 : string -> Re.captures -> option A),
    (forall s' caps', k1 s' caps' = k2 s' caps') ->
    Re.m r s caps k1 = Re.m r s caps k2.
Proof.
  induction r as [|c|c|r1 IH1 r2 IH2|n r IH]; intros s caps k1 k2 H; simpl.
  - apply H.
  - destruct s as [|a s]; [reflexivity|]. now rewrite H.
  - apply plus_k_ext. intros s'. apply H.
  - apply IH1. intros s' caps'. now apply IH2.
  - apply IH. intros s' caps'. apply H.
Qed.

Lemma m_seqr_app {A : Type} (items1 items2 : list Re.regex) :
  forall s caps (k : string -> Re.captures -> option A),
    Re.m (seqr (items1 ++ items2)) s caps k =
    Re.m (seqr items1) s caps (fun s' caps' => Re.m (seqr items2) s' caps' k).
Proof.
  induction items1 as [|x items1 IH]; intros s caps k; simpl; [reflexivity|].
  apply m_ext. intros s' caps'. apply IH.
Qed.

Lemma item_of_matches (a : ascii) (rest : string) {A : Type} (caps : Re.captures)
    (k : string -> Re.captures -> option A) :
  Re.m (item_of a) (String a rest) caps k = k rest caps.
Proof.
  unfold item_of. destruct (Ascii.eqb_spec a ".") as [->|Hne]; simpl.
  - reflexivity.
  - now rewrite Ascii.eqb_refl.
Qed.

(** The items of a name consume the name. *)
Lemma m_lits {A : Type} (n rest : string) (caps : Re.captures)
    (k : string -> Re.captures -> option A) :
  Re.m (seqr (lits n)) (n ++ rest) caps k = k rest caps.
Proof.
  unfold lits. induction n as [|a n IH]; [reflexivity|].
  simpl list_ascii_of_string. simpl map.
  change (seqr (item_of a :: map item_of (list_ascii_of_string n)))
    with (Re.Seq (item_of a) (seqr (map item_of (list_ascii_of_string n)))).
  change (String a n ++ rest)%string with (String a (n ++ rest)).
  simpl Re.m. rewrite item_of_matches. apply IH.
Qed.

(** A greedy [+] over a run of matching characters that ends before a
    character that does not match: the first success is the whole run. *)
Lemma plus_k_run {A : Type} (c : Re.cset) (run rest : string)
    (k : string -> option A) (x : A) :
  run <> "" ->
  forallb (Re.cset_match c) (list_ascii_of_string run) = true ->
  match rest with
  | "" => True
  | String a _ => Re.cset_match c a = false
  end ->
  k rest = Some x ->
  Re.plus_k c k (run ++ rest) = Some x.
Proof.
  intros Hne Hrun Hrest Hk. induction run as [|a run IH]; [contradiction|].
  simpl in Hrun. apply andb_true_iff in Hrun. destruct Hrun as [Ha Hrun].
  simpl. rewrite Ha. destruct run as [|b run].
  - simpl. destruct rest as [|b rest]; simpl.
    + exact Hk.
    + now rewrite Hrest.
  - rewrite IH; [reflexivity | discriminate | assumption].
Qed.

(** One level: [.], the index as a group, [.] *)
Lemma m_index {A : Type} (g i : nat) (items : list Re.regex) (rest : string)
    (caps : Re.captures) (k : string -> Re.captures -> option A) (x : A) :
  Re.m (seqr items) rest ((g, str i) :: caps) k = Some x ->
  Re.m (seqr ([Re.Chr Re.CDot; index_group g; Re.Chr Re.CDot] ++ items))
    (String "." (str i ++ String "." rest)) caps k = Some x.
Proof.
  intros H. simpl. apply plus_k_run.
  - apply str_nonempty.
  - apply str_digits.
  - reflexivity.
  - change (str i ++ String "." rest)%string with (str i ++ (String "." rest))%string.
    rewrite consumed_app. exact H.
Qed.

Lemma tail_string_level (i : nat) (n : string) (path : list string) (rest : string) :
  (tail_string "." (str i :: n :: path) ++ rest)%string =
  String "." (str i ++ String "." (n ++ (tail_string "." path ++ rest))).
Proof.
  change (tail_string "." (str i :: n :: path))
    with ("." ++ str i ++ "." ++ n ++ tail_string "." path)%string.
  simpl. f_equal. rewrite append_assoc. simpl. f_equal. f_equal.
  apply append_assoc.
Qed.

(** The levels below the first *)
Lemma m_levels {A : Type} (levels : list level) :
  forall ng caps rest (k : string -> Re.captures -> option A) (x : A),
    k rest (caps_of ng (map fst levels) caps) = Some x ->
    Re.m (seqr (tail_items ng (map (fun l => fst (snd l)) levels)))
      (tail_string "." (flat_map (fun l => [str (fst l); fst (snd l)]) levels)
         ++ rest)
      caps k = Some x.
Proof.
  induction levels as [|[i [n t]] levels IH]; intros ng caps rest k x H.
  - exact H.
  - simpl map. simpl flat_map. simpl tail_items. rewrite tail_string_level.
    apply m_index. rewrite m_seqr_app, m_lits. apply IH. exact H.
Qed.

(** The whole chain: the first name, then the levels *)
Lemma m_chain {A : Type} (first : string) (levels : list level) (rest : string)
    (k : string -> Re.captures -> option A) (x : A) :
  k rest (caps_of 0 (map fst levels) []) = Some x ->
  Re.m (seqr (lits first ++ tail_items 0 (map (fun l => fst (snd l)) levels)))
    (dotted (indexed_path first levels) ++ rest) [] k = Some x.
Proof.
  intros H. unfold dotted, indexed_path. rewrite concat_tail, append_assoc.
  rewrite m_seqr_app, m_lits. now apply m_levels.
Qed.

(** *** Expanding the template *)

Lemma expand_text (t : string) (tpl : list Re.piece) (caps : Re.captures) :
  Re.expand (map Re.Lit (list_ascii_of_string t) ++ tpl) caps =
  (t ++ Re.expand tpl caps)%string.
Proof. induction t as [|a t IH]; simpl; [reflexivity | now rewrite IH]. Qed.

Lemma expand_template (first : string) (titles : list string)
    (caps : Re.captures) (index : string) :
  Re.group 1 caps = Some index ->
  Re.expand (template_of first titles) caps =
  (first ++ tail_string (":" ++ index ++ ":") titles)%string.
Proof.
  intros Hg. unfold template_of. rewrite expand_text. f_equal.
  induction titles as [|t titles IH]; [reflexivity|].
  simpl flat_map. simpl Re.expand. rewrite Hg, expand_text.
  change (tail_string (":" ++ index ++ ":") (t :: titles))
    with ((":" ++ index ++ ":") ++ t
          ++ tail_string (":" ++ index ++ ":") titles)%string.
  rewrite <- IH. simpl. rewrite append_assoc. reflexivity.
Qed.

Lemma group_caps_of (indices : list nat) :
  forall ng caps, 1 <= ng ->
                  Re.group 1 (caps_of ng indices caps) = Re.group 1 caps.
Proof.
  induction indices as [|i indices IH]; intros ng caps Hng; [reflexivity|].
  simpl. rewrite IH by (apply le_S; exact Hng). simpl.
  destruct ng as [|ng]; [inversion Hng | reflexivity].
Qed.

(** *** Substituting *)

Lemma sub_scan_skip (r : Re.regex) (tpl : list Re.piece) (s : string) :
  Re.sub_scan r tpl (String.length s) s = Re.sub_scan r tpl 0 "".
Proof. induction s as [|a s IH]; [reflexivity | exact IH]. Qed.

(** A match of the whole of a non-empty string by a pattern that does not
    match the empty string: [re.sub] gives the expanded template. *)
Lemma sub_scan_whole (r : Re.regex) (tpl : list Re.piece) (s : string)
    (caps : Re.captures) :
  s <> "" ->
  Re.match_re r s = Some (String.length s, caps) ->
  Re.match_re r "" = None ->
  Re.sub_scan r tpl 0 s = Re.expand tpl caps.
Proof.
  intros Hs Hm Hempty. destruct s as [|a s]; [contradiction|].
  simpl Re.sub_scan. rewrite Hm. simpl String.length. cbv iota.
  rewrite sub_scan_skip. simpl. rewrite Hempty. apply append_nil_r.
Qed.

(** *** The rule of a chain on the flat key of a value *)

Lemma plain_chain_parts (first : string * string) (levels : list level) :
  plain_chain (first :: map snd levels) = true ->
  plain (fst first) = true /\ bsfree (snd first) = true /\
  Forall (fun n => plain n = true) (map (fun l => fst (snd l)) levels) /\
  Forall (fun t => bsfree t = true) (map (fun l => snd (snd l)) levels).
Proof.
  unfold plain_chain. simpl. intros H.
  apply andb_true_iff in H. destruct H as [Hfirst Hrest].
  apply andb_true_iff in Hfirst. destruct Hfirst as [Hn Ht].
  repeat split; try assumption.
  - apply Forall_forall. intros n Hin. apply in_map_iff in Hin.
    destruct Hin as [l [<- Hl]]. rewrite forallb_forall in Hrest.
    assert (Hs : In (snd l) (map snd levels)) by now apply in_map.
    specialize (Hrest _ Hs). apply andb_true_iff in Hrest. tauto.
  - apply Forall_forall. intros n Hin. apply in_map_iff in Hin.
    destruct Hin as [l [<- Hl]]. rewrite forallb_forall in Hrest.
    assert (Hs : In (snd l) (map snd levels)) by now apply in_map.
    specialize (Hrest _ Hs). apply andb_true_iff in Hrest. tauto.
Qed.

Lemma rule_by_level_chain (first : string * string) (levels : list level) :
  rule_by_level (first :: map snd levels) =
  (String.concat ".([0-9]+)." (fst first :: map (fun l => fst (snd l)) levels),
   String.concat ":\1:" (snd first :: map (fun l => snd (snd l)) levels)).
Proof. unfold rule_by_level. simpl map. now rewrite !map_map. Qed.

(** The pattern of a chain matches the whole flat key, through every index,
    and [re.sub] rewrites the key to the titles joined by the first index. *)
Lemma chain_rule_on_key (first : string * string) (levels : list level) :
  plain_chain (first :: map snd levels) = true ->
  fst first <> "" ->
  Re.fullmatch (fst (rule_by_level (first :: map snd levels)))
    (dotted (indexed_path (fst first) levels)) = Some true /\
  Re.sub (fst (rule_by_level (first :: map snd levels)))
    (snd (rule_by_level (first :: map snd levels)))
    (dotted (indexed_path (fst first) levels))
  = Some (display (hd 0 (map fst levels)) (map snd (first :: map snd levels))).
Proof.
  intros Hplain Hne.
  destruct (plain_chain_parts first levels Hplain) as [Hn [Ht [Hns Hts]]].
  rewrite rule_by_level_chain. cbn [fst snd].
  set (key := dotted (indexed_path (fst first) levels)).
  set (names := map (fun l => fst (snd l)) levels) in *.
  set (titles := map (fun l => snd (snd l)) levels) in *.
  set (r := seqr (lits (fst first) ++ tail_items 0 names)).
  assert (Hc : Re.compile (String.concat ".([0-9]+)." (fst first :: names)) =
               Some (r, List.length names))
    by exact (compile_chain (fst first) names Hn Hns).
  assert (Hm : forall (A : Type) (k : string -> Re.captures -> option A) (x : A),
             k "" (caps_of 0 (map fst levels) []) = Some x ->
             Re.m r key [] k = Some x).
  { intros A k x Hk. unfold key. rewrite <- (append_nil_r (dotted _)).
    now apply m_chain. }
  split.
  - unfold Re.fullmatch. rewrite Hc. unfold Re.fullmatch_re.
    now rewrite (Hm _ _ (caps_of 0 (map fst levels) []) eq_refl).
  - unfold Re.sub. rewrite Hc.
    rewrite (parse_template_chain (snd first) titles (List.length names) Ht Hts).
    + f_equal. rewrite (sub_scan_whole r _ key (caps_of 0 (map fst levels) [])).
      * simpl map. rewrite map_map. fold titles. unfold display.
        rewrite concat_tail. unfold template_of.
        destruct levels as [|[i [n t]] levels].
        -- simpl. rewrite expand_text. reflexivity.
        -- apply (expand_template (snd first) titles). simpl.
           now rewrite group_caps_of.
      * unfold key, dotted, indexed_path. rewrite concat_tail.
        destruct (fst first); [contradiction | discriminate].
      * unfold Re.match_re. apply Hm. now rewrite Nat.sub_0_r.
      * unfold r. destruct (fst first) as [|a n1]; [contradiction|].
        unfold lits. simpl. unfold item_of. now destruct (Ascii.eqb a ".").
    + unfold titles, names. destruct levels; [now left | right; simpl].
      apply le_n_S, Nat.le_0_l.
Qed.

Lemma in_keys_set_all (pairs : list (string * string)) :
  forall acc k,
    In k (od_keys (set_all pairs acc)) <-> In k (od_keys acc) \/ In k (map fst pairs).
Proof.
  unfold set_all. induction pairs as [|[k0 v0] pairs IH]; intros acc k; simpl.
  - tauto.
  - rewrite IH, od_keys_set. destruct (mem k0 (od_keys acc)) eqn:Hmem.
    + apply mem_In in Hmem. split; [tauto|].
      intros [H | [<- | H]]; tauto.
    + rewrite in_app_iff. simpl. tauto.
Qed.

(** X9: for a property reached through nested arrays whose names are free
    of regular-expression operators and whose titles are free of
    backslashes, the rule that [recurse_names] sets matches the whole flat
    key of a value of that property, whatever the indices, and
    [re.sub] rewrites the key to the titles separated by [:index:].  The
    template refers to the first group at every level, so below two arrays
    the display name repeats the index of the outer array and drops the
    inner one. *)
Theorem derived_rule_renames (first : string * string) (levels : list level) :
  plain_chain (first :: map snd levels) = true ->
  fst first <> "" -> snd first <> "" ->
  rule_by_prefix "" "" (first :: map snd levels)
    = rule_by_level (first :: map snd levels) /\
  (forall props,
      In (first :: map snd levels) (terminals props) ->
      In (fst (rule_by_prefix "" "" (first :: map snd levels)))
        (od_keys (recurse_names props [] "" ""))) /\
  Re.fullmatch (fst (rule_by_prefix "" "" (first :: map snd levels)))
    (dotted (indexed_path (fst first) levels)) = Some true /\
  Re.sub (fst (rule_by_prefix "" "" (first :: map snd levels)))
    (snd (rule_by_prefix "" "" (first :: map snd levels)))
    (dotted (indexed_path (fst first) levels))
  = Some (display (hd 0 (map fst levels)) (map snd (first :: map snd levels))).
Proof.
  intros Hplain Hn Ht.
  assert (Hrule : rule_by_prefix "" "" (first :: map snd levels)
                  = rule_by_level (first :: map snd levels)).
  { destruct first as [n t]. apply rule_by_prefix_level. right. now split. }
  split; [exact Hrule|]. split.
  - intros props Hin. rewrite recurse_names_rules. apply in_keys_set_all. right.
    rewrite map_map. apply in_map_iff. now exists (first :: map snd levels).
  - rewrite Hrule. now apply chain_rule_on_key.
Qed.

Lemma derived_rule_renames_witness :
  Re.sub "recipientOrganization.([0-9]+).location.([0-9]+).name"
    "Recipient Org:\1:Location:\1:Name"
    "recipientOrganization.3.location.12.name"
  = Some "Recipient Org:3:Location:3:Name".
Proof.
  refine (proj2 (proj2 (proj2
            (derived_rule_renames
               ("recipientOrganization", "Recipient Org")
               [(3, ("location", "Location")); (12, ("name", "Name"))]
               eq_refl _ _)))); discriminate.
Defined.

(** *** Every derived rule is usable *)

Lemma rule_by_level_supported (chain : list (string * string)) :
  plain_chain chain = true -> rule_supported (rule_by_level chain).
Proof.
  destruct chain as [|[n t] rest]; intros Hplain.
  - exists Re.Eps, 0, []. split; reflexivity.
  - unfold plain_chain in Hplain. simpl in Hplain.
    apply andb_true_iff in Hplain. destruct Hplain as [Hfirst Hrest].
    apply andb_true_iff in Hfirst. destruct Hfirst as [Hn Ht].
    rewrite forallb_forall in Hrest.
    exists (seqr (lits n ++ tail_items 0 (map fst rest))),
      (List.length (map fst rest)), (template_of t (map snd rest)).
    unfold rule_by_level. simpl. split.
    + apply (compile_chain n (map fst rest) Hn).
      apply Forall_forall. intros x Hx. apply in_map_iff in Hx.
      destruct Hx as [nt [<- Hnt]]. specialize (Hrest nt Hnt).
      apply andb_true_iff in Hrest. tauto.
    + apply (parse_template_chain t (map snd rest) _ Ht).
      * apply Forall_forall. intros x Hx. apply in_map_iff in Hx.
        destruct Hx as [nt [<- Hnt]]. specialize (Hrest nt Hnt).
        apply andb_true_iff in Hrest. tauto.
      * destruct rest; [now left | right; simpl; apply le_n_S, Nat.le_0_l].
Qed.

Lemma recurse_names_by_level (props : properties) :
  titled_arrays props = true ->
  recurse_names props [] "" "" = rules_by_level props.
Proof.
  intros Htitled. rewrite recurse_names_rules. unfold rules_by_level, od_of_pairs.
  unfold set_all. f_equal. apply map_ext_in. intros chain Hin.
  unfold terminals in Hin. apply in_flat_map in Hin.
  destruct Hin as [[i prop] [Hip Hin]]. simpl in Hin.
  unfold titled_arrays in Htitled. rewrite forallb_forall in Htitled.
  specialize (Htitled (i, prop) Hip). simpl in Htitled.
  rewrite terminals_prop_eq in Hin. destruct (is_array prop).
  - simpl in Htitled. apply andb_true_iff in Htitled.
    destruct Htitled as [Hi Ht].
    apply negb_true_iff, String.eqb_neq in Hi.
    apply negb_true_iff, String.eqb_neq in Ht.
    apply in_map_iff in Hin. destruct Hin as [rest [<- _]].
    apply rule_by_prefix_level. now right.
  - destruct Hin as [<- | []]. apply rule_by_prefix_level. now left.
Qed.

(** X10: when the property names of the schema are free of
    regular-expression operators, its titles free of backslashes, and its
    first-level arrays have a name and a title, every rule that
    [recurse_names] derives is a valid pattern with a valid template.  So
    [convert_fieldnames] returns for every list of field names, and
    [to_csv] with display names writes its table whenever the flat export
    succeeds (for records without a field named [to_flat], which would hide
    the method): [re.error] is never raised. *)
Theorem derived_rules_supported (props : properties) :
  plain_schema props = true ->
  titled_arrays props = true ->
  Forall rule_supported (recurse_names props [] "" "") /\
  (forall self fieldnames,
      replace_names self = recurse_names props [] "" "" ->
      exists names, convert_fieldnames self fieldnames = Ok names) /\
  (forall self flat,
      replace_names self = recurse_names props [] "" "" ->
      Records.methods_visible self = true ->
      to_flatfile self = Ok flat ->
      exists header,
        Output.to_csv self true =
        Ok (header :: map (Records.cells (snd flat) (JStr "")) (fst flat))).
Proof.
  intros Hplain Htitled.
  assert (Hall : Forall rule_supported (recurse_names props [] "" "")).
  { rewrite (recurse_names_by_level props Htitled). unfold rules_by_level.
    apply Forall_forall. intros rule Hin. apply in_od_of_pairs in Hin.
    apply in_map_iff in Hin. destruct Hin as [chain [<- Hchain]].
    apply rule_by_level_supported. unfold plain_schema in Hplain.
    rewrite forallb_forall in Hplain. now apply Hplain. }
  split; [exact Hall|]. split.
  - intros self fieldnames Hrules. apply convert_fieldnames_returns.
    now rewrite Hrules.
  - intros self flat Hrules _ Hflat.
    destruct (convert_fieldnames_returns self (snd flat)) as [names Hnames];
      [now rewrite Hrules|].
    destruct (to_csv_Ok self flat Hflat) as [_ Hconv].
    destruct (Hconv names Hnames) as [_ Hcsv]. eauto.
Qed.

Lemma derived_rules_supported_witness :
  exists names,
    convert_fieldnames
      (set_replace_names (init None)
         (recurse_names
            [("id", SchemaProp (Some "Identifier") None []);
             ("recipientOrganization",
              SchemaProp (Some "Recipient Org") (Some "array")
                [("name", SchemaProp (Some "Name") None [])])]
            [] "" ""))
      ["id"; "recipientOrganization.0.name"; "other"]
    = Ok names.
Proof.
  destruct (derived_rules_supported
              [("id", SchemaProp (Some "Identifier") None []);
               ("recipientOrganization",
                SchemaProp (Some "Recipient Org") (Some "array")
                  [("name", SchemaProp (Some "Name") None [])])]
              eq_refl eq_refl) as [_ [Hconv _]].
  apply Hconv. reflexivity.
Defined.

(** *** Fetching the schema again *)

Lemma add_fieldnames_absorb (keys acc : list string) :
  (forall k, In k keys -> In k acc) -> add_fieldnames keys acc = acc.
Proof.
  unfold add_fieldnames. induction keys as [|k keys IH]; intros H; simpl;
    [reflexivity|].
  assert (Hk : mem k acc = true) by (apply mem_In, H; now left).
  rewrite Hk. apply IH. intros k' Hk'. apply H. now right.
Qed.

Lemma od_keys_set_all (pairs : list (string * string)) :
  forall acc,
    od_keys (set_all pairs acc) = add_fieldnames (map fst pairs) (od_keys acc).
Proof.
  unfold set_all, add_fieldnames.
  induction pairs as [|[k v] pairs IH]; intros acc; simpl; [reflexivity|].
  now rewrite IH, od_keys_set.
Qed.

(** The value of [k] after the pairs were set: the last one given to [k] *)
Lemma od_get_set_all (pairs : list (string * string)) (k : string) :
  forall acc,
    od_get k (set_all pairs acc) =
    fold_left (fun cur kv => if String.eqb k (fst kv) then Some (snd kv) else cur)
      pairs (od_get k acc).
Proof.
  unfold set_all. induction pairs as [|[k0 v0] pairs IH]; intros acc; simpl;
    [reflexivity|].
  rewrite IH. f_equal. destruct (String.eqb_spec k k0) as [->|Hne].
  - apply od_get_set_same.
  - now apply od_get_set_other.
Qed.

Lemma last_value_absorb (pairs : list (string * string)) (k : string) :
  forall cur,
    fold_left (fun cur kv => if String.eqb k (fst kv) then Some (snd kv) else cur)
      pairs cur =
    match fold_left
            (fun cur kv => if String.eqb k (fst kv) then Some (snd kv) else cur)
            pairs None with
    | Some v => Some v
    | None => cur
    end.
Proof.
  induction pairs as [|[k0 v0] pairs IH]; intros cur; simpl; [reflexivity|].
  destruct (String.eqb k k0); [|apply IH].
  rewrite (IH (Some v0)). now destruct (fold_left _ pairs None).
Qed.

Lemma set_all_keys_NoDup (pairs : list (string * string)) :
  forall acc, NoDup (od_keys acc) -> NoDup (od_keys (set_all pairs acc)).
Proof.
  unfold set_all. induction pairs as [|[k v] pairs IH]; intros acc Hacc; simpl;
    [assumption|].
  apply IH. rewrite od_keys_set. destruct (mem k (od_keys acc)) eqn:Hk.
  - assumption.
  - apply mem_false in Hk. apply NoDup_app; [assumption | repeat constructor; auto |].
    intros a Ha [<- | []]. contradiction.
Qed.

(** Two dictionaries with the same keys in the same order and the same
    value for every key are equal. *)
Lemma od_ext (d1 : odict string) :
  forall d2,
    NoDup (od_keys d1) -> od_keys d1 = od_keys d2 ->
    (forall k, od_get k d1 = od_get k d2) -> d1 = d2.
Proof.
  induction d1 as [|[k v] d1 IH]; intros [|[k' v'] d2] Hnd Hkeys Hget;
    try discriminate; [reflexivity|].
  simpl in Hkeys. injection Hkeys as <- Hkeys.
  inversion Hnd as [|? ? Hk Hnd']; subst.
  pose proof (Hget k) as Hv. simpl in Hv. rewrite String.eqb_refl in Hv.
  injection Hv as <-. f_equal. apply IH; try assumption.
  intros k0. destruct (String.eqb_spec k0 k) as [->|Hne].
  - assert (H1 : od_get k d1 = None) by now apply od_get_None.
    assert (H2 : od_get k d2 = None)
      by (apply od_get_None; unfold od_keys in Hkeys; now rewrite <- Hkeys).
    congruence.
  - specialize (Hget k0). simpl in Hget.
    apply String.eqb_neq in Hne. now rewrite Hne in Hget.
Qed.

(** Setting the same pairs a second time changes nothing. *)
Lemma set_all_twice (pairs : list (string * string)) (acc : odict string) :
  NoDup (od_keys acc) ->
  set_all pairs (set_all pairs acc) = set_all pairs acc.
Proof.
  intros Hnd. apply od_ext.
  - now apply set_all_keys_NoDup, set_all_keys_NoDup.
  - rewrite (od_keys_set_all pairs (set_all pairs acc)).
    apply add_fieldnames_absorb. intros k Hk. apply in_keys_set_all. now right.
  - intros k. rewrite (od_get_set_all pairs k (set_all pairs acc)).
    rewrite (od_get_set_all pairs k acc).
    rewrite (last_value_absorb pairs k (fold_left _ pairs (od_get k acc))).
    rewrite (last_value_absorb pairs k (od_get k acc)).
    now destruct (fold_left _ pairs None).
Qed.

(** X11: fetching the schema a second time changes nothing: the object
    that [fetch_schema] produced is reproduced unchanged, its rename rules
    neither duplicated nor reordered. *)
Theorem fetch_schema_idempotent (w : world) (self c : t) :
  NoDup (od_keys (replace_names self)) ->
  fetch_schema w self = Ok c ->
  fetch_schema w c = Ok c.
Proof.
  intros Hnd H. unfold fetch_schema in *.
  destruct (get_schema w (schema_url self)) as [sch|] eqn:Hget; [|discriminate].
  simpl in H. destruct (od_get root_id sch) as [props|] eqn:Hroot; [|discriminate].
  simpl in H. injection H as <-. simpl. rewrite Hget. simpl. rewrite Hroot. simpl.
  rewrite !recurse_names_rules, set_all_twice by assumption. reflexivity.
Qed.

Lemma fetch_schema_idempotent_witness :
  exists c,
    fetch_schema
      (mkWorld (fun _ => None)
         (fun _ => Some [("grants", [("id", SchemaProp (Some "Identifier") None [])])])
         (fun _ _ => []) (fun _ _ => None))
      (init None) = Ok c /\
    fetch_schema
      (mkWorld (fun _ => None)
         (fun _ => Some [("grants", [("id", SchemaProp (Some "Identifier") None [])])])
         (fun _ _ => []) (fun _ _ => None))
      c = Ok c /\
    replace_names c = [("id", "Identifier")].
Proof.
  eexists. split; [reflexivity|]. split; [|reflexivity].
  apply (fetch_schema_idempotent _ (init None)); [constructor | reflexivity].
Defined.

(* ================================================================== *)
(** ** Properties of [from_url] and [guess_encoding] *)

Lemma guess_filetype_Ok (r : response) (url ft : string) :
  guess_filetype r url = Ok ft -> In ft ["json"; "xlsx"; "csv"].
Proof.
  unfold guess_filetype. cbv zeta.
  match goal with
  | |- (bind ?X _ = _) -> _ => destruct X as [[ft'|]|]
  end; cbn [bind]; try discriminate.
  destruct (mem ft' known_filetypes) eqn:Hm; [|discriminate].
  intros [= <-]. apply mem_In in Hm. exact Hm.
Qed.

(** X12: a filetype worked out by [from_url] is one of json, xlsx and csv,
    or ValueError is raised; so without an explicit filetype [from_url]
    never returns None, and what it returns is a validated object. *)
Theorem from_url_guessed (w : world) (net : web) (url : string)
    (schema_url : option string) :
  (forall r ft, guess_filetype r url = Ok ft -> In ft ["json"; "xlsx"; "csv"]) /\
  (forall res,
      from_url w net url None schema_url = Ok res ->
      exists c, res = Some c /\ validated c).
Proof.
  split; [intros r ft; apply guess_filetype_Ok|].
  intros res H. unfold from_url in H.
  destruct (get net url) as [r|]; [|discriminate]. simpl in H.
  destruct (guess_filetype r url) as [ft|] eqn:Hft; [|discriminate]. simpl in H.
  match type of H with
    | context [mkstemp ?n ?suffix ?body] =>
        destruct (mkstemp n suffix body) as [path|]
    end; [|discriminate].
  simpl in H. apply guess_filetype_Ok in Hft. destruct res as [c|].
  - exists c. split; [reflexivity|].
    exact (from_file_validated _ _ _ _ _ H).
  - exfalso. apply from_file_None_iff_aux in H. apply H. simpl in *. tauto.
Qed.

(** X13: with an explicit filetype [from_url] does not look at the
    response headers or at the URL and does not check the filetype.  Once
    the file is downloaded and the temporary file with the suffix made of a
    dot and the filetype is written, it loads that file as that type, and
    for a filetype that [from_file] does not know it returns None where a
    guessed one would raise ValueError.  When the temporary file cannot be
    made (as for a filetype that holds a path separator) it raises before
    [from_file] is reached. *)
Theorem from_url_explicit (w : world) (net : web) (url filetype : string)
    (schema_url : option string) (r : response) :
  get net url = Some r ->
  filetype <> "" ->
  (forall path,
      mkstemp net ("." ++ filetype) (content r) = Some path ->
      from_url w net url (Some filetype) schema_url =
        from_file w path filetype schema_url /\
      (~ In filetype ["json"; "csv"; "xlsx"; "xls"; "excel"] ->
       from_url w net url (Some filetype) schema_url = Ok None)) /\
  (mkstemp net ("." ++ filetype) (content r) = None ->
   from_url w net url (Some filetype) schema_url = Raise ExternalError).
Proof.
  intros Hget Hne. apply String.eqb_neq in Hne. split.
  - intros path Hpath.
    assert (H : from_url w net url (Some filetype) schema_url =
                from_file w path filetype schema_url).
    { unfold from_url. rewrite Hget. cbn [lift bind]. rewrite Hne.
      cbn [bind]. now rewrite Hpath. }
    split; [exact H|]. intros Hnot. rewrite H.
    now apply from_file_None_iff_aux.
  - intros Hpath. unfold from_url. rewrite Hget. cbn [lift bind]. rewrite Hne.
    cbn [bind]. now rewrite Hpath.
Qed.

Lemma from_url_explicit_witness :
  from_url
    (mkWorld (fun _ => None) (fun _ => None) (fun _ _ => []) (fun _ _ => None))
    (mkWeb (fun _ => Some (mkResponse [("content-type", "text/csv")] "a,b"))
       (fun suffix _ =>
          if String.eqb suffix ".x/y" then None
          else Some ("/tmp/tmp" ++ suffix)%string))
    "http://example.org/grants" (Some "xml") None
  = Ok None /\
  from_url
    (mkWorld (fun _ => None) (fun _ => None) (fun _ _ => []) (fun _ _ => None))
    (mkWeb (fun _ => Some (mkResponse [("content-type", "text/csv")] "a,b"))
       (fun suffix _ =>
          if String.eqb suffix ".x/y" then None
          else Some ("/tmp/tmp" ++ suffix)%string))
    "http://example.org/grants" (Some "x/y") None
  = Raise ExternalError.
Proof.
  split.
  - destruct (from_url_explicit
                (mkWorld (fun _ => None) (fun _ => None) (fun _ _ => [])
                   (fun _ _ => None))
                (mkWeb (fun _ => Some (mkResponse [("content-type", "text/csv")] "a,b"))
                   (fun suffix _ =>
                      if String.eqb suffix ".x/y" then None
                      else Some ("/tmp/tmp" ++ suffix)%string))
                "http://example.org/grants" "xml" None
                (mkResponse [("content-type", "text/csv")] "a,b")
                eq_refl) as [H _].
    + discriminate.
    + destruct (H "/tmp/tmp.xml" eq_refl) as [_ Hnone]. apply Hnone. simpl.
      intros [H1 | [H1 | [H1 | [H1 | [H1 | []]]]]]; discriminate.
  - destruct (from_url_explicit
                (mkWorld (fun _ => None) (fun _ => None) (fun _ _ => [])
                   (fun _ _ => None))
                (mkWeb (fun _ => Some (mkResponse [("content-type", "text/csv")] "a,b"))
                   (fun suffix _ =>
                      if String.eqb suffix ".x/y" then None
                      else Some ("/tmp/tmp" ++ suffix)%string))
                "http://example.org/grants" "x/y" None
                (mkResponse [("content-type", "text/csv")] "a,b")
                eq_refl) as [_ H].
    + discriminate.
    + apply H. reflexivity.
Defined.

(** *** Where the filetype comes from *)

Lemma split_last_from_dotfree (s cur : string) :
  dotfree s = true -> PyStr.split_last_from "." cur s = (cur ++ s)%string.
Proof.
  revert cur. induction s as [|a s IH]; intros cur H; simpl.
  - now rewrite append_nil_r.
  - simpl in H. apply andb_true_iff in H. destruct H as [Ha Hs].
    apply negb_true_iff in Ha. rewrite Ha, (IH _ Hs), append_assoc. reflexivity.
Qed.

(** What follows the last dot *)
Lemma split_last_from_extension (base ext : string) :
  dotfree ext = true ->
  forall cur, PyStr.split_last_from "." cur (base ++ String "." ext) = ext.
Proof.
  intros H. induction base as [|a base IH]; intros cur.
  - change (PyStr.split_last_from "." cur ("" ++ String "." ext))
      with (PyStr.split_last_from "." "" ext).
    now rewrite (split_last_from_dotfree ext "" H).
  - change (PyStr.split_last_from "." cur (String a base ++ String "." ext))
      with (if Ascii.eqb a "."
            then PyStr.split_last_from "." "" (base ++ String "." ext)
            else PyStr.split_last_from "." (cur ++ String a "")
                   (base ++ String "." ext)).
    destruct (Ascii.eqb a "."); apply IH.
Qed.

Lemma split_last_extension (base ext : string) :
  dotfree ext = true ->
  PyStr.split_last "." (base ++ "." ++ ext) = ext.
Proof.
  intros H. unfold PyStr.split_last.
  exact (split_last_from_extension base ext H "").
Qed.

(** X14: the filetype is taken from the content type (up to the first
    semicolon, in lower case) when that is one of the three known content
    types, whatever else the response and the URL say; otherwise from the
    content-disposition header when there is one, and then the URL is not
    consulted at all; and only when there is neither from the URL, as what
    follows its last dot. *)
Theorem guess_filetype_sources (r : response) (url : string) :
  (forall ft,
      od_get (content_type r) CONTENT_TYPE_MAP = Some ft ->
      guess_filetype r url = Ok ft) /\
  (forall d url',
      od_get (content_type r) CONTENT_TYPE_MAP = None ->
      od_get "content-disposition" (headers r) = Some d ->
      guess_filetype r url = guess_filetype r url') /\
  (forall base ext,
      od_get (content_type r) CONTENT_TYPE_MAP = None ->
      od_get "content-disposition" (headers r) = None ->
      dotfree ext = true ->
      url = (base ++ "." ++ ext)%string ->
      guess_filetype r url =
      if mem ext ["json"; "xlsx"; "csv"] then Ok ext
      else Raise (ValueError ("Unrecognised file type [" ++ ext ++ "]"))).
Proof.
  split; [|split].
  - intros ft Hct. unfold guess_filetype. cbv zeta. unfold od_mem. rewrite Hct.
    assert (Hne : String.eqb (content_type r) "" = false).
    { destruct (String.eqb_spec (content_type r) "") as [He|]; [|reflexivity].
      rewrite He in Hct. discriminate. }
    rewrite Hne. cbn [negb andb bind].
    assert (Hknown : mem ft known_filetypes = true).
    { apply mem_In. apply od_get_In in Hct.
      unfold known_filetypes. apply in_map_iff. now exists (content_type r, ft). }
    now rewrite Hknown.
  - intros d url' Hct Hcd. unfold guess_filetype. cbv zeta. unfold od_mem.
    rewrite Hct, Hcd. rewrite andb_false_r. reflexivity.
  - intros base ext Hct Hcd Hext ->. unfold guess_filetype. cbv zeta.
    unfold od_mem. rewrite Hct, Hcd. rewrite andb_false_r. cbn [bind].
    rewrite (split_last_extension base ext Hext). reflexivity.
Qed.

(** *** guess_encoding *)

(** X15: [guess_encoding] returns the first candidate, in the order of the
    list, with which the file decodes, every candidate before it having
    failed with UnicodeDecodeError; it returns None exactly when every
    candidate fails that way. *)
Theorem guess_encoding_first (read : string -> read_outcome)
    (encodings : list string) :
  (forall e,
      guess_encoding read encodings = Ok (Some e) <->
      exists before after,
        encodings = before ++ e :: after /\
        Forall (fun x => read x = UnicodeDecodeError) before /\
        read e = Decoded) /\
  (guess_encoding read encodings = Ok None <->
   Forall (fun x => read x = UnicodeDecodeError) encodings).
Proof.
  split.
  - intros e. split.
    + induction encodings as [|x encodings IH]; simpl; [discriminate|].
      destruct (read x) eqn:Hx; try discriminate.
      * intros [= <-]. exists [], encodings. auto.
      * intros H. destruct (IH H) as [before [after [-> [Hb He]]]].
        exists (x :: before), after. auto.
    + intros [before [after [-> [Hb He]]]].
      induction Hb as [|x before Hx _ IH]; simpl.
      * now rewrite He.
      * now rewrite Hx.
  - induction encodings as [|x encodings IH]; simpl.
    + split; [constructor | reflexivity].
    + destruct (read x) eqn:Hx.
      * split; [discriminate | intros H; inversion H; congruence].
      * rewrite IH. split; [now constructor | intros H; now inversion H].
      * split; [discriminate | intros H; inversion H; congruence].
Qed.

(* ================================================================== *)
(** ** Edge cases of [convert_fieldnames] and [recurse_names] *)

Lemma outer_loop_no_fields (rules : odict string) :
  for_fold
    (fun fieldnames rule =>
       for_fold (apply_rule (fst rule) (snd rule)) (od_keys fieldnames) fieldnames)
    rules [] = Ok [].
Proof. induction rules as [|rule rules IH]; simpl; [reflexivity | exact IH]. Qed.

(** X16: with no field names [convert_fieldnames] returns the empty
    mapping without compiling any pattern, so that not even an invalid rule
    raises; and on an object whose schema was never fetched (no rules) it
    maps every field name to itself, once, in the order of first
    occurrence. *)
Theorem convert_fieldnames_edges (self : t) :
  convert_fieldnames self [] = Ok [] /\
  (replace_names self = [] ->
   forall fieldnames,
     convert_fieldnames self fieldnames =
     Ok (map (fun f => (f, f)) (first_seen fieldnames))).
Proof.
  split.
  - unfold convert_fieldnames. simpl. apply outer_loop_no_fields.
  - intros Hrules fieldnames. unfold convert_fieldnames.
    now rewrite Hrules, od_of_pairs_diagonal.
Qed.

Lemma set_all_fresh (pairs : list (string * string)) :
  NoDup (map fst pairs) -> set_all pairs [] = pairs.
Proof. intros H. unfold set_all. now rewrite od_fold_fresh. Qed.

(** X17: for a schema without arrays at the first level and with pairwise
    different property names, the derived rules are exactly one rule per
    property, in declared order, from the property name to its title, or
    to the name itself where there is no title. *)
Theorem recurse_names_flat_schema (props : properties) :
  forallb (fun ip => negb (is_array (snd ip))) props = true ->
  NoDup (map fst props) ->
  recurse_names props [] "" "" =
  map (fun ip => (fst ip, title_or (snd ip) (fst ip))) props.
Proof.
  intros Hflat Hnd. rewrite recurse_names_rules.
  assert (Hrules : map (rule_by_prefix "" "") (terminals props) =
                   map (fun ip => (fst ip, title_or (snd ip) (fst ip))) props).
  { unfold terminals. clear Hnd.
    induction props as [|[i prop] props IH]; [reflexivity|].
    simpl in Hflat. apply andb_true_iff in Hflat. destruct Hflat as [Hp Hrest].
    apply negb_true_iff in Hp. simpl flat_map. rewrite terminals_prop_eq, Hp.
    simpl. now rewrite (IH Hrest). }
  rewrite Hrules. apply set_all_fresh. now rewrite map_map.
Qed.

Lemma recurse_names_flat_schema_witness :
  recurse_names
    [("id", SchemaProp (Some "Identifier") None []);
     ("currency", SchemaProp None (Some "string") [])]
    [] "" ""
  = [("id", "Identifier"); ("currency", "currency")].
Proof.
  apply (recurse_names_flat_schema
           [("id", SchemaProp (Some "Identifier") None []);
            ("currency", SchemaProp None (Some "string") [])]).
  - reflexivity.
  - apply unique_NoDup. reflexivity.
Defined.

(* ================================================================== *)
(** ** The file name of a content-disposition header *)

Import Headers.

Lemma compile_filename : Re.compile "filename=(.+)" = Some (filename_re, 1).
Proof. reflexivity. Qed.

(** A literal matches its own character only. *)
Lemma m_literals_inv {A : Type} (n : list ascii) (items : list Re.regex) :
  forall s caps (k : string -> Re.captures -> option A) x,
    Re.m (fold_right Re.Seq Re.Eps
            (map (fun a => Re.Chr (Re.CLit a)) n ++ items)) s caps k = Some x ->
    exists rest,
      s = (string_of_list_ascii n ++ rest)%string /\
      Re.m (fold_right Re.Seq Re.Eps items) rest caps k = Some x.
Proof.
  induction n as [|a n IH]; intros s caps k x H.
  - exists s. split; [reflexivity | exact H].
  - simpl in H. destruct s as [|b s]; [discriminate|].
    destruct (Ascii.eqb_spec b a) as [->|Hne]; [|discriminate].
    destruct (IH _ _ _ _ H) as [rest [-> Hrest]].
    exists rest. split; [reflexivity | exact Hrest].
Qed.

Lemma m_literals {A : Type} (n : list ascii) (items : list Re.regex) :
  forall rest caps (k : string -> Re.captures -> option A),
    Re.m (fold_right Re.Seq Re.Eps
            (map (fun a => Re.Chr (Re.CLit a)) n ++ items))
      (string_of_list_ascii n ++ rest) caps k =
    Re.m (fold_right Re.Seq Re.Eps items) rest caps k.
Proof.
  induction n as [|a n IH]; intros rest caps k; [reflexivity|].
  simpl. rewrite Ascii.eqb_refl. apply IH.
Qed.

Lemma free_of_app (c : ascii) (a b : string) :
  free_of c (a ++ b) = free_of c a && free_of c b.
Proof.
  induction a as [|x a IH]; simpl; [reflexivity|].
  now rewrite IH, andb_assoc.
Qed.

Lemma free_of_dot (s : string) : free_of "." s = dotfree s.
Proof. induction s as [|a s IH]; simpl; [reflexivity | now rewrite IH]. Qed.

Lemma free_of_newline (s : string) :
  free_of "010" s = true ->
  forallb (Re.cset_match Re.CDot) (list_ascii_of_string s) = true.
Proof.
  induction s as [|a s IH]; simpl; [reflexivity|].
  intros H. apply andb_true_iff in H. destruct H as [Ha Hs].
  now rewrite Ha, (IH Hs).
Qed.

Lemma substring_whole (s : string) : substring 0 (String.length s) s = s.
Proof. induction s as [|a s IH]; simpl; [reflexivity | now rewrite IH]. Qed.

(** A greedy [+] over characters that all match takes them all. *)
Lemma plus_k_all {A : Type} (c : Re.cset) (run : string)
    (k : string -> option A) (x : A) :
  run <> "" ->
  forallb (Re.cset_match c) (list_ascii_of_string run) = true ->
  k "" = Some x ->
  Re.plus_k c k run = Some x.
Proof.
  intros Hne Hrun Hk.
  generalize (plus_k_run c run "" k x Hne Hrun I Hk).
  now rewrite append_nil_r.
Qed.

(** On a line, a match of [filename=(.+)] runs to the end. *)
Lemma match_filename_line (s : string) (len : nat) (caps : Re.captures) :
  free_of "010" s = true ->
  Re.match_re filename_re s = Some (len, caps) ->
  len = String.length s /\ exists t, s = ("filename=" ++ t)%string.
Proof.
  intros Hnl H. unfold Re.match_re, filename_re in H.
  apply m_literals_inv in H. destruct H as [rest [Hs H]].
  split; [|now exists rest].
  simpl in H. destruct rest as [|a rest]; [discriminate|].
  assert (Hrun : forallb (Re.cset_match Re.CDot)
                   (list_ascii_of_string (String a rest)) = true).
  { apply free_of_newline. rewrite Hs, free_of_app in Hnl.
    apply andb_true_iff in Hnl. apply Hnl. }
  erewrite plus_k_all in H; [| discriminate | exact Hrun | reflexivity].
  injection H as H _. simpl in H. now rewrite Nat.sub_0_r in H.
Qed.

Lemma match_filename_here (t : string) :
  t <> "" -> free_of "010" t = true ->
  exists len caps,
    Re.match_re filename_re ("filename=" ++ t) = Some (len, caps).
Proof.
  intros Hne Hnl. unfold Re.match_re, filename_re.
  change ("filename=" ++ t)%string
    with (string_of_list_ascii (list_ascii_of_string "filename=") ++ t)%string.
  rewrite m_literals. simpl.
  erewrite plus_k_all;
    [| exact Hne | apply free_of_newline; exact Hnl | reflexivity].
  eauto.
Qed.

Lemma search_re_here (r : Re.regex) (s : string) (len : nat)
    (caps : Re.captures) :
  Re.match_re r s = Some (len, caps) ->
  ReSearch.search_re r s = Some (substring 0 len s, caps).
Proof. intros H. destruct s; simpl; now rewrite H. Qed.

Lemma search_re_next (r : Re.regex) (a : ascii) (s : string) :
  Re.match_re r (String a s) = None ->
  ReSearch.search_re r (String a s) = ReSearch.search_re r s.
Proof.
  intros H.
  change (ReSearch.search_re r (String a s))
    with (match Re.match_re r (String a s) with
          | Some (len, caps) => Some (substring 0 len (String a s), caps)
          | None => ReSearch.search_re r s
          end).
  now rewrite H.
Qed.

(** The search returns a part of the line that runs to its end. *)
Lemma search_filename (before t : string) :
  t <> "" ->
  free_of "010" (before ++ "filename=" ++ t) = true ->
  exists pre caps,
    ReSearch.search_re filename_re (before ++ "filename=" ++ t) =
    Some ((pre ++ "filename=" ++ t)%string, caps).
Proof.
  intros Hne. induction before as [|a before IH]; intros Hnl.
  - change ("" ++ "filename=" ++ t)%string with ("filename=" ++ t)%string in *.
    assert (Ht : free_of "010" t = true).
    { rewrite free_of_app in Hnl. apply andb_true_iff in Hnl. apply Hnl. }
    destruct (match_filename_here t Hne Ht) as [len [caps Hm]].
    destruct (match_filename_line _ _ _ Hnl Hm) as [-> _].
    exists "", caps.
    rewrite (search_re_here _ _ _ _ Hm). now rewrite substring_whole.
  - change (String a before ++ "filename=" ++ t)%string
      with (String a (before ++ "filename=" ++ t)) in *.
    destruct (Re.match_re filename_re (String a (before ++ "filename=" ++ t)))
      as [[len caps]|] eqn:Hm.
    + destruct (match_filename_line _ _ _ Hnl Hm) as [-> _].
      exists (String a before), caps.
      rewrite (search_re_here _ _ _ _ Hm). now rewrite substring_whole.
    + simpl in Hnl. apply andb_true_iff in Hnl. destruct Hnl as [_ Hnl].
      destruct (IH Hnl) as [pre [caps Hs]]. exists pre, caps.
      rewrite (search_re_next _ _ _ Hm). exact Hs.
Qed.

Lemma rstrip_free (c : ascii) (s : string) :
  free_of c s = true -> PyStr.rstrip c s = s.
Proof.
  induction s as [|a s IH]; simpl; [reflexivity|].
  intros H. apply andb_true_iff in H. destruct H as [Ha Hs].
  apply negb_true_iff in Ha. rewrite (IH Hs), Ha. now destruct s.
Qed.

Lemma rstrip_closing (c : ascii) (s : string) :
  free_of c s = true -> PyStr.rstrip c (s ++ String c "") = s.
Proof.
  induction s as [|a s IH]; simpl.
  - now rewrite Ascii.eqb_refl.
  - intros H. apply andb_true_iff in H. destruct H as [Ha Hs].
    apply negb_true_iff in Ha. rewrite (IH Hs), Ha. now destruct s.
Qed.

Lemma strip_closing (c : ascii) (s close : string) :
  free_of c s = true -> close = "" \/ close = String c "" ->
  PyStr.strip c (s ++ close) = s.
Proof.
  intros Hs Hclose. unfold PyStr.strip.
  destruct s as [|a s].
  - destruct Hclose as [->| ->]; simpl; [reflexivity|].
    now rewrite Ascii.eqb_refl.
  - assert (Ha : Ascii.eqb a c = false).
    { simpl in Hs. apply andb_true_iff in Hs. now apply negb_true_iff. }
    change (PyStr.lstrip c (String a s ++ close))
      with (if Ascii.eqb a c then PyStr.lstrip c (s ++ close)
            else (String a s ++ close)%string).
    rewrite Ha. destruct Hclose as [->| ->].
    + rewrite append_nil_r. now apply rstrip_free.
    + now apply rstrip_closing.
Qed.

(** X18: when the content type decides nothing and the one-line
    content-disposition header holds [filename=], a file name, a dot and an
    extension without dot or quote, closed by a quote or by nothing, up to
    the end of the header, the filetype is that extension, whatever the
    URL: one of json, xlsx and csv is returned, anything else (such as the
    same word in upper case) is refused with its name in the message. *)
Theorem guess_filetype_content_disposition
    (r : response) (url d before name ext close : string) :
  od_get (content_type r) CONTENT_TYPE_MAP = None ->
  od_get "content-disposition" (headers r) = Some d ->
  d = (before ++ "filename=" ++ name ++ "." ++ ext ++ close)%string ->
  close = "" \/ close = String "034" "" ->
  free_of "010" d = true ->
  free_of "." ext = true ->
  free_of "034" ext = true ->
  guess_filetype r url =
  if mem ext ["json"; "xlsx"; "csv"] then Ok ext
  else Raise (ValueError ("Unrecognised file type [" ++ ext ++ "]")).
Proof.
  intros Hct Hcd Hd Hclose Hnl Hdot Hquote.
  unfold guess_filetype. cbv zeta. unfold od_mem. rewrite Hct, Hcd.
  rewrite andb_false_r. unfold ReSearch.search. rewrite compile_filename.
  cbn [lift bind].
  assert (Hne : (name ++ "." ++ ext ++ close)%string <> "").
  { destruct name; discriminate. }
  rewrite Hd in Hnl |- *.
  destruct (search_filename before _ Hne Hnl) as [pre [caps ->]].
  cbn [bind].
  assert (Hsplit : PyStr.split_last "."
                     (pre ++ "filename=" ++ name ++ "." ++ ext ++ close)
                   = (ext ++ close)%string).
  { rewrite <- (append_assoc "filename=" name), <- (append_assoc pre).
    apply split_last_extension. rewrite <- free_of_dot, free_of_app, Hdot.
    now destruct Hclose as [->| ->]. }
  rewrite Hsplit, (strip_closing _ _ _ Hquote Hclose). reflexivity.
Qed.

Lemma guess_filetype_content_disposition_witness :
  guess_filetype
    (mkResponse
       [("content-type", "application/octet-stream");
        ("content-disposition",
         String.concat (String "034" "")
           ["attachment; filename="; "grants 2019.v2.xlsx"; ""])]
       "")
    "https://example.org/download?id=7"
  = Ok "xlsx".
Proof.
  apply (guess_filetype_content_disposition _ _
           (String.concat (String "034" "")
              ["attachment; filename="; "grants 2019.v2.xlsx"; ""])
           "attachment; " (String "034" "grants 2019.v2") "xlsx"
           (String "034" ""));
    first [reflexivity | right; reflexivity].
Defined.

(* ================================================================== *)
(** ** The loaders and the exports on concrete documents *)

Lemma from_file_None_iff_witness :
  from_file
    (mkWorld (fun _ => None) (fun _ => None) (fun _ _ => []) (fun _ _ => None))
    "grants.pdf" "pdf" None
  = Ok None.
Proof.
  apply (proj2 (from_file_None_iff
                  (mkWorld (fun _ => None) (fun _ => None) (fun _ _ => [])
                     (fun _ _ => None))
                  "grants.pdf" "pdf" None)).
  simpl. intros [H | [H | [H | [H | [H | []]]]]]; discriminate.
Defined.

Lemma loaders_return_validated_witness :
  exists c,
    from_csv
      (mkWorld (fun _ => Some (JDict [("grants", JList [JDict [("id", JStr "a")]])]))
         (fun _ => Some [("grants", [("id", SchemaProp (Some "Identifier") None [])])])
         (fun _ _ => []) (fun _ f => Some (f ++ ".json")%string))
      "grants.csv" None = Ok c /\
    validated c.
Proof.
  eexists. split; [reflexivity|].
  apply (proj1 (proj2 (loaders_return_validated
                         (mkWorld
                            (fun _ => Some (JDict [("grants",
                                                    JList [JDict [("id", JStr "a")]])]))
                            (fun _ => Some [("grants",
                                             [("id", SchemaProp (Some "Identifier")
                                                       None [])])])
                            (fun _ _ => []) (fun _ f => Some (f ++ ".json")%string))
                         _))
           "grants.csv" None).
  reflexivity.
Defined.

Lemma to_csv_table_witness :
  to_csv
    (set_data (init None)
       (JDict [("grants",
                JList [JDict [("id", JStr "a"); ("amount", JInt 3)];
                       JDict [("id", JStr "b"); ("title", JStr "T")]])]))
    false
  = Ok [[JStr "id"; JStr "amount"; JStr "title"];
        [JStr "a"; JInt 3; JStr ""];
        [JStr "b"; JStr ""; JStr "T"]].
Proof.
  destruct (to_csv_table
              (set_data (init None)
                 (JDict [("grants",
                          JList [JDict [("id", JStr "a"); ("amount", JInt 3)];
                                 JDict [("id", JStr "b"); ("title", JStr "T")]])]))
              false eq_refl) as [H _].
  exact (proj1 (H([[("id", JStr "a"); ("amount", JInt 3)];
                    [("id", JStr "b"); ("title", JStr "T")]],
                   ["id"; "amount"; "title"]) eq_refl)).
Defined.

Lemma to_excel_sheet_witness :
  to_excel (mkXlsx true (fun _ _ => None))
    (set_data (init None)
       (JDict [("grants",
                JList [JDict [("id", JStr "a"); ("amount", JInt 3)];
                       JDict [("id", JStr "b"); ("title", JStr "T")]])]))
    false false
  = Written [(0, [JStr "id"; JStr "amount"; JStr "title"]);
             (1, [JStr "a"; JInt 3; JNull]);
             (2, [JStr "b"; JNull; JStr "T"])].
Proof.
  destruct (to_excel_sheet (mkXlsx true (fun _ _ => None))
              (set_data (init None)
                 (JDict [("grants",
                          JList [JDict [("id", JStr "a"); ("amount", JInt 3)];
                                 JDict [("id", JStr "b"); ("title", JStr "T")]])]))
              false eq_refl) as [_ [_ [H _]]].
  apply (H ([[("id", JStr "a"); ("amount", JInt 3)];
             [("id", JStr "b"); ("title", JStr "T")]],
            ["id"; "amount"; "title"])
           [JStr "id"; JStr "amount"; JStr "title"]
           [[JStr "a"; JInt 3; JStr ""]; [JStr "b"; JStr ""; JStr "T"]]
           eq_refl eq_refl).
  repeat constructor.
Defined.

Lemma from_url_guessed_witness :
  exists c,
    from_url
      (mkWorld (fun _ => Some (JDict [("grants", JList [])]))
         (fun _ => Some [("grants", [("id", SchemaProp (Some "Identifier") None [])])])
         (fun _ _ => []) (fun _ _ => None))
      (mkWeb (fun _ => Some (mkResponse
                               [("content-type", "Application/JSON; charset=utf-8")]
                               "{}"))
         (fun suffix _ => Some ("/tmp/x" ++ suffix)%string))
      "http://example.org/grants" None None = Ok (Some c) /\
    validated c.
Proof.
  destruct (proj2 (from_url_guessed
                     (mkWorld (fun _ => Some (JDict [("grants", JList [])]))
                        (fun _ => Some [("grants",
                                         [("id", SchemaProp (Some "Identifier")
                                                   None [])])])
                        (fun _ _ => []) (fun _ _ => None))
                     (mkWeb (fun _ => Some (mkResponse
                                              [("content-type",
                                                "Application/JSON; charset=utf-8")]
                                              "{}"))
                        (fun suffix _ => Some ("/tmp/x" ++ suffix)%string))
                     "http://example.org/grants" None) _ eq_refl)
    as [c [Hc Hv]].
  exists c. split; [rewrite <- Hc; reflexivity | exact Hv].
Defined.

Lemma guess_filetype_sources_witness :
  guess_filetype (mkResponse [("content-type", "Text/CSV; charset=utf-8")] "")
    "http://example.org/grants.json" = Ok "csv" /\
  guess_filetype (mkResponse [("content-type", "application/octet-stream")] "")
    "http://example.org/grants.2019.xlsx" = Ok "xlsx" /\
  guess_filetype (mkResponse [] "") "http://example.org/grants.XLSX"
    = Raise (ValueError "Unrecognised file type [XLSX]").
Proof.
  split; [|split].
  - apply (proj1 (guess_filetype_sources
                    (mkResponse [("content-type", "Text/CSV; charset=utf-8")] "")
                    "http://example.org/grants.json")).
    reflexivity.
  - apply (proj2 (proj2 (guess_filetype_sources
                           (mkResponse [("content-type", "application/octet-stream")] "")
                           "http://example.org/grants.2019.xlsx"))
             "http://example.org/grants.2019" "xlsx"); reflexivity.
  - apply (proj2 (proj2 (guess_filetype_sources (mkResponse [] "")
                           "http://example.org/grants.XLSX"))
             "http://example.org/grants" "XLSX"); reflexivity.
Defined.

Lemma guess_encoding_first_witness :
  guess_encoding
    (fun e => if String.eqb e "utf-8-sig" then UnicodeDecodeError else Decoded)
    ENCODINGS_TO_CHECK
  = Ok (Some "cp1252").
Proof.
  apply (proj1 (guess_encoding_first
                  (fun e => if String.eqb e "utf-8-sig" then UnicodeDecodeError
                            else Decoded)
                  ENCODINGS_TO_CHECK) "cp1252").
  exists ["utf-8-sig"], ["latin_1"]. split; [reflexivity|]. split.
  - constructor; [reflexivity | constructor].
  - reflexivity.
Defined.

Lemma convert_fieldnames_edges_witness :
  convert_fieldnames (init None) ["id"; "amount"; "id"]
  = Ok [("id", "id"); ("amount", "amount")].
Proof.
  apply (proj2 (convert_fieldnames_edges (init None)) eq_refl
           ["id"; "amount"; "id"]).
Defined.
